(** * Entity Graph Analytics Engine: a shallow embedding and its properties

    The development follows the TypeScript sources:
    - the graph store ([createGraph], [addNode], [addEdge], ...), imported by
      the other files as [graph/types.js];
    - [src/graph/centrality.ts];
    - community detection ([detectCommunities], [renumberCommunities],
      [getCommunitiesMap], [averageClusteringCoefficient]), imported as
      [graph/communities.js];
    - [src/graph/gaps.ts];
    - [src/graph/cooccurrence.ts];
    - the PMI/NPMI weighting ([PMICalculator]);
    - [src/extraction/ensemble.ts], with the entity and provenance types;
    - the structured proximity builder ([calculateProximityEdges]).

    Modelling conventions.
    - A JS [number] holding a weight, a score or a confidence is a rational
      ([Q]); character offsets are integers ([Z]); sizes and counters are
      [nat].  Floating-point rounding, NaN and the infinities are outside
      the model; a division by zero yields 0.  The one exception are the
      two confidence filters of ensemble.ts, whose comparisons [>=] and [<]
      are modelled on [Relations.JsNumber], a number that can be NaN or
      infinite.
    - A JS [string] is a [string] (a sequence of 8-bit code units, read as
      Latin-1).
    - A JS [Map] iterates in insertion order and [set] on a present key keeps
      the key's position: it is an association list ([JsMap]).  A JS [Set]
      is a duplicate-free list in insertion order ([JsSet]).
    - [undefined] is [None].
    - In-place mutation is explicit state passing: a function that mutates
      its argument returns the new value.
    - A [for] loop over a collection is a [fold_left] of its body; a loop
      with [break] or with an index pair [i < j] is a recursion on the
      remaining elements; a [while] loop is a recursion on its bound. *)

From Stdlib Require Import List String Ascii Bool Arith ZArith QArith Lia Lqa Permutation Sorted.
Import ListNotations.

Local Open Scope string_scope.
Local Open Scope list_scope.

(** ** Keys with a decidable equality (JS [===] on strings and numbers) *)

Class EqKey (K : Type) := {
  keqb : K -> K -> bool;
  keqb_eq : forall a b, keqb a b = true <-> a = b
}.

#[export] Instance string_EqKey : EqKey string :=
  {| keqb := String.eqb; keqb_eq := String.eqb_eq |}.

#[export] Instance nat_EqKey : EqKey nat :=
  {| keqb := Nat.eqb; keqb_eq := Nat.eqb_eq |}.

#[export] Instance Z_EqKey : EqKey Z :=
  {| keqb := Z.eqb; keqb_eq := Z.eqb_eq |}.

Definition option_eqb {K} `{EqKey K} (a b : option K) : bool :=
  match a, b with
  | Some x, Some y => keqb x y
  | None, None => true
  | _, _ => false
  end.

#[export] Instance option_EqKey {K} `{EqKey K} : EqKey (option K).
Proof.
  refine {| keqb := option_eqb |}.
  intros [x|] [y|]; simpl; try (split; congruence).
  rewrite keqb_eq. split; congruence.
Defined.

(** ** JS [Map]: insertion-ordered association list *)

Module JsMap.
Section Ops.
Context {K V : Type} `{EqKey K}.

Fixpoint get (m : list (K * V)) (k : K) : option V :=
  match m with
  | [] => None
  | (k', v) :: r => if keqb k k' then Some v else get r k
  end.

Fixpoint set (m : list (K * V)) (k : K) (v : V) : list (K * V) :=
  match m with
  | [] => [(k, v)]
  | (k', v') :: r => if keqb k k' then (k', v) :: r else (k', v') :: set r k v
  end.

Definition has (m : list (K * V)) (k : K) : bool :=
  match get m k with Some _ => true | None => false end.

Definition keys (m : list (K * V)) : list K := map fst m.
Definition values (m : list (K * V)) : list V := map snd m.
Definition size (m : list (K * V)) : nat := List.length m.
End Ops.
End JsMap.

(** ** JS [Set]: duplicate-free list in insertion order *)

Module JsSet.
Section Ops.
Context {K : Type} `{EqKey K}.

Definition has (s : list K) (x : K) : bool := existsb (keqb x) s.
Definition add (s : list K) (x : K) : list K := if has s x then s else s ++ [x].
Definition ofList (l : list K) : list K := fold_left add l [].
Definition size (s : list K) : nat := List.length s.
End Ops.
End JsSet.

(** ** JS value helpers *)

(** [x ?? d], and a destructuring default: only [undefined] falls through
    to the default. *)
Definition nullish {A} (o : option A) (d : A) : A :=
  match o with Some x => x | None => d end.

(** [x || d] on a number that may be [undefined]: [0] and [undefined] are
    falsy. *)
Definition orElse (o : option Q) (d : Q) : Q :=
  match o with
  | Some x => if Qeq_bool x 0 then d else x
  | None => d
  end.

Definition Math_max (a b : Q) : Q := if Qle_bool a b then b else a.
Definition Math_min (a b : Q) : Q := if Qle_bool a b then a else b.
Definition Qltb (a b : Q) : bool := negb (Qle_bool b a).

(** ** The graph store (graph/types.js) *)

Module Graph.

Record SimpleGraph := mkGraph {
  nodes : list string;
  edges : list (string * list (string * Q))
}.

Definition createGraph : SimpleGraph := mkGraph [] [].

Definition addNode (graph : SimpleGraph) (nodeId : string) : SimpleGraph :=
  mkGraph (JsSet.add (nodes graph) nodeId)
          (if JsMap.has (edges graph) nodeId then edges graph
           else JsMap.set (edges graph) nodeId []).

(** The adjacency map of [nodeId]; after [addNode] it is always present. *)
Definition adjacency (graph : SimpleGraph) (nodeId : string) : list (string * Q) :=
  match JsMap.get (edges graph) nodeId with Some m => m | None => [] end.

(** [sourceEdges] and [targetEdges] are looked up before either write, and
    they are the same object when [source = target]; the second write
    therefore reads the adjacency map as the first write left it. *)
Definition addEdge (graph : SimpleGraph) (source target : string) (weight : Q)
  : SimpleGraph :=
  let g0 := addNode (addNode graph source) target in
  let sourceEdges := adjacency g0 source in
  let e1 := JsMap.set (edges g0) source
              (JsMap.set sourceEdges target
                 (orElse (JsMap.get sourceEdges target) 0 + weight)%Q) in
  let targetEdges := adjacency (mkGraph (nodes g0) e1) target in
  let e2 := JsMap.set e1 target
              (JsMap.set targetEdges source
                 (orElse (JsMap.get targetEdges source) 0 + weight)%Q) in
  mkGraph (nodes g0) e2.

Definition getNeighbors (graph : SimpleGraph) (nodeId : string) : list string :=
  match JsMap.get (edges graph) nodeId with
  | Some m => JsMap.keys m
  | None => []
  end.

Definition getDegree (graph : SimpleGraph) (nodeId : string) : nat :=
  match JsMap.get (edges graph) nodeId with
  | Some m => JsMap.size m
  | None => 0%nat
  end.

Definition getEdgeWeight (graph : SimpleGraph) (source target : string) : Q :=
  match JsMap.get (edges graph) source with
  | Some m => orElse (JsMap.get m target) 0
  | None => 0
  end.

Definition hasEdge (graph : SimpleGraph) (source target : string) : bool :=
  match JsMap.get (edges graph) source with
  | Some m => JsMap.has m target
  | None => false
  end.

End Graph.

(** ** graph/centrality.ts *)

Module Centrality.
Import Graph.

(** The per-source traversal state of Brandes' algorithm. *)
Record BfsState := mkBfs {
  stack : list string;
  predecessors : list (string * list string);
  sigma : list (string * Q);
  distance : list (string * Z);
  queue : list string
}.

(** Body of [for (const w of getNeighbors(graph, v))]. *)
Definition visitNeighbor (v : string) (st : BfsState) (w : string) : BfsState :=
  let distW := nullish (JsMap.get (distance st) w) (-1)%Z in
  let distV := nullish (JsMap.get (distance st) v) 0%Z in
  let st1 :=
    if (distW <? 0)%Z
    then mkBfs (stack st) (predecessors st) (sigma st)
               (JsMap.set (distance st) w (distV + 1)%Z) (queue st ++ [w])
    else st in
  if option_eqb (JsMap.get (distance st1) w) (Some (distV + 1)%Z)
  then
    let sigmaW := nullish (JsMap.get (sigma st1) w) 0 in
    let sigmaV := nullish (JsMap.get (sigma st1) v) 0 in
    mkBfs (stack st1)
          (match JsMap.get (predecessors st1) w with
           | Some preds => JsMap.set (predecessors st1) w (preds ++ [v])
           | None => predecessors st1
           end)
          (JsMap.set (sigma st1) w (sigmaW + sigmaV)%Q)
          (distance st1) (queue st1)
  else st1.

(** [while (queue.length > 0)]: one unit of fuel per dequeued node; [None]
    when the fuel runs out before the queue is empty. *)
Fixpoint bfsLoop (fuel : nat) (graph : SimpleGraph) (st : BfsState)
  : option BfsState :=
  match queue st with
  | [] => Some st
  | v :: rest =>
      match fuel with
      | O => None
      | S fuel' =>
          let st1 := mkBfs (stack st ++ [v]) (predecessors st) (sigma st)
                           (distance st) rest in
          bfsLoop fuel' graph (fold_left (visitNeighbor v) (getNeighbors graph v) st1)
      end
  end.

(** Every dequeued node is the source or a key of some adjacency map, and no
    node is enqueued twice. *)
Definition bfsFuel (graph : SimpleGraph) : nat :=
  S (fold_left (fun acc e => (acc + JsMap.size (snd e))%nat) (edges graph) 0%nat).

Definition initBfs (graph : SimpleGraph) (source : string) : BfsState :=
  let st := fold_left
              (fun st node =>
                 mkBfs [] (JsMap.set (predecessors st) node [])
                       (JsMap.set (sigma st) node 0)
                       (JsMap.set (distance st) node (-1)%Z) [])
              (nodes graph) (mkBfs [] [] [] [] []) in
  mkBfs [] (predecessors st) (JsMap.set (sigma st) source 1)
        (JsMap.set (distance st) source 0%Z) [source].

(** Body of [for (const v of preds)] in the accumulation phase. *)
Definition accumulatePred (st : BfsState) (w : string)
  (delta : list (string * Q)) (v : string) : list (string * Q) :=
  let sigmaV := nullish (JsMap.get (sigma st) v) 0 in
  let sigmaW := nullish (JsMap.get (sigma st) w) 0 in
  if Qltb 0 sigmaW
  then
    let deltaW := nullish (JsMap.get delta w) 0 in
    let contribution := ((sigmaV / sigmaW) * (1 + deltaW))%Q in
    let deltaV := nullish (JsMap.get delta v) 0 in
    JsMap.set delta v (deltaV + contribution)%Q
  else delta.

(** Body of [while (stack.length > 0)]: [w] is the popped node. *)
Definition accumulateNode (st : BfsState) (source : string)
  (acc : list (string * Q) * list (string * Q)) (w : string)
  : list (string * Q) * list (string * Q) :=
  let '(delta, bc) := acc in
  let preds := nullish (JsMap.get (predecessors st) w) [] in
  let delta' := fold_left (accumulatePred st w) preds delta in
  if negb (keqb w source)
  then
    let bcW := nullish (JsMap.get bc w) 0 in
    let deltaW := nullish (JsMap.get delta' w) 0 in
    (delta', JsMap.set bc w (bcW + deltaW)%Q)
  else (delta', bc).

(** One iteration of [for (const source of graph.nodes)]. *)
Definition fromSource (graph : SimpleGraph) (bc : list (string * Q))
  (source : string) : option (list (string * Q)) :=
  match bfsLoop (bfsFuel graph) graph (initBfs graph source) with
  | None => None
  | Some st =>
      let delta0 := fold_left (fun d node => JsMap.set d node 0) (nodes graph) [] in
      Some (snd (fold_left (accumulateNode st source) (rev (stack st)) (delta0, bc)))
  end.

Definition bcInit (graph : SimpleGraph) : list (string * Q) :=
  fold_left (fun bc node => JsMap.set bc node 0) (nodes graph) [].

Definition betweennessCentrality (graph : SimpleGraph)
  : option (list (string * Q)) :=
  let bc := bcInit graph in
  if (JsSet.size (nodes graph) <? 3)%nat then Some bc
  else
    match fold_left
            (fun obc source =>
               match obc with
               | Some bc => fromSource graph bc source
               | None => None
               end)
            (nodes graph) (Some bc) with
    | None => None
    | Some bc' =>
        let n := JsSet.size (nodes graph) in
        if (2 <? n)%nat
        then
          let normFactor := (2 / (inject_Z (Z.of_nat n - 1) * inject_Z (Z.of_nat n - 2)))%Q in
          Some (map (fun '(node, value) => (node, (value * normFactor)%Q)) bc')
        else Some bc'
    end.

End Centrality.

(** ** Community detection (graph/communities.js) *)

Module Communities.
Import Graph.

(** A community id as the code can hold it at run time: [communities.get(x)!]
    is [undefined] ([None]) when [x] has no entry. *)
Definition CommunityId := option nat.

Definition getCommunity (communities : list (string * CommunityId)) (node : string)
  : CommunityId :=
  match JsMap.get communities node with Some c => c | None => None end.

(** Body of [for (const neighbor of getNeighbors(graph, node))]. *)
Definition addNeighborWeight (graph : SimpleGraph)
  (communities : list (string * CommunityId)) (node : string)
  (neighborCommunities : list (CommunityId * Q)) (neighbor : string)
  : list (CommunityId * Q) :=
  let neighborCommunity := getCommunity communities neighbor in
  let weight := orElse (JsMap.get (adjacency graph node) neighbor) 1 in
  JsMap.set neighborCommunities neighborCommunity
    (orElse (JsMap.get neighborCommunities neighborCommunity) 0 + weight)%Q.

(** Body of [for (const [community, weight] of neighborCommunities)]; the
    state is [(bestCommunity, bestGain)]. *)
Definition considerCommunity (currentCommunity : CommunityId)
  (neighborCommunities : list (CommunityId * Q))
  (best : CommunityId * Q) (entry : CommunityId * Q) : CommunityId * Q :=
  let '(community, weight) := entry in
  if negb (keqb community currentCommunity)
  then
    let gain := (weight - orElse (JsMap.get neighborCommunities currentCommunity) 0)%Q in
    if Qltb (snd best) gain then (community, gain) else best
  else best.

(** Body of [for (const node of graph.nodes)] inside the [while] loop; the
    state is [(communities, improved)]. *)
Definition moveNode (graph : SimpleGraph)
  (st : list (string * CommunityId) * bool) (node : string)
  : list (string * CommunityId) * bool :=
  let '(communities, improved) := st in
  let currentCommunity := getCommunity communities node in
  let neighborCommunities :=
    fold_left (addNeighborWeight graph communities node)
              (getNeighbors graph node) [] in
  let '(bestCommunity, bestGain) :=
    fold_left (considerCommunity currentCommunity neighborCommunities)
              neighborCommunities (currentCommunity, 0) in
  if negb (keqb bestCommunity currentCommunity) && Qltb 0 bestGain
  then (JsMap.set communities node bestCommunity, true)
  else (communities, improved).

(** [while (improved && iterations < maxIterations)], with [remaining] the
    number of iterations still allowed. *)
Fixpoint localMoves (remaining : nat) (graph : SimpleGraph)
  (communities : list (string * CommunityId)) : list (string * CommunityId) :=
  match remaining with
  | O => communities
  | S remaining' =>
      let '(communities', improved) :=
        fold_left (moveNode graph) (nodes graph) (communities, false) in
      if improved then localMoves remaining' graph communities' else communities'
  end.

Definition maxIterations : nat := 100.

Definition singletons (graph : SimpleGraph) : list (string * CommunityId) :=
  fst (fold_left
         (fun '(communities, communityId) node =>
            (JsMap.set communities node (Some communityId), S communityId))
         (nodes graph) ([], 0%nat)).

Definition renumberCommunities (communities : list (string * CommunityId))
  : list (string * CommunityId) :=
  let uniqueCommunities := JsSet.ofList (JsMap.values communities) in
  let communityMap :=
    fst (fold_left
           (fun '(communityMap, newId) oldId =>
              (JsMap.set communityMap oldId newId, S newId))
           uniqueCommunities ([], 0%nat)) in
  fold_left
    (fun result '(node, oldCommunity) =>
       JsMap.set result node (JsMap.get communityMap oldCommunity))
    communities [].

Definition detectCommunities (graph : SimpleGraph) : list (string * CommunityId) :=
  match nodes graph with
  | [] => []
  | [node] => [(node, Some 0%nat)]
  | _ => renumberCommunities (localMoves maxIterations graph (singletons graph))
  end.

Section CommunitiesMap.
Context {C : Type} `{EqKey C}.

Definition getCommunitiesMap (communities : list (string * C))
  : list (C * list string) :=
  fold_left
    (fun result '(node, community) =>
       let result1 :=
         if JsMap.has result community then result
         else JsMap.set result community [] in
       match JsMap.get result1 community with
       | Some members => JsMap.set result1 community (members ++ [node])
       | None => result1
       end)
    communities [].

End CommunitiesMap.

(** Inner loops of the clustering coefficient: the number of index pairs
    [i < j] with [graph.edges.get(neighbors[i])?.has(neighbors[j])]. *)
Fixpoint countTriangles (graph : SimpleGraph) (neighbors : list string) : nat :=
  match neighbors with
  | [] => 0
  | ni :: rest =>
      (fold_left (fun triangles nj => if hasEdge graph ni nj then S triangles else triangles)
                 rest 0 + countTriangles graph rest)%nat
  end.

Definition natQ (n : nat) : Q := inject_Z (Z.of_nat n).

(** Body of [for (const node of graph.nodes)]. *)
Definition addCoefficient (graph : SimpleGraph) (totalCoeff : Q) (node : string) : Q :=
  let neighbors := getNeighbors graph node in
  let k := List.length neighbors in
  if (k <? 2)%nat then totalCoeff
  else
    let triangles := countTriangles graph neighbors in
    let possibleTriangles := (natQ k * (natQ k - 1) / 2)%Q in
    (totalCoeff + natQ triangles / possibleTriangles)%Q.

Definition averageClusteringCoefficient (graph : SimpleGraph) : Q :=
  if (JsSet.size (nodes graph) =? 0)%nat then 0
  else (fold_left (addCoefficient graph) (nodes graph) 0 / natQ (JsSet.size (nodes graph)))%Q.

End Communities.

(** ** Array.prototype.sort with a comparator

    The sort is stable.  [le x y] says that the comparator does not put [x]
    after [y] ([compare(x, y) <= 0]); the elements are inserted from the
    right, so an element stays in front of the later elements it ties with. *)

Section StableSort.
Context {A : Type} (le : A -> A -> bool).

Fixpoint insertSorted (x : A) (l : list A) : list A :=
  match l with
  | [] => [x]
  | y :: r => if le x y then x :: y :: r else y :: insertSorted x r
  end.

Definition stableSort (l : list A) : list A := fold_right insertSorted [] l.

End StableSort.

(** ** graph/gaps.ts *)

Module Gaps.
Import Graph Communities.

Section WithClusterIds.
(** [C] is the type of cluster ids (a JS [number]). *)
Context {C : Type} `{EqKey C}.

Record BridgeCandidateInfo := mkCandidate {
  entityId : string;
  fromCluster : C;
  potentialConnections : list string;
  expectedImpact : Q
}.

Record StructuralGapInfo := mkGap {
  cluster1 : C;
  cluster2 : C;
  distance : Q;
  cluster1Entities : list string;
  cluster2Entities : list string;
  bridgeCandidates : list BridgeCandidateInfo
}.

(** [communities.get(n) === c] *)
Definition inCluster (communities : list (string * C)) (c : C) (n : string) : bool :=
  option_eqb (JsMap.get communities n) (Some c).

Definition interClusterDistance (graph : SimpleGraph) (c1 c2 : C)
  (communities : list (string * C)) : Q :=
  let '(c1Nodes, c2Nodes) :=
    fold_left
      (fun '(n1, n2) '(_, community) =>
         ((if keqb community c1 then S n1 else n1),
          (if keqb community c2 then S n2 else n2)))
      communities (0%nat, 0%nat) in
  let '(interClusterEdges, maxWeight) :=
    fold_left
      (fun acc '(source, neighbors) =>
         if inCluster communities c1 source
         then
           fold_left
             (fun '(inter, maxW) '(target, weight) =>
                ((if inCluster communities c2 target then (inter + weight)%Q else inter),
                 (if Qltb maxW weight then weight else maxW)))
             neighbors acc
         else acc)
      (edges graph) (0, 1) in
  let maxEdges := (c1Nodes * c2Nodes)%nat in
  if (maxEdges =? 0)%nat then 1
  else
    let maxPossibleWeight := (natQ maxEdges * maxWeight)%Q in
    if Qeq_bool maxPossibleWeight 0 then 1
    else
      let normalized := Math_min 1 (interClusterEdges / maxPossibleWeight) in
      (1 - normalized)%Q.

(** One of the two candidate loops of [findBridgeCandidates]: the nodes of
    [fromEntities] (cluster [cFrom]) without a neighbour in cluster [cTo]. *)
Definition candidatesFrom (graph : SimpleGraph) (communities : list (string * C))
  (cFrom cTo : C) (fromEntities toEntities : list string)
  (candidates : list BridgeCandidateInfo) : list BridgeCandidateInfo :=
  fold_left
    (fun candidates node =>
       let neighbors := getNeighbors graph node in
       let toNeighbors := filter (inCluster communities cTo) neighbors in
       if (List.length toNeighbors =? 0)%nat
       then
         let degree := getDegree graph node in
         let impact :=
           (natQ degree * (natQ (List.length toEntities) - natQ (List.length toNeighbors))
            / Math_max (natQ (List.length toEntities)) 1)%Q in
         candidates ++ [mkCandidate node cFrom (firstn 5 toEntities) impact]
       else candidates)
    fromEntities candidates.

(** [compare(a, b) = b.expectedImpact - a.expectedImpact <= 0] *)
Definition byImpactDesc (a b : BridgeCandidateInfo) : bool :=
  Qle_bool (expectedImpact b) (expectedImpact a).

Definition clusterMembers (clusterNodes : list (C * list string)) (c : C) : list string :=
  match JsMap.get clusterNodes c with Some l => l | None => [] end.

Definition findBridgeCandidates (graph : SimpleGraph) (c1 c2 : C)
  (communities : list (string * C)) (clusterNodes : list (C * list string))
  : list BridgeCandidateInfo :=
  let c1Entities := clusterMembers clusterNodes c1 in
  let c2Entities := clusterMembers clusterNodes c2 in
  let candidates := candidatesFrom graph communities c1 c2 c1Entities c2Entities [] in
  let candidates := candidatesFrom graph communities c2 c1 c2Entities c1Entities candidates in
  firstn 5 (stableSort byImpactDesc candidates).

(** [compare(a, b) = b.distance - a.distance <= 0] *)
Definition byDistanceDesc (a b : StructuralGapInfo) : bool :=
  Qle_bool (distance b) (distance a).

(** The loop [for (j = i + 1; ...)] for a fixed [c1 = clusters[i]]. *)
Definition gapsWith (graph : SimpleGraph) (communities : list (string * C))
  (clusterNodes : list (C * list string)) (minDistance : Q) (c1 : C)
  (later : list C) (gaps : list StructuralGapInfo) : list StructuralGapInfo :=
  fold_left
    (fun gaps c2 =>
       let distance := interClusterDistance graph c1 c2 communities in
       if Qltb minDistance distance
       then gaps ++ [mkGap c1 c2 distance
                           (clusterMembers clusterNodes c1)
                           (clusterMembers clusterNodes c2)
                           (findBridgeCandidates graph c1 c2 communities clusterNodes)]
       else gaps)
    later gaps.

(** The loop [for (i = 0; ...)] over the cluster ids still to visit. *)
Fixpoint allGaps (graph : SimpleGraph) (communities : list (string * C))
  (clusterNodes : list (C * list string)) (minDistance : Q)
  (clusters : list C) (gaps : list StructuralGapInfo) : list StructuralGapInfo :=
  match clusters with
  | [] => gaps
  | c1 :: later =>
      allGaps graph communities clusterNodes minDistance later
        (gapsWith graph communities clusterNodes minDistance c1 later gaps)
  end.

Definition detectStructuralGaps (graph : SimpleGraph)
  (communities : list (string * C)) (minDistance : Q) (maxGaps : nat)
  : list StructuralGapInfo :=
  let clusterNodes := getCommunitiesMap communities in
  let clusters := JsMap.keys clusterNodes in
  firstn maxGaps
    (stableSort byDistanceDesc
       (allGaps graph communities clusterNodes minDistance clusters [])).

End WithClusterIds.

Definition defaultMinDistance : Q := 3 # 10.
Definition defaultMaxGaps : nat := 5.

End Gaps.

(** ** JS string operations used by the sources *)

Module JsString.

(** [[a, b].sort()]: the default comparator orders strings by code units. *)
Definition sortPair (a b : string) : list string :=
  if String.ltb b a then [b; a] else [a; b].

(** [parts.join(sep)] *)
Fixpoint join (sep : string) (parts : list string) : string :=
  match parts with
  | [] => ""
  | [p] => p
  | p :: rest => p ++ sep ++ join sep rest
  end.

(** [s.includes(sub)] *)
Fixpoint includes (s sub : string) : bool :=
  if String.prefix sub s then true
  else match s with
       | EmptyString => false
       | String _ r => includes r sub
       end.

(** [s.split(sep)] for a non-empty separator.  The scan goes left to right;
    [skip] counts the code units of a separator found earlier that are still
    to be passed over, and [cur] is the piece read so far. *)
Fixpoint splitFrom (sep s : string) (skip : nat) (cur : string) : list string :=
  match s with
  | EmptyString => [cur]
  | String c r =>
      match skip with
      | S k => splitFrom sep r k cur
      | O =>
          if String.prefix sep s
          then cur :: splitFrom sep r (String.length sep - 1) ""
          else splitFrom sep r 0 (cur ++ String c "")
      end
  end.

Definition split (sep s : string) : list string := splitFrom sep s 0 "".

Definition between (lo hi : nat) (c : ascii) : bool :=
  let n := nat_of_ascii c in (lo <=? n)%nat && (n <=? hi)%nat.

(** [toLowerCase] on Latin-1 code units: A-Z, and the accented capitals
    U+00C0..U+00DE except the multiplication sign U+00D7. *)
Definition lowerChar (c : ascii) : ascii :=
  let n := nat_of_ascii c in
  if between 65 90 c || (between 192 222 c && negb (n =? 215)%nat)
  then ascii_of_nat (n + 32)
  else c.

Fixpoint toLowerCase (s : string) : string :=
  match s with
  | EmptyString => EmptyString
  | String c r => String (lowerChar c) (toLowerCase r)
  end.

(** The regex classes [[.!?]], [\s] and [\w] on Latin-1 code units. *)
Definition isSentencePunct (c : ascii) : bool :=
  let n := nat_of_ascii c in (n =? 46)%nat || (n =? 33)%nat || (n =? 63)%nat.

Definition isSpace (c : ascii) : bool :=
  let n := nat_of_ascii c in between 9 13 c || (n =? 32)%nat || (n =? 160)%nat.

Definition isWordChar (c : ascii) : bool :=
  let n := nat_of_ascii c in
  between 48 57 c || between 65 90 c || between 97 122 c || (n =? 95)%nat.

Fixpoint spanLength (p : ascii -> bool) (s : string) : nat :=
  match s with
  | String c r => if p c then S (spanLength p r) else O
  | EmptyString => O
  end.

Fixpoint drop (n : nat) (s : string) : string :=
  match n, s with
  | S k, String _ r => drop k r
  | _, _ => s
  end.

(** Length of the match of [/[.!?]+\s+/] at the start of [s], if any: the
    whole run of punctuation (a shorter run is followed by punctuation, not
    by white space) and the whole run of white space after it. *)
Definition delimiterLength (s : string) : option nat :=
  let np := spanLength isSentencePunct s in
  let ns := spanLength isSpace (drop np s) in
  if (0 <? np)%nat && (0 <? ns)%nat then Some (np + ns)%nat else None.

(** [s.split(/[.!?]+\s+/)], scanning like [splitFrom]. *)
Fixpoint splitSentencesFrom (s : string) (skip : nat) (cur : string) : list string :=
  match s with
  | EmptyString => [cur]
  | String c r =>
      match skip with
      | S k => splitSentencesFrom r k cur
      | O =>
          match delimiterLength s with
          | Some n => cur :: splitSentencesFrom r (n - 1) ""
          | None => splitSentencesFrom r 0 (cur ++ String c "")
          end
      end
  end.

(** An empty input yields one empty piece: the regex cannot match the empty
    string. *)
Definition splitSentences (s : string) : list string := splitSentencesFrom s 0 "".

End JsString.

(** ** Entities and mentions (types/index.js) *)

Module Types.

Inductive EntityType :=
| Person | Organization | Place | Product | Event | Concept | Technology
| CreativeWork | MedicalCondition | Drug | Unknown.

Record EntityMention := mkMention {
  startPosition : Z;
  endPosition : Z;
  text : string;
  sentenceIndex : Z
}.

Record Entity := mkEntity {
  id : string;
  name : string;
  type : EntityType;
  confidence : Q;
  relevance : Q;
  mentions : list EntityMention
}.

End Types.

(** ** graph/cooccurrence.ts *)

Module Cooccurrence.
Import Graph.

Record CooccurrenceOptions := mkOptions {
  windowSize : option Z;
  minWeight : option Q;
  normalize : option bool;
  usePositions : option bool
}.

Definition noOptions : CooccurrenceOptions := mkOptions None None None None.

Record MentionWithEntity := mkMentionWithEntity {
  entityId : string;
  entityName : string;
  startPosition : Z;
  endPosition : Z
}.

Definition flattenMentions (entities : list Types.Entity) : list MentionWithEntity :=
  flat_map
    (fun entity =>
       map (fun mention =>
              mkMentionWithEntity (Types.id entity) (Types.name entity)
                (Types.startPosition mention) (Types.endPosition mention))
           (Types.mentions entity))
    entities.

(** [[a, b].sort().join('|||')] *)
Definition edgeKey (a b : string) : string :=
  JsString.join "|||" (JsString.sortPair a b).

(** [cooccurrences.set(key, (cooccurrences.get(key) || 0) + 1)] *)
Definition increment (cooccurrences : list (string * Q)) (key : string)
  : list (string * Q) :=
  JsMap.set cooccurrences key (orElse (JsMap.get cooccurrences key) 0 + 1)%Q.

(** Character window, inner loop [for (j = i + 1; ...)] for the mention [mi]. *)
Fixpoint pairWithLater (windowChars : Z) (mi : MentionWithEntity)
  (later : list MentionWithEntity) (cooccurrences : list (string * Q))
  : list (string * Q) :=
  match later with
  | [] => cooccurrences
  | mj :: rest =>
      let distance := (startPosition mj - endPosition mi)%Z in
      if (windowChars <? distance)%Z then cooccurrences
      else if (distance <? 0)%Z then pairWithLater windowChars mi rest cooccurrences
      else if keqb (entityId mi) (entityId mj)
           then pairWithLater windowChars mi rest cooccurrences
      else pairWithLater windowChars mi rest
             (increment cooccurrences (edgeKey (entityId mi) (entityId mj)))
  end.

Fixpoint byCharWindow (windowChars : Z) (mentions : list MentionWithEntity)
  (cooccurrences : list (string * Q)) : list (string * Q) :=
  match mentions with
  | [] => cooccurrences
  | mi :: later =>
      byCharWindow windowChars later (pairWithLater windowChars mi later cooccurrences)
  end.

(** [WordWithPosition]; [wordStart] and [wordEnd] are its [startPosition] and
    [endPosition]. *)
Record WordWithPosition := mkWord {
  word : string;
  wordStart : Z;
  wordEnd : Z;
  index : nat
}.

(** [/\b\w+\b/g]: the maximal runs of word characters, left to right.  [pos]
    is the offset of [s] in the text, [cur] the run being read (started at
    [curStart]) and [nextIndex] the number of words found so far. *)
Fixpoint tokenizeFrom (s : string) (pos : Z) (cur : string) (curStart : Z)
  (nextIndex : nat) : list WordWithPosition :=
  match s with
  | EmptyString =>
      if (String.length cur =? 0)%nat then []
      else [mkWord cur curStart pos nextIndex]
  | String c r =>
      if JsString.isWordChar c
      then tokenizeFrom r (pos + 1)%Z (cur ++ String c "")
             (if (String.length cur =? 0)%nat then pos else curStart) nextIndex
      else if (String.length cur =? 0)%nat
           then tokenizeFrom r (pos + 1)%Z "" pos nextIndex
      else mkWord cur curStart pos nextIndex
             :: tokenizeFrom r (pos + 1)%Z "" pos (S nextIndex)
  end.

Definition tokenizeWithPositions (text : string) : list WordWithPosition :=
  tokenizeFrom text 0%Z "" 0%Z 0%nat.

(** [mapMentionsToWords]: the source fills a map from the mention's index to
    the index of the first word around the mention's start; here the entry
    of each mention is kept beside the mention. *)
Definition wordIndexOf (words : list WordWithPosition) (mention : MentionWithEntity)
  : option nat :=
  option_map index
    (find (fun w => (wordStart w <=? startPosition mention)%Z
                    && (startPosition mention <=? wordEnd w)%Z)
          words).

Definition mapMentionsToWords (mentions : list MentionWithEntity)
  (words : list WordWithPosition) : list (MentionWithEntity * option nat) :=
  map (fun m => (m, wordIndexOf words m)) mentions.

(** Word window, inner loop for the mention [mi] at word [wordIndex1]. *)
Definition pairWithLaterWords (windowSize : Z) (mi : MentionWithEntity)
  (wordIndex1 : nat) (later : list (MentionWithEntity * option nat))
  (cooccurrences : list (string * Q)) : list (string * Q) :=
  fold_left
    (fun cooccurrences '(mj, w2) =>
       match w2 with
       | None => cooccurrences
       | Some wordIndex2 =>
           let wordDistance := Z.abs (Z.of_nat wordIndex2 - Z.of_nat wordIndex1) in
           if (windowSize <? wordDistance)%Z then cooccurrences
           else if keqb (entityId mi) (entityId mj) then cooccurrences
           else increment cooccurrences (edgeKey (entityId mi) (entityId mj))
       end)
    later cooccurrences.

Fixpoint byWordWindow (windowSize : Z) (mentions : list (MentionWithEntity * option nat))
  (cooccurrences : list (string * Q)) : list (string * Q) :=
  match mentions with
  | [] => cooccurrences
  | (mi, w1) :: later =>
      byWordWindow windowSize later
        (match w1 with
         | None => cooccurrences
         | Some wordIndex1 => pairWithLaterWords windowSize mi wordIndex1 later cooccurrences
         end)
  end.

Definition calculateCooccurrences (mentions : list MentionWithEntity)
  (sourceText : string) (windowSize : Z) (usePositions : bool)
  : list (string * Q) :=
  if usePositions
  then byCharWindow (windowSize * 6)%Z mentions []
  else
    let words := tokenizeWithPositions sourceText in
    byWordWindow windowSize (mapMentionsToWords mentions words) [].

(** [for (const [key, weight] of cooccurrences)] with the [minWeight] filter.
    A key is built by [edgeKey], so [key.split('|||')] has at least two
    pieces; [source] and [target] are the first two. *)
Definition addEdges (minWeight : Q) (cooccurrences : list (string * Q))
  (graph : SimpleGraph) : SimpleGraph :=
  fold_left
    (fun graph '(key, weight) =>
       if Qle_bool minWeight weight
       then match JsString.split "|||" key with
            | source :: target :: _ => addEdge graph source target weight
            | _ => graph
            end
       else graph)
    cooccurrences graph.

Definition maxEdgeWeight (graph : SimpleGraph) : Q :=
  fold_left
    (fun maxWeight '(_, neighbors) =>
       fold_left (fun maxWeight '(_, weight) => Math_max maxWeight weight)
                 neighbors maxWeight)
    (edges graph) 0.

Definition normalizeWeights (graph : SimpleGraph) : SimpleGraph :=
  let maxWeight := maxEdgeWeight graph in
  if Qeq_bool maxWeight 0 then graph
  else
    mkGraph (nodes graph)
      (map (fun '(source, neighbors) =>
              (source, map (fun '(target, weight) => (target, (weight / maxWeight)%Q))
                           neighbors))
           (edges graph)).

(** [compare(a, b) = a.startPosition - b.startPosition <= 0] *)
Definition byStart (a b : MentionWithEntity) : bool :=
  (startPosition a <=? startPosition b)%Z.

Definition buildCooccurrenceGraph (entities : list Types.Entity)
  (sourceText : string) (options : CooccurrenceOptions) : SimpleGraph :=
  let windowSize := nullish (windowSize options) 5%Z in
  let minWeight := nullish (minWeight options) 2 in
  let normalize := nullish (normalize options) false in
  let usePositions := nullish (usePositions options) true in
  let mentions := stableSort byStart (flattenMentions entities) in
  let cooccurrences := calculateCooccurrences mentions sourceText windowSize usePositions in
  let graph := addEdges minWeight cooccurrences createGraph in
  if normalize then normalizeWeights graph else graph.

(** The entities with a mention inside [charOffset, sentenceEnd], each at
    most once per occurrence in [entities]. *)
Definition entitiesIn (entities : list Types.Entity) (charOffset sentenceEnd : Z)
  : list Types.Entity :=
  filter
    (fun entity =>
       existsb (fun mention =>
                  (charOffset <=? Types.startPosition mention)%Z
                  && (Types.endPosition mention <=? sentenceEnd)%Z)
               (Types.mentions entity))
    entities.

(** [for (i ...) for (j = i + 1 ...)] over the entities of one sentence. *)
Fixpoint pairAll (entitiesInSentence : list Types.Entity)
  (cooccurrences : list (string * Q)) : list (string * Q) :=
  match entitiesInSentence with
  | [] => cooccurrences
  | ei :: later =>
      pairAll later
        (fold_left
           (fun cooccurrences ej =>
              if keqb (Types.id ei) (Types.id ej) then cooccurrences
              else increment cooccurrences (edgeKey (Types.id ei) (Types.id ej)))
           later cooccurrences)
  end.

(** Body of [for (const sentence of sentences)]; the state is
    [(cooccurrences, charOffset)]. *)
Definition scanSentence (entities : list Types.Entity)
  (st : list (string * Q) * Z) (sentence : string) : list (string * Q) * Z :=
  let '(cooccurrences, charOffset) := st in
  let sentenceEnd := (charOffset + Z.of_nat (String.length sentence))%Z in
  (pairAll (entitiesIn entities charOffset sentenceEnd) cooccurrences,
   (sentenceEnd + 2)%Z).

Definition buildSentenceCooccurrenceGraph (entities : list Types.Entity)
  (sourceText : string) (options : CooccurrenceOptions) : SimpleGraph :=
  let minWeight := nullish (minWeight options) 2 in
  let sentences := JsString.splitSentences sourceText in
  let cooccurrences := fst (fold_left (scanSentence entities) sentences ([], 0%Z)) in
  addEdges minWeight cooccurrences createGraph.

End Cooccurrence.

(** ** graph/cooccurrence.ts, continued: relevance-weighted graph *)

Module WeightedCooccurrence.
Import Graph Types Cooccurrence.

(** "Create entity relevance map". *)
Definition relevanceMapOf (entities : list Entity) : list (string * Q) :=
  fold_left (fun relevanceMap entity => JsMap.set relevanceMap (id entity) (relevance entity))
            entities [].

(** [(sourceRelevance + targetRelevance) / 2], each [relevanceMap.get(..) || 0.5]. *)
Definition relevanceMultiplier (relevanceMap : list (string * Q)) (source target : string)
  : Q :=
  let sourceRelevance := orElse (JsMap.get relevanceMap source) (1 # 2) in
  let targetRelevance := orElse (JsMap.get relevanceMap target) (1 # 2) in
  ((sourceRelevance + targetRelevance) / 2)%Q.

(** "Adjust edge weights by combined relevance": every stored weight is
    replaced once, under its own key. *)
Definition weighByRelevance (relevanceMap : list (string * Q)) (graph : SimpleGraph)
  : SimpleGraph :=
  mkGraph (nodes graph)
    (map (fun '(source, neighbors) =>
            (source,
             map (fun '(target, weight) =>
                    (target, (weight * relevanceMultiplier relevanceMap source target)%Q))
                 neighbors))
         (edges graph)).

Definition buildWeightedCooccurrenceGraph (entities : list Entity) (sourceText : string)
  (options : CooccurrenceOptions) : SimpleGraph :=
  let baseGraph := buildCooccurrenceGraph entities sourceText options in
  weighByRelevance (relevanceMapOf entities) baseGraph.

End WeightedCooccurrence.

(** ** PMI/NPMI weighting ([PMICalculator]) *)

Module PMI.

Section WithLog.
(** [Math.log2] is kept abstract: every statement below holds whatever values
    it returns. *)
Variable log2 : Q -> Q.

Record EntityCounts := mkCounts {
  total : Q;
  entityCounts : list (string * Q);
  pairCounts : list (string * Q)
}.

Record PMIOptions := mkPMIOptions {
  optSmoothing : option Q;
  optMinFrequency : option Q
}.

Record PMICalculator := mkCalculator {
  smoothing : Q;
  minFrequency : Q
}.

(** [constructor(options)] *)
Definition newPMICalculator (options : PMIOptions) : PMICalculator :=
  mkCalculator (nullish (optSmoothing options) (1 # 2))
               (nullish (optMinFrequency options) 2).

(** An element of the [edges] argument of [applyToEdges]. *)
Record Edge := mkEdge {
  source : string;
  target : string;
  weight : Q
}.

(** [PMIResult]; its fields carry the prefix [res] where [Edge] has the plain
    name. *)
Record PMIResult := mkResult {
  resSource : string;
  resTarget : string;
  resWeight : Q;
  resPmi : Q;
  resNpmi : option Q;
  cooccurrenceCount : Q
}.

Record ApplyOptions := mkApplyOptions {
  useNPMI : option bool;
  combineWithFrequency : option bool;
  filterNegative : option bool
}.

(** [[a, b].sort().join('|')] *)
Definition pairKey (a b : string) : string :=
  JsString.join "|" (JsString.sortPair a b).

Definition pmi (this : PMICalculator) (entityA entityB : string)
  (counts : EntityCounts) : Q :=
  let countA := nullish (JsMap.get (entityCounts counts) entityA) 0 in
  let countB := nullish (JsMap.get (entityCounts counts) entityB) 0 in
  let countAB := nullish (JsMap.get (pairCounts counts) (pairKey entityA entityB)) 0 in
  if Qltb countAB (minFrequency this) then 0
  else
    let vocabSize := Communities.natQ (JsMap.size (entityCounts counts)) in
    let pA := ((countA + smoothing this) / (total counts + smoothing this * vocabSize))%Q in
    let pB := ((countB + smoothing this) / (total counts + smoothing this * vocabSize))%Q in
    let pAB := ((countAB + smoothing this) / (total counts + smoothing this))%Q in
    log2 (pAB / (pA * pB))%Q.

Definition npmi (this : PMICalculator) (entityA entityB : string)
  (counts : EntityCounts) : Q :=
  let pmiValue := pmi this entityA entityB counts in
  if Qeq_bool pmiValue 0 then 0
  else
    let countAB := nullish (JsMap.get (pairCounts counts) (pairKey entityA entityB)) 0 in
    let pAB := ((countAB + smoothing this) / (total counts + smoothing this))%Q in
    let denominator := (- log2 pAB)%Q in
    if Qeq_bool denominator 0 then 0
    else Math_max (-1) (Math_min 1 (pmiValue / denominator)).

(** The value [applyToEdges] computes for an edge. *)
Definition pmiValueOf (this : PMICalculator) (useNPMI : bool)
  (counts : EntityCounts) (edge : Edge) : Q :=
  if useNPMI then npmi this (source edge) (target edge) counts
  else pmi this (source edge) (target edge) counts.

(** Body of [for (const edge of edges)]. *)
Definition applyToEdge (this : PMICalculator) (counts : EntityCounts)
  (useNPMI combineWithFrequency filterNegative : bool)
  (results : list PMIResult) (edge : Edge) : list PMIResult :=
  let pmiValue := pmiValueOf this useNPMI counts edge in
  if filterNegative && Qltb pmiValue 0 then results
  else
    let cooccurrenceCount :=
      nullish
        (JsMap.get (pairCounts counts) (pairKey (source edge) (target edge))) 0 in
    let finalWeight :=
      if combineWithFrequency
      then (weight edge * (1 + Math_max 0 pmiValue))%Q
      else Math_max 0 pmiValue in
    results ++ [mkResult (source edge) (target edge) finalWeight pmiValue
                         (if useNPMI then Some pmiValue else None)
                         cooccurrenceCount].

Definition applyToEdges (this : PMICalculator) (edges : list Edge)
  (counts : EntityCounts) (options : ApplyOptions) : list PMIResult :=
  let useNPMI := nullish (useNPMI options) true in
  let combineWithFrequency := nullish (combineWithFrequency options) true in
  let filterNegative := nullish (filterNegative options) true in
  fold_left (applyToEdge this counts useNPMI combineWithFrequency filterNegative)
            edges [].

End WithLog.

End PMI.

(** ** PMI weighting, continued: [buildCounts] *)

Module PMICounts.
Import PMI.

(** [counts.set(key, (counts.get(key) ?? 0) + 1)] *)
Definition increment (counts : list (string * Q)) (key : string) : list (string * Q) :=
  JsMap.set counts key (nullish (JsMap.get counts key) 0 + 1)%Q.

(** The loop [for (j = i + 1; ...)] for a fixed [uniqueEntities[i]]. *)
Definition countPairsWith (a : string) (later : list string)
  (pairCounts : list (string * Q)) : list (string * Q) :=
  fold_left (fun pairCounts b => increment pairCounts (pairKey a b)) later pairCounts.

(** The loop [for (i = 0; ...)] over the entities still to visit. *)
Fixpoint countPairs (uniqueEntities : list string) (pairCounts : list (string * Q))
  : list (string * Q) :=
  match uniqueEntities with
  | [] => pairCounts
  | a :: later => countPairs later (countPairsWith a later pairCounts)
  end.

(** Body of [for (const { entities } of cooccurrences)]. *)
Definition countWindow (acc : list (string * Q) * list (string * Q))
  (entities : list string) : list (string * Q) * list (string * Q) :=
  let '(entityCounts, pairCounts) := acc in
  let uniqueEntities := JsSet.ofList entities in
  (fold_left increment uniqueEntities entityCounts,
   countPairs uniqueEntities pairCounts).

(** A [CooccurrenceWindow] is its [entities] array. *)
Definition buildCounts (cooccurrences : list (list string)) : EntityCounts :=
  let total := Communities.natQ (List.length cooccurrences) in
  let '(entityCounts, pairCounts) := fold_left countWindow cooccurrences ([], []) in
  mkCounts total entityCounts pairCounts.

End PMICounts.

(** ** Provenance types (types/provenance.js) and extraction/ensemble.ts *)

Module Ensemble.
Import Types.

Inductive ExtractorSource := src_textrazor | src_nuextract | src_ensemble.

(** [Provenance]; [provConfidence] is its [confidence]. *)
Record Provenance := mkProvenance {
  sourceUrl : string;
  blockId : string;
  headingPath : list string;
  charStart : option Z;
  charEnd : option Z;
  evidence : string;
  extractor : ExtractorSource;
  provConfidence : Q;
  extractedAt : string
}.

Record Extractors := mkExtractors {
  textrazor : bool;
  nuextract : bool
}.

(** [EntityWithProvenance extends Entity]: the inherited fields are [base]. *)
Record EntityWithProvenance := mkEWP {
  base : Entity;
  provenance : Provenance;
  extractors : Extractors
}.

Inductive AgreementLevel := both | textrazor_only | nuextract_only.

(** [EnsembleEntity extends EntityWithProvenance] *)
Record EnsembleEntity := mkEnsembleEntity {
  entity : EntityWithProvenance;
  ensembleConfidence : Q;
  agreementLevel : AgreementLevel
}.

Record EnsembleStats := mkStats {
  textrazorCount : nat;
  nuextractCount : nat;
  mergedCount : nat;
  bothAgreed : nat;
  textrazorOnly : nat;
  nuextractOnly : nat
}.

Record EnsembleOptions := mkEnsembleOptions {
  optNameMatchThreshold : option Q;
  optAgreementBoost : option Q;
  optTextrazorPenalty : option Q;
  optNuextractPenalty : option Q
}.

Record EnsembleAggregator := mkAggregator {
  nameMatchThreshold : Q;
  agreementBoost : Q;
  textrazorPenalty : Q;
  nuextractPenalty : Q
}.

(** [constructor(options)] *)
Definition newEnsembleAggregator (options : EnsembleOptions) : EnsembleAggregator :=
  mkAggregator (nullish (optNameMatchThreshold options) (85 # 100))
               (nullish (optAgreementBoost options) (12 # 10))
               (nullish (optTextrazorPenalty options) (9 # 10))
               (nullish (optNuextractPenalty options) (85 # 100)).

Definition noEnsembleOptions : EnsembleOptions := mkEnsembleOptions None None None None.

Definition EntityType_eqb (a b : EntityType) : bool :=
  match a, b with
  | Person, Person | Organization, Organization | Place, Place
  | Product, Product | Event, Event | Concept, Concept
  | Technology, Technology | CreativeWork, CreativeWork
  | MedicalCondition, MedicalCondition | Drug, Drug | Unknown, Unknown => true
  | _, _ => false
  end.

(** [typeGroups[t] || [t]]: MedicalCondition and Drug have no entry. *)
Definition typeGroup (t : EntityType) : list EntityType :=
  match t with
  | Person => [Person]
  | Organization => [Organization]
  | Place => [Place]
  | Product => [Product]
  | Event => [Event]
  | Technology => [Technology; Concept]
  | Concept => [Concept; Technology]
  | CreativeWork => [CreativeWork]
  | Unknown => [Unknown; Concept]
  | MedicalCondition => [MedicalCondition]
  | Drug => [Drug]
  end.

Definition typesCompatible (type1 type2 : EntityType) : bool :=
  if EntityType_eqb type1 type2 then true
  else
    let group1 := typeGroup type1 in
    let group2 := typeGroup type2 in
    existsb (fun t => existsb (EntityType_eqb t) group2) group1.

(** One row [dp[i]] of the edit-distance table from the row [dp[i-1]]
    ([prev], whose first cell is [diag]); [left] is [dp[i][j-1]], [c] is
    [s1[i-1]] and [s2] the part of the second string still to visit. *)
Fixpoint levenshteinRow (c : ascii) (s2 : string) (diag : nat) (prev : list nat)
  (left : nat) : list nat :=
  match s2, prev with
  | String d r, up :: prev' =>
      let cell :=
        if Ascii.eqb c d then diag
        else S (Nat.min (Nat.min up left) diag) in
      cell :: levenshteinRow c r up prev' cell
  | _, _ => []
  end.

(** The rows [dp[1..m]]; [i] is the index of the row [prev]. *)
Fixpoint levenshteinRows (s1 s2 : string) (i : nat) (prev : list nat) : list nat :=
  match s1 with
  | EmptyString => prev
  | String c r =>
      let row := S i :: levenshteinRow c s2 i (tl prev) (S i) in
      levenshteinRows r s2 (S i) row
  end.

Definition levenshteinDistance (s1 s2 : string) : nat :=
  last (levenshteinRows s1 s2 0 (seq 0 (S (String.length s2)))) 0%nat.

Definition stringSimilarity (s1 s2 : string) : Q :=
  let longer := if (String.length s2 <? String.length s1)%nat then s1 else s2 in
  let shorter := if (String.length s2 <? String.length s1)%nat then s2 else s1 in
  if (String.length longer =? 0)%nat then 1
  else
    let editDistance := levenshteinDistance longer shorter in
    ((Communities.natQ (String.length longer) - Communities.natQ editDistance)
     / Communities.natQ (String.length longer))%Q.

(** The three rules of [findMatch] for one candidate, on the lower-cased
    names. *)
Definition exactMatch (targetName candidateName : string) : bool :=
  String.eqb targetName candidateName.

Definition fuzzyMatch (this : EnsembleAggregator) (target candidate : EntityWithProvenance)
  (targetName candidateName : string) : bool :=
  Qle_bool (nameMatchThreshold this) (stringSimilarity targetName candidateName)
  && typesCompatible (type (base target)) (type (base candidate)).

Definition containmentMatch (target candidate : EntityWithProvenance)
  (targetName candidateName : string) : bool :=
  (((3 <? String.length targetName)%nat && JsString.includes candidateName targetName)
   || ((3 <? String.length candidateName)%nat && JsString.includes targetName candidateName))
  && typesCompatible (type (base target)) (type (base candidate)).

(** Whether the body of [for (const candidate of candidates)] returns
    [candidate]. *)
Definition matches (this : EnsembleAggregator) (target candidate : EntityWithProvenance)
  : bool :=
  let targetName := JsString.toLowerCase (name (base target)) in
  let candidateName := JsString.toLowerCase (name (base candidate)) in
  if exactMatch targetName candidateName then true
  else if fuzzyMatch this target candidate targetName candidateName then true
  else containmentMatch target candidate targetName candidateName.

Fixpoint findMatch (this : EnsembleAggregator) (target : EntityWithProvenance)
  (candidates : list EntityWithProvenance) : option EntityWithProvenance :=
  match candidates with
  | [] => None
  | candidate :: rest =>
      if matches this target candidate then Some candidate
      else findMatch this target rest
  end.

Definition withConfidence (e : Entity) (c : Q) (ms : list EntityMention) : Entity :=
  mkEntity (id e) (name e) (type e) c (relevance e) ms.

Definition withExtractor (p : Provenance) (x : ExtractorSource) (c : Q) : Provenance :=
  mkProvenance (sourceUrl p) (blockId p) (headingPath p) (charStart p) (charEnd p)
               (evidence p) x c (extractedAt p).

(** A mention's [startPosition] is a number, so the test
    [m.startPosition === undefined] of the source never holds. *)
Definition createEnsembleEntity (this : EnsembleAggregator)
  (textRazor nuExtract : EntityWithProvenance) : EnsembleEntity :=
  let existingPositions := JsSet.ofList (map Types.startPosition (mentions (base textRazor))) in
  let allMentions :=
    mentions (base textRazor)
    ++ filter (fun m => negb (JsSet.has existingPositions (Types.startPosition m)))
              (mentions (base nuExtract)) in
  let baseConfidence :=
    Math_max (confidence (base textRazor)) (confidence (base nuExtract)) in
  let ensembleConfidence := Math_min 1 (baseConfidence * agreementBoost this)%Q in
  mkEnsembleEntity
    (mkEWP (withConfidence (base textRazor) ensembleConfidence allMentions)
           (withExtractor (provenance textRazor) src_ensemble ensembleConfidence)
           (mkExtractors true true))
    ensembleConfidence both.

Definition createSingleSourceEntity (this : EnsembleAggregator)
  (e : EntityWithProvenance) (source : ExtractorSource) : EnsembleEntity :=
  let isTextrazor := match source with src_textrazor => true | _ => false end in
  let isNuextract := match source with src_nuextract => true | _ => false end in
  let confidenceMultiplier :=
    if isTextrazor then textrazorPenalty this else nuextractPenalty this in
  let ensembleConfidence := (confidence (base e) * confidenceMultiplier)%Q in
  mkEnsembleEntity
    (mkEWP (withConfidence (base e) ensembleConfidence (mentions (base e)))
           (withExtractor (provenance e) source ensembleConfidence)
           (mkExtractors isTextrazor isNuextract))
    ensembleConfidence
    (if isTextrazor then textrazor_only else nuextract_only).

(** Body of the first loop of [merge]; the state is [(result, matched)]. *)
Definition mergeTextRazor (this : EnsembleAggregator)
  (nuExtractEntities : list EntityWithProvenance)
  (st : list EnsembleEntity * list string) (trEntity : EntityWithProvenance)
  : list EnsembleEntity * list string :=
  let '(result, matched) := st in
  match findMatch this trEntity nuExtractEntities with
  | Some nuMatch =>
      (result ++ [createEnsembleEntity this trEntity nuMatch],
       JsSet.add matched (id (base nuMatch)))
  | None =>
      (result ++ [createSingleSourceEntity this trEntity src_textrazor], matched)
  end.

(** Body of the second loop of [merge]. *)
Definition addUnmatched (this : EnsembleAggregator) (matched : list string)
  (result : list EnsembleEntity) (nuEntity : EntityWithProvenance)
  : list EnsembleEntity :=
  if negb (JsSet.has matched (id (base nuEntity)))
  then result ++ [createSingleSourceEntity this nuEntity src_nuextract]
  else result.

Definition AgreementLevel_eqb (a b : AgreementLevel) : bool :=
  match a, b with
  | both, both | textrazor_only, textrazor_only | nuextract_only, nuextract_only => true
  | _, _ => false
  end.

Definition countLevel (level : AgreementLevel) (result : list EnsembleEntity) : nat :=
  List.length (filter (fun e => AgreementLevel_eqb (agreementLevel e) level) result).

Definition merge (this : EnsembleAggregator)
  (textRazorEntities nuExtractEntities : list EntityWithProvenance)
  : list EnsembleEntity * EnsembleStats :=
  let '(result, matched) :=
    fold_left (mergeTextRazor this nuExtractEntities) textRazorEntities ([], []) in
  let result := fold_left (addUnmatched this matched) nuExtractEntities result in
  (result,
   mkStats (List.length textRazorEntities) (List.length nuExtractEntities)
           (List.length result)
           (countLevel both result) (countLevel textrazor_only result)
           (countLevel nuextract_only result)).

End Ensemble.

(** ** extraction/ensemble.ts: relation merging and filtering helpers *)

Module Relations.
Import Types Ensemble.

Inductive Polarity := positive | negative | neutral.
Inductive Modality := asserted | hypothetical | recommendation.

Record RelationEvidence := mkEvidence {
  evText : string;
  evSourceUrl : string;
  evBlockId : string;
  evHeadingPath : list string
}.

(** [TripleWithEvidence]; the fields [evidence], [confidence] and [extractor]
    carry the prefix [rel]. *)
Record TripleWithEvidence := mkTriple {
  subject : string;
  predicate : string;
  object : string;
  relEvidence : RelationEvidence;
  polarity : Polarity;
  modality : Modality;
  relConfidence : Q;
  relExtractor : ExtractorSource
}.

(** [EnsembleRelation extends TripleWithEvidence]: the inherited fields are
    [triple]. *)
Record EnsembleRelation := mkEnsembleRelation {
  triple : TripleWithEvidence;
  agreementCount : nat;
  sources : list ExtractorSource
}.

(** [`${rel.subject.toLowerCase()}|${rel.predicate}|${rel.object.toLowerCase()}`] *)
Definition relationKey (rel : TripleWithEvidence) : string :=
  (JsString.toLowerCase (subject rel) ++ "|" ++ predicate rel ++ "|"
   ++ JsString.toLowerCase (object rel))%string.

(** The updates of the [existing] record, which stays at its place in the
    map. *)
Definition agree (existing : EnsembleRelation) (rel : TripleWithEvidence)
  : EnsembleRelation :=
  let t := triple existing in
  let confidence := Math_min 1 (relConfidence t * (11 # 10))%Q in
  let evidence :=
    if (String.length (evText (relEvidence t))
        <? String.length (evText (relEvidence rel)))%nat
    then relEvidence rel else relEvidence t in
  mkEnsembleRelation
    (mkTriple (subject t) (predicate t) (object t) evidence (polarity t) (modality t)
              confidence (relExtractor t))
    (S (agreementCount existing))
    (sources existing ++ [relExtractor rel]).

(** Body of [for (const rel of relations)]; [relationMap.has(key)] holds
    exactly when [relationMap.get(key)] is a record. *)
Definition mergeRelation (relationMap : list (string * EnsembleRelation))
  (rel : TripleWithEvidence) : list (string * EnsembleRelation) :=
  let key := relationKey rel in
  match JsMap.get relationMap key with
  | Some existing => JsMap.set relationMap key (agree existing rel)
  | None => JsMap.set relationMap key (mkEnsembleRelation rel 1 [relExtractor rel])
  end.

Definition mergeRelations (relationSets : list (list TripleWithEvidence))
  : list EnsembleRelation :=
  JsMap.values
    (fold_left (fun relationMap relations => fold_left mergeRelation relations relationMap)
               relationSets []).

(** A JS number as the two filters below compare it: [>=] and [<] are
    separate comparisons, and both are false when an operand is NaN. *)
Inductive JsNumber := Finite (q : Q) | PosInfinity | NegInfinity | NaN.

(** [a >= b] *)
Definition ge (a b : JsNumber) : bool :=
  match a, b with
  | NaN, _ | _, NaN => false
  | PosInfinity, _ => true
  | _, NegInfinity => true
  | Finite x, Finite y => Qle_bool y x
  | Finite _, PosInfinity => false
  | NegInfinity, _ => false
  end.

(** [a < b] *)
Definition lt (a b : JsNumber) : bool :=
  match a, b with
  | NaN, _ | _, NaN => false
  | PosInfinity, _ => false
  | _, NegInfinity => false
  | Finite x, Finite y => Qltb x y
  | Finite _, PosInfinity => true
  | NegInfinity, _ => true
  end.

Section Filters.
(** The two filters read the fields [agreementLevel] and [ensembleConfidence]
    of an entity and nothing else; the fields are parameters here, so that
    the confidence can be any JS number, NaN included.  At an
    [Ensemble.EnsembleEntity], whose confidence is a rational, they are
    [agreementLevel] and [fun e => Finite (ensembleConfidence e)]. *)
Context {E : Type} (agreementLevelOf : E -> AgreementLevel)
        (ensembleConfidenceOf : E -> JsNumber).

Definition filterHighConfidence (entities : list E) (minConfidence : JsNumber)
  : list E :=
  filter (fun e => AgreementLevel_eqb (agreementLevelOf e) both
                   || ge (ensembleConfidenceOf e) minConfidence)
         entities.

Definition getEntitiesNeedingReview (entities : list E)
  (confidenceThreshold : JsNumber) : list E :=
  filter (fun e => negb (AgreementLevel_eqb (agreementLevelOf e) both)
                   && lt (ensembleConfidenceOf e) confidenceThreshold)
         entities.

End Filters.

(** The default of [minConfidence] and of [confidenceThreshold]. *)
Definition defaultConfidenceThreshold : JsNumber := Finite (75 # 100).

End Relations.

(** ** The graph store, continued: counts, density, total weight, clone *)

Module GraphMeasures.
Import Graph.

Definition getNodeCount (graph : SimpleGraph) : nat := JsSet.size (nodes graph).

(** The sum of the adjacency sizes, before the division by 2. *)
Definition adjacencyEntries (graph : SimpleGraph) : nat :=
  fold_left (fun count '(_, neighbors) => (count + JsMap.size neighbors)%nat)
            (edges graph) 0%nat.

Definition getEdgeCount (graph : SimpleGraph) : Q :=
  Communities.natQ (adjacencyEntries graph) / 2.

Definition getGraphDensity (graph : SimpleGraph) : Q :=
  let n := JsSet.size (nodes graph) in
  if (n <? 2)%nat then 0
  else
    let maxEdges := (Communities.natQ n * (Communities.natQ n - 1) / 2)%Q in
    (getEdgeCount graph / maxEdges)%Q.

(** [source < target] on strings compares code units. *)
Definition getTotalWeight (graph : SimpleGraph) : Q :=
  fold_left
    (fun total '(source, neighbors) =>
       fold_left
         (fun total '(target, weight) =>
            if String.ltb source target then (total + weight)%Q else total)
         neighbors total)
    (edges graph) 0.

(** [newGraph.edges.get(source)!.set(target, weight)]: a [TypeError] ([None])
    when [source] has no adjacency map. *)
Definition setDirected (graph : SimpleGraph) (source target : string) (weight : Q)
  : option SimpleGraph :=
  match JsMap.get (edges graph) source with
  | Some neighbors =>
      Some (mkGraph (nodes graph)
                    (JsMap.set (edges graph) source (JsMap.set neighbors target weight)))
  | None => None
  end.

(** Body of [for (const [target, weight] of neighbors)] in [cloneGraph]. *)
Definition copyEdge (source : string) (acc : option SimpleGraph)
  (entry : string * Q) : option SimpleGraph :=
  let '(target, weight) := entry in
  match acc with
  | None => None
  | Some newGraph =>
      if String.ltb source target
      then match setDirected newGraph source target weight with
           | Some g1 => setDirected g1 target source weight
           | None => None
           end
      else Some newGraph
  end.

Definition cloneGraph (graph : SimpleGraph) : option SimpleGraph :=
  let newGraph := fold_left addNode (nodes graph) createGraph in
  fold_left
    (fun acc '(source, neighbors) => fold_left (copyEdge source) neighbors acc)
    (edges graph) (Some newGraph).

End GraphMeasures.

(** ** graph/centrality.ts, continued *)

Module CentralityMeasures.
Import Graph.

Definition degreeCentrality (graph : SimpleGraph) : list (string * Q) :=
  let n := JsSet.size (nodes graph) in
  let maxDegree := (Z.of_nat n - 1)%Z in
  fold_left
    (fun dc node =>
       let degree := getDegree graph node in
       JsMap.set dc node
         (if (0 <? maxDegree)%Z
          then (Communities.natQ degree / inject_Z maxDegree)%Q
          else 0))
    (nodes graph) [].

(** The state of [bfsDistances]: the two collections and the queue of
    [{ node, distance }] records. *)
Record DistanceState := mkDistanceState {
  distances : list (string * Z);
  visited : list string;
  queue : list (string * Z)
}.

(** Body of [for (const neighbor of getNeighbors(graph, node))]. *)
Definition visitForDistance (distance : Z) (st : DistanceState) (neighbor : string)
  : DistanceState :=
  if negb (JsSet.has (visited st) neighbor)
  then mkDistanceState (JsMap.set (distances st) neighbor (distance + 1)%Z)
                       (JsSet.add (visited st) neighbor)
                       (queue st ++ [(neighbor, (distance + 1)%Z)])
  else st.

(** [while (queue.length > 0)], one unit of fuel per dequeued record. *)
Fixpoint distanceLoop (fuel : nat) (graph : SimpleGraph) (st : DistanceState)
  : option DistanceState :=
  match queue st with
  | [] => Some st
  | (node, distance) :: rest =>
      match fuel with
      | O => None
      | S fuel' =>
          distanceLoop fuel' graph
            (fold_left (visitForDistance distance) (getNeighbors graph node)
                       (mkDistanceState (distances st) (visited st) rest))
      end
  end.

Definition bfsDistances (graph : SimpleGraph) (source : string)
  : option (list (string * Z)) :=
  option_map distances
    (distanceLoop (Centrality.bfsFuel graph) graph
       (mkDistanceState [(source, 0%Z)] [source] [(source, 0%Z)])).

Definition sumZ (l : list Z) : Z := fold_left Z.add l 0%Z.

(** The score [closenessCentrality] stores for a node, from its distances. *)
Definition closenessOf (n : nat) (dist : list (string * Z)) : Q :=
  let reachableDistances := filter (fun d => (0 <? d)%Z) (JsMap.values dist) in
  let totalDistance := sumZ reachableDistances in
  let reachable := List.length reachableDistances in
  if (0 <? reachable)%nat && (0 <? totalDistance)%Z
  then ((Communities.natQ reachable / inject_Z (Z.of_nat n - 1))
        * (Communities.natQ reachable / inject_Z totalDistance))%Q
  else 0.

Definition closenessCentrality (graph : SimpleGraph) : option (list (string * Q)) :=
  let n := JsSet.size (nodes graph) in
  fold_left
    (fun acc node =>
       match acc with
       | None => None
       | Some cc =>
           match bfsDistances graph node with
           | None => None
           | Some dist => Some (JsMap.set cc node (closenessOf n dist))
           end
       end)
    (nodes graph) (Some []).

Definition diversivity (bc : list (string * Q)) (graph : SimpleGraph)
  : list (string * Q) :=
  fold_left
    (fun div node =>
       let bcValue := orElse (JsMap.get bc node) 0 in
       let degree := getDegree graph node in
       JsMap.set div node
         (if (0 <? degree)%nat then (bcValue / Communities.natQ degree)%Q else 0))
    (nodes graph) [].

Record CentralityMetrics := mkMetrics {
  betweenness : list (string * Q);
  degree : list (string * Q);
  closeness : list (string * Q);
  metricDiversivity : list (string * Q)
}.

Definition computeAllCentralities (graph : SimpleGraph) : option CentralityMetrics :=
  match Centrality.betweennessCentrality graph, closenessCentrality graph with
  | Some bc, Some cc =>
      Some (mkMetrics bc (degreeCentrality graph) cc (diversivity bc graph))
  | _, _ => None
  end.

(** [compare(a, b) = b[1] - a[1] <= 0] *)
Definition byValueDesc (a b : string * Q) : bool := Qle_bool (snd b) (snd a).

Definition getTopNodesByCentrality (centrality : list (string * Q)) (n : nat)
  : list (string * Q) :=
  firstn n (stableSort byValueDesc centrality).

End CentralityMeasures.

(** ** graph/communities.ts, continued *)

Module CommunityMeasures.
Import Graph Communities.
Section WithClusterIds.
Context {C : Type} `{EqKey C}.

(** [Array.from(neighbors.values()).reduce((a, b) => a + b, 0)] *)
Definition weightedDegree (neighbors : list (string * Q)) : Q :=
  fold_left Qplus (JsMap.values neighbors) 0.

(** The first pair of loops of [modularity]. *)
Definition totalEdgeWeight (graph : SimpleGraph) : Q :=
  fold_left
    (fun totalWeight '(source, neighbors) =>
       fold_left
         (fun totalWeight '(target, weight) =>
            if String.ltb source target then (totalWeight + weight)%Q else totalWeight)
         neighbors totalWeight)
    (edges graph) 0.

(** Body of the inner loop of the second pair of loops. *)
Definition addModularityTerm (graph : SimpleGraph) (communities : list (string * C))
  (totalWeight : Q) (source : string) (sourceDegree : Q) (q : Q)
  (entry : string * Q) : Q :=
  let '(target, weight) := entry in
  if String.ltb source target
  then
    let sourceCommunity := JsMap.get communities source in
    let targetCommunity := JsMap.get communities target in
    let targetDegree :=
      match JsMap.get (edges graph) target with
      | Some targetNeighbors => weightedDegree targetNeighbors
      | None => 0
      end in
    if option_eqb sourceCommunity targetCommunity
    then (q + (weight - (sourceDegree * targetDegree) / (2 * totalWeight)))%Q
    else q
  else q.

Definition modularity (graph : SimpleGraph) (communities : list (string * C)) : Q :=
  let totalWeight := totalEdgeWeight graph in
  if Qeq_bool totalWeight 0 then 0
  else
    let q :=
      fold_left
        (fun q '(source, neighbors) =>
           fold_left
             (addModularityTerm graph communities totalWeight source
                                (weightedDegree neighbors))
             neighbors q)
        (edges graph) 0 in
    (q / totalWeight)%Q.

Definition getCommunityCount (communities : list (string * C)) : nat :=
  JsSet.size (JsSet.ofList (JsMap.values communities)).

(** [name || n] on strings: the empty string is falsy. *)
Definition nameOrId (name : option string) (n : string) : string :=
  match name with
  | Some s => if (s =? "")%string then n else s
  | None => n
  end.

(** [compare(a, b) = (centrality.get(b) || 0) - (centrality.get(a) || 0) <= 0] *)
Definition byCentralityDesc (centrality : list (string * Q)) (a b : string) : bool :=
  Qle_bool (orElse (JsMap.get centrality b) 0) (orElse (JsMap.get centrality a) 0).

Definition labelCommunities (communities : list (string * C))
  (nodeNames : list (string * string)) (centrality : list (string * Q))
  : list (C * string) :=
  let communitiesMap := getCommunitiesMap communities in
  fold_left
    (fun labels '(communityId, nodes) =>
       let sortedNodes := stableSort (byCentralityDesc centrality) nodes in
       let topNames :=
         map (fun n => nameOrId (JsMap.get nodeNames n) n) (firstn 3 sortedNodes) in
       JsMap.set labels communityId (JsString.join ", " topNames))
    communitiesMap [].

End WithClusterIds.
End CommunityMeasures.

(** ** Structured proximity: [calculateProximityEdges] *)

Module Proximity.

(** [ProximityWeights]; its fields carry the prefix [w] where
    [ProximityTiers] has the plain name. *)
Record ProximityWeights := mkWeights {
  wSentence : Q;
  wParagraph : Q;
  wSection : Q;
  wPage : Q
}.

Definition DEFAULT_WEIGHTS : ProximityWeights := mkWeights 1 (6 # 10) (3 # 10) (1 # 10).
Definition STRICT_WEIGHTS : ProximityWeights := mkWeights 1 (4 # 10) (1 # 10) 0.
Definition LOOSE_WEIGHTS : ProximityWeights := mkWeights 1 (8 # 10) (5 # 10) (2 # 10).

Record EntityLocation := mkLocation {
  entityId : string;
  blockId : string;
  blockType : string;
  headingPath : list string;
  sentenceIndex : nat;
  paragraphIndex : nat;
  text : string;
  context : string
}.

Record ProximityTiers := mkTiers {
  sentence : nat;
  paragraph : nat;
  section : nat;
  page : nat
}.

(** [EdgeEvidence]; its fields carry the prefix [ev]. *)
Record EdgeEvidence := mkEdgeEvidence {
  evText : string;
  evSourceUrl : string;
  evBlockId : string;
  evHeadingPath : list string
}.

Record ProximityEdge := mkProximityEdge {
  source : string;
  target : string;
  weight : Q;
  tiers : ProximityTiers;
  evidence : list EdgeEvidence
}.

Record StructuredProximityBuilder := mkBuilder {
  weights : ProximityWeights
}.

Definition sameSection (path1 path2 : list string) : bool :=
  match path1, path2 with
  | [], _ => false
  | _, [] => false
  | h1 :: _, h2 :: _ => String.eqb h1 h2
  end.

(** [sourceUrl || ''] *)
Definition urlOrEmpty (sourceUrl : option string) : string :=
  match sourceUrl with Some s => s | None => "" end.

(** Body of [for (const loc2 of locs2)]; the state is [(tiers, evidence)]. *)
Definition compareLocations (includePageLevel : bool) (sourceUrl : option string)
  (loc1 : EntityLocation) (st : ProximityTiers * list EdgeEvidence)
  (loc2 : EntityLocation) : ProximityTiers * list EdgeEvidence :=
  let '(t, ev) := st in
  if String.eqb (blockId loc1) (blockId loc2)
     && (sentenceIndex loc1 =? sentenceIndex loc2)%nat
  then
    (mkTiers (S (sentence t)) (paragraph t) (section t) (page t),
     ev ++ [mkEdgeEvidence (context loc1) (urlOrEmpty sourceUrl)
                           (blockId loc1) (headingPath loc1)])
  else if String.eqb (blockId loc1) (blockId loc2)
  then
    (mkTiers (sentence t) (S (paragraph t)) (section t) (page t),
     if (List.length ev <? 5)%nat
     then ev ++ [mkEdgeEvidence (text loc1 ++ " ... " ++ text loc2)
                                (urlOrEmpty sourceUrl)
                                (blockId loc1) (headingPath loc1)]
     else ev)
  else if sameSection (headingPath loc1) (headingPath loc2)
  then (mkTiers (sentence t) (paragraph t) (S (section t)) (page t), ev)
  else if includePageLevel
  then (mkTiers (sentence t) (paragraph t) (section t) (S (page t)), ev)
  else (t, ev).

(** The two loops over the location pairs of two entities. *)
Definition comparePair (includePageLevel : bool) (sourceUrl : option string)
  (locs1 locs2 : list EntityLocation) : ProximityTiers * list EdgeEvidence :=
  fold_left
    (fun st loc1 => fold_left (compareLocations includePageLevel sourceUrl loc1) locs2 st)
    locs1 (mkTiers 0 0 0 0, []).

Definition tierWeight (this : StructuredProximityBuilder) (t : ProximityTiers) : Q :=
  (Communities.natQ (sentence t) * wSentence (weights this)
   + Communities.natQ (paragraph t) * wParagraph (weights this)
   + Communities.natQ (section t) * wSection (weights this)
   + Communities.natQ (page t) * wPage (weights this))%Q.

(** "Group locations by entity". *)
Definition groupLocations (locations : list EntityLocation)
  : list (string * list EntityLocation) :=
  fold_left
    (fun entityLocations loc =>
       let m1 :=
         if JsMap.has entityLocations (entityId loc) then entityLocations
         else JsMap.set entityLocations (entityId loc) [] in
       match JsMap.get m1 (entityId loc) with
       | Some locs => JsMap.set m1 (entityId loc) (locs ++ [loc])
       | None => m1
       end)
    locations [].

(** [entityLocations.get(entity)!]: the ids come from the keys of the map,
    so a list is always there. *)
Definition locationsOf (entityLocations : list (string * list EntityLocation))
  (entity : string) : list EntityLocation :=
  match JsMap.get entityLocations entity with Some locs => locs | None => [] end.

(** The edge of a pair of entities, before the test [weight > 0]. *)
Definition pairEdge (this : StructuredProximityBuilder)
  (entityLocations : list (string * list EntityLocation))
  (includePageLevel : bool) (sourceUrl : option string) (entity1 entity2 : string)
  : ProximityEdge :=
  let locs1 := locationsOf entityLocations entity1 in
  let locs2 := locationsOf entityLocations entity2 in
  let '(tiers, evidence) := comparePair includePageLevel sourceUrl locs1 locs2 in
  let weight := tierWeight this tiers in
  mkProximityEdge entity1 entity2 weight tiers evidence.

(** The loop [for (j = i + 1; ...)] for a fixed [entity1 = entityIds[i]]. *)
Definition edgesWith (this : StructuredProximityBuilder)
  (entityLocations : list (string * list EntityLocation))
  (includePageLevel : bool) (sourceUrl : option string) (entity1 : string)
  (later : list string) (edgeMap : list (string * ProximityEdge))
  : list (string * ProximityEdge) :=
  fold_left
    (fun edgeMap entity2 =>
       let edge :=
         pairEdge this entityLocations includePageLevel sourceUrl entity1 entity2 in
       if Qltb 0 (weight edge)
       then JsMap.set edgeMap
                      (JsString.join "|" (JsString.sortPair entity1 entity2)) edge
       else edgeMap)
    later edgeMap.

(** The loop [for (i = 0; ...)] over the entity ids still to visit. *)
Fixpoint allEdges (this : StructuredProximityBuilder)
  (entityLocations : list (string * list EntityLocation))
  (includePageLevel : bool) (sourceUrl : option string)
  (entityIds : list string) (edgeMap : list (string * ProximityEdge))
  : list (string * ProximityEdge) :=
  match entityIds with
  | [] => edgeMap
  | entity1 :: later =>
      allEdges this entityLocations includePageLevel sourceUrl later
        (edgesWith this entityLocations includePageLevel sourceUrl entity1 later edgeMap)
  end.

Definition calculateProximityEdges (this : StructuredProximityBuilder)
  (locations : list EntityLocation) (includePageLevel : bool)
  (sourceUrl : option string) : list ProximityEdge :=
  let entityLocations := groupLocations locations in
  let entityIds := JsMap.keys entityLocations in
  JsMap.values
    (allEdges this entityLocations includePageLevel sourceUrl entityIds []).

(** Step 3 of [buildGraph] and of [buildGraphWithProvenance]. *)
Definition filterByMinWeight (minWeight : Q) (proximityEdges : list ProximityEdge)
  : list ProximityEdge :=
  filter (fun e => Qle_bool minWeight (weight e)) proximityEdges.

End Proximity.

(** ** graph/gaps.ts: the overall gap score *)

Module GapMeasures.
Import Graph Gaps.
Section WithClusterIds.
Context {C : Type} `{EqKey C}.


End WithClusterIds.
End GapMeasures.

(** * Specification-level definitions

    Definitions that word a property rather than embed a source function:
    the quantities the statements below compare the code with, and the
    concrete inputs they are evaluated on. *)

Section ClusteringSpec.
Import Graph Communities.

Fixpoint sumQ (l : list Q) : Q :=
  match l with
  | [] => 0
  | x :: r => x + sumQ r
  end.

(** The local clustering coefficient of a node: edges among its neighbours
    divided by the number of neighbour pairs. *)
Definition localCoefficient (g : SimpleGraph) (node : string) : Q :=
  let k := natQ (getDegree g node) in
  natQ (countTriangles g (getNeighbors g node)) / (k * (k - 1) / 2).

(** The nodes with degree at least 2. *)
Definition qualifyingNodes (g : SimpleGraph) : list string :=
  filter (fun node => (2 <=? getDegree g node)%nat) (nodes g).

(** The average as the specification words it: the mean over the qualifying
    nodes only. *)
Definition meanOverQualifying (g : SimpleGraph) : Q :=
  sumQ (map (localCoefficient g) (qualifyingNodes g))
  / natQ (List.length (qualifyingNodes g)).

End ClusteringSpec.

Section GapSpec.
Import Graph Communities Gaps.
Context {C : Type} `{EqKey C}.

(** [node] has no direct neighbour in cluster [cTo]. *)
Definition hasNoNeighbourIn (g : SimpleGraph) (communities : list (string * C))
  (cTo : C) (node : string) : bool :=
  forallb (fun n => negb (inCluster communities cTo n)) (getNeighbors g node).

(** The fraction of a cluster with members [other] that a node with
    [reached] neighbours in it does not reach yet. *)
Definition fractionUnreached (other : list string) (reached : nat) : Q :=
  (natQ (List.length other) - natQ reached) / Math_max (natQ (List.length other)) 1.

(** The candidates of one direction: the members of cluster [cFrom] without
    a neighbour in cluster [cTo], in member order. *)
Definition zeroNeighbourCandidates (g : SimpleGraph) (communities : list (string * C))
  (cFrom cTo : C) (fromEntities toEntities : list string)
  : list BridgeCandidateInfo :=
  map (fun node =>
         mkCandidate node cFrom (firstn 5 toEntities)
           (natQ (getDegree g node) * (natQ (List.length toEntities) - natQ 0)
            / Math_max (natQ (List.length toEntities)) 1))
      (filter (hasNoNeighbourIn g communities cTo) fromEntities).

(** The selection as the specification words it: the top five of each
    direction, merged. *)
Definition topFivePerDirection (g : SimpleGraph) (communities : list (string * C))
  (cA cB : C) (aEntities bEntities : list string) : list BridgeCandidateInfo :=
  firstn 5 (stableSort byImpactDesc
              (zeroNeighbourCandidates g communities cA cB aEntities bEntities))
  ++ firstn 5 (stableSort byImpactDesc
                 (zeroNeighbourCandidates g communities cB cA bEntities aEntities)).

(** What every gap pushed by the loops of [detectStructuralGaps] holds. *)
Definition gapBuiltFrom (g : SimpleGraph) (communities : list (string * C))
  (clusterNodes : list (C * list string)) (gap : StructuralGapInfo) : Prop :=
  cluster1Entities gap = clusterMembers clusterNodes (cluster1 gap)
  /\ cluster2Entities gap = clusterMembers clusterNodes (cluster2 gap)
  /\ bridgeCandidates gap
     = findBridgeCandidates g (cluster1 gap) (cluster2 gap) communities clusterNodes.

End GapSpec.

Section PMISpec.
Import PMI.
Variable log2 : Q -> Q.

(** The result [applyToEdges] pushes for an edge it keeps, when the weight is
    combined with the frequency. *)
Definition combinedResult (this : PMICalculator) (useNPMI : bool)
  (counts : EntityCounts) (edge : Edge) : PMIResult :=
  let pmiValue := pmiValueOf log2 this useNPMI counts edge in
  mkResult (source edge) (target edge)
           (weight edge * (1 + Math_max 0 pmiValue))
           pmiValue
           (if useNPMI then Some pmiValue else None)
           (nullish (JsMap.get (pairCounts counts)
                               (pairKey (source edge) (target edge))) 0).

Definition nonNegativeValue (this : PMICalculator) (useNPMI : bool)
  (counts : EntityCounts) (edge : Edge) : bool :=
  negb (Qltb (pmiValueOf log2 this useNPMI counts edge) 0).

End PMISpec.

Section EnsembleSpec.
Import Types Ensemble.

(** The result [merge] pushes for a first-list entity. *)
Definition resultForTextRazor (this : EnsembleAggregator)
  (nuExtractEntities : list EntityWithProvenance) (trEntity : EntityWithProvenance)
  : EnsembleEntity :=
  match findMatch this trEntity nuExtractEntities with
  | Some nuMatch => createEnsembleEntity this trEntity nuMatch
  | None => createSingleSourceEntity this trEntity src_textrazor
  end.

(** Some first-list entity is matched with an entity whose id is [nuId]. *)
Definition matchedBySome (this : EnsembleAggregator)
  (textRazorEntities nuExtractEntities : list EntityWithProvenance) (nuId : string)
  : bool :=
  existsb
    (fun trEntity =>
       match findMatch this trEntity nuExtractEntities with
       | Some nuMatch => String.eqb (id (base nuMatch)) nuId
       | None => false
       end)
    textRazorEntities.

(** The ids [merge] adds to [matched], in order. *)
Definition matchedIds (this : EnsembleAggregator)
  (textRazorEntities nuExtractEntities : list EntityWithProvenance) : list string :=
  flat_map
    (fun trEntity =>
       match findMatch this trEntity nuExtractEntities with
       | Some nuMatch => [id (base nuMatch)]
       | None => []
       end)
    textRazorEntities.

End EnsembleSpec.

Section TraversalSpec.
Import Graph Centrality.

(** [w] has not been reached: [distance.get(w) ?? -1] is negative. *)
Definition undiscovered (dist : list (string * Z)) (w : string) : bool :=
  (nullish (JsMap.get dist w) (-1) <? 0)%Z.

(** The keys of all adjacency maps, with repetitions. *)
Definition neighbourEntries (g : SimpleGraph) : list string :=
  flat_map (fun e => JsMap.keys (snd e)) (edges g).

(** The measure of the traversal loop: the queued nodes plus the adjacency
    entries that name a node not reached yet. *)
Definition pending (g : SimpleGraph) (st : BfsState) : nat :=
  (List.length (queue st)
   + List.length (filter (undiscovered (distance st)) (neighbourEntries g)))%nat.

Definition queuedDiscovered (st : BfsState) : Prop :=
  Forall (fun v => undiscovered (distance st) v = false) (queue st).

End TraversalSpec.

Section CooccurrenceSpec.
Import Graph.

(** The string holds no [|]: it cannot overlap the delimiter of an edge key. *)
Fixpoint noBar (s : string) : bool :=
  match s with
  | EmptyString => true
  | String c r => negb (Ascii.eqb c "|") && noBar r
  end.

(** The invariant of the graph data model, on the stored adjacency maps: the
    two directions of an edge hold the same weight, no node is its own
    neighbour, and no stored weight is negative. *)
Definition symmetricLoopFree (g : SimpleGraph) : Prop :=
  (forall a b, JsMap.get (adjacency g a) b = JsMap.get (adjacency g b) a)
  /\ (forall a, JsMap.get (adjacency g a) a = None)
  /\ (forall a b w, JsMap.get (adjacency g a) b = Some w -> 0 <= w).

(** What the builders keep in their [cooccurrences] map: a key encodes a
    pair of distinct ids without [|], and a count is positive. *)
Definition pairCount (entry : string * Q) : Prop :=
  (exists a b, a <> b /\ noBar a = true /\ noBar b = true
               /\ fst entry = Cooccurrence.edgeKey a b)
  /\ 0 < snd entry.

End CooccurrenceSpec.

Section GraphStoreSpec.
Import Graph.

(** The shape every graph built with [addNode] and [addEdge] has: [nodes] and
    the keys of [edges] are duplicate-free and hold the same strings, and
    every adjacency map is duplicate-free and names nodes only. *)
Definition wellFormed (g : SimpleGraph) : Prop :=
  NoDup (nodes g)
  /\ NoDup (JsMap.keys (edges g))
  /\ (forall n, In n (JsMap.keys (edges g)) <-> In n (nodes g))
  /\ (forall s m, JsMap.get (edges g) s = Some m ->
        NoDup (JsMap.keys m) /\ forall t, In t (JsMap.keys m) -> In t (nodes g)).

(** No node is its own neighbour. *)
Definition loopFree (g : SimpleGraph) : Prop :=
  forall a, JsMap.get (adjacency g a) a = None.

End GraphStoreSpec.

Section ClosenessSpec.
Import Graph CentralityMeasures.

(** The measure of the loop of [bfsDistances]: the queued records plus the
    adjacency entries that name a node not visited yet. *)
Definition pendingDistance (g : SimpleGraph) (st : DistanceState) : nat :=
  (List.length (queue st)
   + List.length (filter (fun w => negb (JsSet.has (visited st) w))
                         (neighbourEntries g)))%nat.

(** What the loop of [bfsDistances] keeps on a well-formed graph: the keys of
    [distances] are the visited nodes, in order and without repetition, all
    of them nodes of the graph; [source] is at distance 0 and every other
    visited node at distance 1 or more; no queued distance is negative. *)
Definition distanceInvariant (g : SimpleGraph) (source : string)
  (st : DistanceState) : Prop :=
  JsMap.keys (distances st) = visited st
  /\ NoDup (visited st)
  /\ (forall x, In x (visited st) -> In x (nodes g))
  /\ (exists rest, distances st = (source, 0%Z) :: rest
                   /\ Forall (fun e => (1 <= snd e)%Z) rest)
  /\ Forall (fun e => (0 <= snd e)%Z) (queue st).

(** The closeness score of [node], with 0 where [bfsDistances] has no
    result. *)
Definition closenessScore (g : SimpleGraph) (node : string) : Q :=
  match bfsDistances g node with
  | Some dist => closenessOf (JsSet.size (nodes g)) dist
  | None => 0
  end.

End ClosenessSpec.

Section WeightSpec.
Import Graph.

(** No stored weight is negative. *)
Definition nonNegativeWeights (g : SimpleGraph) : Prop :=
  forall s m t w, In (s, m) (edges g) -> In (t, w) m -> 0 <= w.

End WeightSpec.

Section GapRankingSpec.
Import Graph Gaps.
Context {C : Type} `{EqKey C}.

(** What [detectStructuralGaps] reports for a pair of clusters: the distance
    [interClusterDistance] gives the pair, above the threshold, for two
    different cluster ids. *)
Definition gapAbove (g : SimpleGraph) (communities : list (string * C))
  (minDistance : Q) (gap : StructuralGapInfo) : Prop :=
  distance gap = interClusterDistance g (cluster1 gap) (cluster2 gap) communities
  /\ minDistance < distance gap
  /\ cluster1 gap <> cluster2 gap.

End GapRankingSpec.

Section RankingSpec.

(** The comparator [(a, b) => key(b) - key(a)] of the descending sorts, as
    the order test of [stableSort]. *)
Definition byKeyDesc {A : Type} (key : A -> Q) (a b : A) : bool :=
  Qle_bool (key b) (key a).

End RankingSpec.

Section CloneSpec.
Import Graph GraphMeasures.

(** The entries the two loops of [cloneGraph] visit, in order. *)
Definition directedEntries (es : list (string * list (string * Q)))
  : list (string * string * Q) :=
  flat_map (fun '(s, m) => map (fun '(t, w) => (s, t, w)) m) es.

(** The visit of entry [e] writes the weight of the pair [(x, y)]. *)
Definition copies (x y : string) (e : string * string * Q) : bool :=
  let '(s, t, _) := e in
  String.ltb s t && ((x =? s)%string && (y =? t)%string
                     || (x =? t)%string && (y =? s)%string).

Definition copyEntry (acc : option SimpleGraph) (e : string * string * Q)
  : option SimpleGraph :=
  let '(s, t, w) := e in copyEdge s acc (t, w).

End CloneSpec.

Section CommunityMapSpec.
Context {C : Type} `{EqKey C}.

(** The nodes the assignment maps to community [c], in insertion order. *)
Definition membersOf (communities : list (string * C)) (c : C) : list string :=
  map fst (filter (fun e => keqb (snd e) c) communities).

End CommunityMapSpec.

Section PMICountSpec.

(** The number of windows that list [e]. *)
Definition windowsWith (e : string) (windows : list (list string)) : nat :=
  List.length (filter (fun w => JsSet.has w e) windows).

End PMICountSpec.

Section PMIResultSpec.
Import PMI.
Variable log2 : Q -> Q.

(** The edges [applyToEdges] keeps. *)
Definition keptEdge (this : PMICalculator) (useNPMI filterNegative : bool)
  (counts : EntityCounts) (edge : Edge) : bool :=
  negb (filterNegative && Qltb (pmiValueOf log2 this useNPMI counts edge) 0).

(** The result [applyToEdges] pushes for an edge it keeps. *)
Definition resultOf (this : PMICalculator) (useNPMI combineWithFrequency : bool)
  (counts : EntityCounts) (edge : Edge) : PMIResult :=
  let pmiValue := pmiValueOf log2 this useNPMI counts edge in
  mkResult (source edge) (target edge)
           (if combineWithFrequency
            then weight edge * (1 + Math_max 0 pmiValue)
            else Math_max 0 pmiValue)
           pmiValue
           (if useNPMI then Some pmiValue else None)
           (nullish (JsMap.get (pairCounts counts)
                               (pairKey (source edge) (target edge))) 0).

End PMIResultSpec.

Section PMIPairSpec.

(** The number of windows that list both [a] and [b]. *)
Definition windowsWithBoth (a b : string) (windows : list (list string)) : nat :=
  List.length (filter (fun w => JsSet.has w a && JsSet.has w b) windows).

(** The keys the pair loops of [buildCounts] increment for one window, in
    order. *)
Fixpoint pairKeys (uniqueEntities : list string) : list string :=
  match uniqueEntities with
  | [] => []
  | a :: later => map (PMI.pairKey a) later ++ pairKeys later
  end.

(** [x] and [y] are [a] and [b], in either order. *)
Definition pairHit (a b x y : string) : bool :=
  ((x =? a) && (y =? b) || (x =? b) && (y =? a))%string.

(** The number of index pairs [i < j] of [l] that hold [a] and [b]. *)
Fixpoint pairHits (a b : string) (l : list string) : nat :=
  match l with
  | [] => 0
  | x :: later => (List.length (filter (pairHit a b x) later) + pairHits a b later)%nat
  end.

End PMIPairSpec.

Section SimilaritySpec.

(** The cells [l], read as [dp[i][j], dp[i][j+1], ...], stay below
    [max(i, column)]. *)
Fixpoint boundedFrom (i j : nat) (l : list nat) : Prop :=
  match l with
  | [] => True
  | d :: r => (d <= Nat.max i j)%nat /\ boundedFrom i (S j) r
  end.

End SimilaritySpec.

Section RelationSpec.
Import Relations.

(** The input relations that share the key [k], in input order. *)
Definition relationsWithKey (k : string) (rels : list TripleWithEvidence)
  : list TripleWithEvidence :=
  filter (fun rel => String.eqb (relationKey rel) k) rels.

(** What [mergeRelations] keeps in its map after the relations [seen]: a
    record under its own key, with one source per relation of that key, in
    order, the agreement count being their number, and evidence at least as
    long as that of each of them. *)
Definition mergedFrom (seen : list TripleWithEvidence) (k : string)
  (r : EnsembleRelation) : Prop :=
  relationKey (triple r) = k
  /\ sources r = map relExtractor (relationsWithKey k seen)
  /\ agreementCount r = List.length (relationsWithKey k seen)
  /\ (1 <= agreementCount r)%nat
  /\ forall rel, In rel (relationsWithKey k seen) ->
       (String.length (evText (relEvidence rel))
        <= String.length (evText (relEvidence (triple r))))%nat.

End RelationSpec.

Section ProximitySpec.
Import Proximity.

(** The locations of entity [e], in order. *)
Definition locationsWith (e : string) (locations : list EntityLocation)
  : list EntityLocation :=
  filter (fun loc => String.eqb (entityId loc) e) locations.

Definition tierTotal (t : ProximityTiers) : nat :=
  (sentence t + paragraph t + section t + page t)%nat.

(** What the loops over the location pairs keep, after [n] pairs. *)
Definition tiersAfter (includePageLevel : bool) (n : nat)
  (st : ProximityTiers * list EdgeEvidence) : Prop :=
  (tierTotal (fst st) <= n)%nat
  /\ (includePageLevel = true -> tierTotal (fst st) = n)
  /\ (includePageLevel = false -> page (fst st) = 0%nat)
  /\ (sentence (fst st) <= List.length (snd st))%nat
  /\ (List.length (snd st) <= sentence (fst st) + 5)%nat
  /\ (List.length (snd st) <= sentence (fst st) + paragraph (fst st))%nat.

(** What every edge put into the map of [calculateProximityEdges] holds. *)
Definition edgeBuiltFrom (this : StructuredProximityBuilder)
  (entityLocations : list (string * list EntityLocation))
  (includePageLevel : bool) (sourceUrl : option string) (e : ProximityEdge) : Prop :=
  source e <> target e
  /\ In (source e) (JsMap.keys entityLocations)
  /\ In (target e) (JsMap.keys entityLocations)
  /\ e = pairEdge this entityLocations includePageLevel sourceUrl (source e) (target e)
  /\ 0 < weight e.

End ProximitySpec.

Section PMICountsSpec.
Import PMI.

(** Counts on which no probability of [pmi] is zero, infinite or undefined:
    the smoothing and the number of windows are positive and no count is
    negative. *)
Definition usableCounts (this : PMICalculator) (counts : EntityCounts) : Prop :=
  0 < smoothing this
  /\ 0 < total counts
  /\ (forall k c, In (k, c) (entityCounts counts) -> 0 <= c)
  /\ (forall k c, In (k, c) (pairCounts counts) -> 0 <= c).

End PMICountsSpec.

Section TotalsSpec.
Import Graph.

(** The part of the total weight that the adjacency map of [source]
    contributes: the weights stored under a larger key. *)
Definition adjacencyWeight (source : string) (neighbors : list (string * Q)) : Q :=
  fold_right (fun '(target, weight) acc =>
                (if String.ltb source target then weight else 0) + acc)
             0 neighbors.

Definition storedWeight (es : list (string * list (string * Q))) : Q :=
  fold_right (fun '(source, neighbors) acc => adjacencyWeight source neighbors + acc)
             0 es.

Definition storedEntries (es : list (string * list (string * Q))) : nat :=
  fold_right (fun '(_, neighbors) acc => (JsMap.size neighbors + acc)%nat) 0%nat es.

End TotalsSpec.

Section ReviewSpec.
Import Ensemble Relations.
Context {E : Type} (agreementLevelOf : E -> AgreementLevel)
        (ensembleConfidenceOf : E -> JsNumber).

Definition isNaN (x : JsNumber) : bool :=
  match x with NaN => true | _ => false end.

(** The entities that are not an agreement of both extractors and whose
    comparison with the threshold has a NaN operand. *)
Definition notComparable (entities : list E) (threshold : JsNumber) : list E :=
  filter (fun e => negb (AgreementLevel_eqb (agreementLevelOf e) both)
                   && (isNaN (ensembleConfidenceOf e) || isNaN threshold))
         entities.

End ReviewSpec.

(** ** Sample inputs *)

Definition triangleWithIsolatedNode : Graph.SimpleGraph :=
  Graph.addNode
    (Graph.addEdge (Graph.addEdge (Graph.addEdge Graph.createGraph "a" "b" 1) "b" "c" 1)
                   "a" "c" 1)
    "d".

Definition twoTriangles : Graph.SimpleGraph :=
  Graph.addEdge
    (Graph.addEdge
       (Graph.addEdge
          (Graph.addEdge
             (Graph.addEdge (Graph.addEdge Graph.createGraph "a" "b" 1) "b" "c" 1)
             "a" "c" 1)
          "x" "y" 1)
       "y" "z" 1)
    "x" "z" 1.

Definition twoTrianglesGaps : list (@Gaps.StructuralGapInfo Communities.CommunityId) :=
  Gaps.detectStructuralGaps twoTriangles (Communities.detectCommunities twoTriangles)
    Gaps.defaultMinDistance Gaps.defaultMaxGaps.

Definition twoTrianglesGap : @Gaps.StructuralGapInfo Communities.CommunityId :=
  hd (Gaps.mkGap None None 0 [] [] []) twoTrianglesGaps.

Definition sampleCounts : PMI.EntityCounts :=
  PMI.mkCounts 10 [("a", 3); ("b", 3); ("c", 9)] [("a|b", 3); ("b|c", 2)].

Definition sampleEdges : list PMI.Edge :=
  [PMI.mkEdge "a" "b" 2; PMI.mkEdge "c" "b" 5].

Definition sampleProvenance : Ensemble.Provenance :=
  Ensemble.mkProvenance "https://example.org" "block-1" [] None None "evidence"
    Ensemble.src_textrazor (8 # 10) "2025-01-01T00:00:00Z".

Definition sampleEntity (i n : string) (t : Types.EntityType)
  : Ensemble.EntityWithProvenance :=
  Ensemble.mkEWP (Types.mkEntity i n t (8 # 10) 1 []) sampleProvenance
                 (Ensemble.mkExtractors false false).

Definition defaultAggregator : Ensemble.EnsembleAggregator :=
  Ensemble.newEnsembleAggregator Ensemble.noEnsembleOptions.

Definition appleUpper := sampleEntity "Q312" "Apple" Types.Organization.

Definition appleLower := sampleEntity "local_apple" "apple" Types.Organization.

Definition appleNu := sampleEntity "nu_apple" "Apple" Types.Organization.

Definition machineLearningShort := sampleEntity "Q2539" "ML" Types.Technology.

Definition machineLearningLong :=
  sampleEntity "nu_machine_learning" "Machine Learning" Types.Technology.

Definition pathABC : Graph.SimpleGraph :=
  Graph.addEdge (Graph.addEdge Graph.createGraph "A" "B" 1) "B" "C" 1.

Definition pathABCD : Graph.SimpleGraph := Graph.addEdge pathABC "C" "D" 1.

(** The score of [node], reduced to lowest terms. *)
Definition scoreOf (bc : option (list (string * Q))) (node : string) : option Q :=
  match bc with
  | Some m => option_map Qred (JsMap.get m node)
  | None => None
  end.

Definition selfLoopEntities : list Types.Entity :=
  [Types.mkEntity "x" "Alpha" Types.Concept 1 1
     [Types.mkMention 0 5 "Alpha" 0; Types.mkMention 18 23 "Alpha" 1];
   Types.mkEntity "x|||x" "Beta" Types.Concept 1 1
     [Types.mkMention 6 10 "Beta" 0; Types.mkMention 24 28 "Beta" 1]].

Definition selfLoopText : string := "Alpha Beta. Again Alpha Beta".

Definition plainEntities : list Types.Entity :=
  [Types.mkEntity "Q1" "Alpha" Types.Concept 1 1
     [Types.mkMention 0 5 "Alpha" 0; Types.mkMention 18 23 "Alpha" 1];
   Types.mkEntity "local_beta" "Beta" Types.Concept 1 1
     [Types.mkMention 6 10 "Beta" 0; Types.mkMention 24 28 "Beta" 1]].

Definition machineLearningLower :=
  sampleEntity "nu_ml" "ml" Types.Technology.

Definition sampleLocations : list Proximity.EntityLocation :=
  [Proximity.mkLocation "a" "block-1" "paragraph" ["Intro"] 0 0 "Alpha" "Alpha meets Beta.";
   Proximity.mkLocation "b" "block-1" "paragraph" ["Intro"] 0 0 "Beta" "Alpha meets Beta.";
   Proximity.mkLocation "b" "block-2" "paragraph" ["Intro"] 1 1 "Beta" "Beta again."].

Definition sampleProximityEdges : list Proximity.ProximityEdge :=
  Proximity.calculateProximityEdges (Proximity.mkBuilder Proximity.DEFAULT_WEIGHTS)
    sampleLocations false None.

Definition sampleProximityEdge : Proximity.ProximityEdge :=
  hd (Proximity.mkProximityEdge "" "" 0 (Proximity.mkTiers 0 0 0 0) [])
     sampleProximityEdges.

Definition defaultCalculator : PMI.PMICalculator :=
  PMI.newPMICalculator (PMI.mkPMIOptions None None).

(** Three entities as the review filters see them, agreement level and
    confidence: one found by both extractors, one below the default
    threshold, one whose confidence is NaN. *)
Definition sampleReviewEntities : list (Ensemble.AgreementLevel * Relations.JsNumber) :=
  [ (Ensemble.both, Relations.Finite (2 # 10));
    (Ensemble.textrazor_only, Relations.Finite (5 # 10));
    (Ensemble.nuextract_only, Relations.NaN) ].

(** * Properties *)

(** ** Facts about [JsMap] and [JsSet] *)

Section JsMapFacts.
Context {K V : Type} `{EqKey K}.
Implicit Types (m : list (K * V)) (k : K) (v : V).

Lemma keqb_refl k : keqb k k = true.
Proof. now apply keqb_eq. Qed.

Lemma keqb_neq k k' : k <> k' -> keqb k k' = false.
Proof.
  intros Hne. destruct (keqb k k') eqn:E; [|reflexivity].
  apply keqb_eq in E. contradiction.
Qed.

Lemma keqb_false_neq k k' : keqb k k' = false -> k <> k'.
Proof. intros E ->. rewrite keqb_refl in E. discriminate. Qed.

Lemma get_set_same m k v : JsMap.get (JsMap.set m k v) k = Some v.
Proof.
  induction m as [|[k' v'] r IH]; simpl.
  - now rewrite keqb_refl.
  - destruct (keqb k k') eqn:E; simpl; rewrite E; auto.
Qed.

Lemma get_set_other m k k' v :
  k <> k' -> JsMap.get (JsMap.set m k v) k' = JsMap.get m k'.
Proof.
  intros Hne. induction m as [|[k0 v0] r IH]; simpl.
  - rewrite (keqb_neq k' k); auto.
  - destruct (keqb k k0) eqn:E; simpl.
    + apply keqb_eq in E. subst k0. rewrite (keqb_neq k' k); auto.
    + destruct (keqb k' k0); auto.
Qed.

Lemma get_in_keys m k : JsMap.get m k <> None <-> In k (JsMap.keys m).
Proof.
  induction m as [|[k' v'] r IH]; simpl.
  - split; [congruence | tauto].
  - destruct (keqb k k') eqn:E.
    + apply keqb_eq in E. subst. split; [auto | congruence].
    + rewrite IH. apply keqb_false_neq in E. split; [auto | intros [->|]; tauto].
Qed.

Lemma get_None_notin m k : JsMap.get m k = None <-> ~ In k (JsMap.keys m).
Proof.
  rewrite <- get_in_keys. destruct (JsMap.get m k); intuition congruence.
Qed.

Lemma get_Some_in m k v : JsMap.get m k = Some v -> In (k, v) m.
Proof.
  induction m as [|[k' v'] r IH]; simpl; [discriminate|].
  destruct (keqb k k') eqn:E.
  - apply keqb_eq in E. subst. intros [= ->]. now left.
  - auto.
Qed.

Lemma has_in_keys m k : JsMap.has m k = true <-> In k (JsMap.keys m).
Proof.
  unfold JsMap.has. rewrite <- get_in_keys.
  destruct (JsMap.get m k); intuition congruence.
Qed.

Lemma set_present m k v : In k (JsMap.keys m) -> JsMap.keys (JsMap.set m k v) = JsMap.keys m.
Proof.
  induction m as [|[k' v'] r IH]; simpl; [tauto|].
  intros Hin. destruct (keqb k k') eqn:E; simpl; [reflexivity|].
  f_equal. apply IH. destruct Hin as [->|]; auto.
  rewrite keqb_refl in E. discriminate.
Qed.

Lemma set_absent m k v : ~ In k (JsMap.keys m) -> JsMap.set m k v = m ++ [(k, v)].
Proof.
  induction m as [|[k' v'] r IH]; simpl; [reflexivity|].
  intros Hin. destruct (keqb k k') eqn:E.
  - apply keqb_eq in E. subst. tauto.
  - f_equal. apply IH. tauto.
Qed.

Lemma in_keys_set m k v k' :
  In k' (JsMap.keys (JsMap.set m k v)) <-> k' = k \/ In k' (JsMap.keys m).
Proof.
  rewrite <- !get_in_keys.
  destruct (keqb k k') eqn:E.
  - apply keqb_eq in E. subst. rewrite get_set_same. split; [auto | congruence].
  - apply keqb_false_neq in E. rewrite get_set_other by auto.
    split; [auto | intros [->|]; tauto].
Qed.

Lemma NoDup_keys_set m k v :
  NoDup (JsMap.keys m) -> NoDup (JsMap.keys (JsMap.set m k v)).
Proof.
  intros Hnd.
  destruct (JsMap.get m k) eqn:E.
  - rewrite set_present; auto. apply get_in_keys. congruence.
  - apply get_None_notin in E. rewrite set_absent by auto.
    unfold JsMap.keys in *. rewrite map_app. simpl.
    apply NoDup_app; [auto | repeat constructor; simpl; tauto |].
    intros x Hx [<-|[]]. auto.
Qed.

End JsMapFacts.

Section JsSetFacts.
Context {K : Type} `{EqKey K}.
Implicit Types (s : list K) (x : K).

Lemma set_has_in s x : JsSet.has s x = true <-> In x s.
Proof.
  unfold JsSet.has. rewrite existsb_exists. split.
  - intros (y & Hy & E). apply keqb_eq in E. now subst.
  - intros Hin. exists x. split; auto. apply keqb_refl.
Qed.

Lemma in_set_add s x y : In y (JsSet.add s x) <-> y = x \/ In y s.
Proof.
  unfold JsSet.add. destruct (JsSet.has s x) eqn:E.
  - apply set_has_in in E. split; [auto | intros [->|]; auto].
  - rewrite in_app_iff. simpl. intuition.
Qed.

Lemma NoDup_set_add s x : NoDup s -> NoDup (JsSet.add s x).
Proof.
  intros Hnd. unfold JsSet.add. destruct (JsSet.has s x) eqn:E; auto.
  apply NoDup_app; [auto | repeat constructor; simpl; tauto |].
  intros y Hy [<-|[]].
  apply set_has_in in Hy. congruence.
Qed.

Lemma ofList_from_spec (l acc : list K) :
  NoDup acc ->
  NoDup (fold_left JsSet.add l acc)
  /\ (forall y, In y (fold_left JsSet.add l acc) <-> In y acc \/ In y l).
Proof.
  revert acc. induction l as [|x l IH]; intros acc Hnd; simpl.
  - split; [auto | intuition].
  - destruct (IH (JsSet.add acc x) (NoDup_set_add _ _ Hnd)) as [H1 H2].
    split; [auto|]. intros y. rewrite H2, in_set_add. intuition.
Qed.

Lemma NoDup_ofList (l : list K) : NoDup (JsSet.ofList l).
Proof. apply ofList_from_spec. constructor. Qed.

Lemma in_ofList (l : list K) y : In y (JsSet.ofList l) <-> In y l.
Proof.
  unfold JsSet.ofList.
  destruct (ofList_from_spec l [] (NoDup_nil _)) as [_ H2].
  rewrite H2. simpl. tauto.
Qed.

End JsSetFacts.

(** ** The graph store: [addEdge] with equal endpoints *)

Lemma orElse_zero_id (x : Q) : orElse (Some x) 0 == x.
Proof.
  unfold orElse. destruct (Qeq_bool x 0) eqn:E; [|reflexivity].
  apply Qeq_bool_eq in E. now symmetry.
Qed.

Lemma has_edges_addNode (g : Graph.SimpleGraph) (n : string) :
  JsMap.has (Graph.edges (Graph.addNode g n)) n = true.
Proof.
  unfold Graph.addNode; simpl. destruct (JsMap.has (Graph.edges g) n) eqn:E; auto.
  unfold JsMap.has. now rewrite get_set_same.
Qed.

Lemma addNode_present (g : Graph.SimpleGraph) (n : string) :
  JsMap.has (Graph.edges g) n = true ->
  Graph.edges (Graph.addNode g n) = Graph.edges g.
Proof. intros E. unfold Graph.addNode; simpl. now rewrite E. Qed.


Lemma getEdgeWeight_adjacency (g : Graph.SimpleGraph) (s t : string) :
  Graph.getEdgeWeight g s t = orElse (JsMap.get (Graph.adjacency g s) t) 0.
Proof.
  unfold Graph.getEdgeWeight, Graph.adjacency.
  destruct (JsMap.get (Graph.edges g) s); reflexivity.
Qed.

Lemma adjacency_set ns (es : list (string * list (string * Q))) s m :
  Graph.adjacency (Graph.mkGraph ns (JsMap.set es s m)) s = m.
Proof. unfold Graph.adjacency; simpl. now rewrite get_set_same. Qed.

Lemma hasEdge_adjacency (g : Graph.SimpleGraph) (s t : string) :
  Graph.hasEdge g s t = JsMap.has (Graph.adjacency g s) t.
Proof.
  unfold Graph.hasEdge, Graph.adjacency.
  destruct (JsMap.get (Graph.edges g) s); reflexivity.
Qed.


(** ** Community detection: [detectCommunities] *)

(** C6, as the code has it: an empty graph yields the empty assignment; a
    graph with one node yields the assignment of that node to community 0. *)
Theorem detectCommunities_small_graphs :
  (forall es, Communities.detectCommunities (Graph.mkGraph [] es) = [])
  /\ (forall n es,
        Communities.detectCommunities (Graph.mkGraph [n] es) = [(n, Some 0%nat)]).
Proof. split; reflexivity. Qed.

(** C6 fails as stated: the assignment of a single-node graph is not empty. *)
Lemma detectCommunities_single_node_not_empty :
  Graph.nodes (Graph.addNode Graph.createGraph "a") = ["a"]
  /\ Communities.detectCommunities (Graph.addNode Graph.createGraph "a")
     = [("a", Some 0%nat)]
  /\ Communities.detectCommunities (Graph.addNode Graph.createGraph "a") <> [].
Proof. repeat split. discriminate. Qed.

Lemma option_eqb_eq {K} `{EqKey K} (a b : option K) :
  option_eqb a b = true <-> a = b.
Proof. exact (keqb_eq a b). Qed.

Section CommunityFacts.
Import Graph Communities.

Lemma singletons_fold (l : list string) (c : list (string * CommunityId)) (i : nat) :
  NoDup (JsMap.keys c) ->
  let r := fst (fold_left
                  (fun '(communities, communityId) node =>
                     (JsMap.set communities node (Some communityId), S communityId))
                  l (c, i)) in
  NoDup (JsMap.keys r) /\ forall n, In n (JsMap.keys r) <-> In n (JsMap.keys c) \/ In n l.
Proof.
  revert c i. induction l as [|x l IH]; intros c i Hnd; simpl.
  - split; [auto | intuition].
  - destruct (IH (JsMap.set c x (Some i)) (S i) (NoDup_keys_set _ _ _ Hnd)) as [H1 H2].
    split; [exact H1|]. intros n. rewrite H2, in_keys_set. intuition.
Qed.

Lemma moveNode_keys (g : SimpleGraph) st node :
  In node (JsMap.keys (fst st)) ->
  JsMap.keys (fst (moveNode g st node)) = JsMap.keys (fst st).
Proof.
  destruct st as [c improved]; simpl. intros Hin. unfold moveNode.
  destruct (fold_left _ (fold_left _ _ _) _) as [bestCommunity bestGain].
  destruct (_ && _); simpl; [now apply set_present | reflexivity].
Qed.

Lemma pass_keys (g : SimpleGraph) (l : list string) st :
  (forall n, In n l -> In n (JsMap.keys (fst st))) ->
  JsMap.keys (fst (fold_left (moveNode g) l st)) = JsMap.keys (fst st).
Proof.
  revert st. induction l as [|x l IH]; intros st Hl; simpl; [reflexivity|].
  rewrite IH.
  - apply moveNode_keys. apply Hl. now left.
  - intros n Hn. rewrite moveNode_keys; apply Hl; simpl; auto.
Qed.

Lemma localMoves_keys (remaining : nat) (g : SimpleGraph) c :
  (forall n, In n (nodes g) -> In n (JsMap.keys c)) ->
  JsMap.keys (localMoves remaining g c) = JsMap.keys c.
Proof.
  revert c. induction remaining as [|r IH]; intros c Hc; simpl; [reflexivity|].
  pose proof (pass_keys g (nodes g) (c, false) Hc) as Hp.
  destruct (fold_left (moveNode g) (nodes g) (c, false)) as [c' improved].
  simpl in Hp. destruct improved; [|exact Hp].
  rewrite IH; [exact Hp|]. intros n Hn. rewrite Hp. auto.
Qed.

Lemma fold_set_map {A B : Type} (f : A -> B) (l : list (string * A))
  (acc : list (string * B)) :
  NoDup (JsMap.keys acc ++ JsMap.keys l) ->
  fold_left (fun result '(node, a) => JsMap.set result node (f a)) l acc
  = acc ++ map (fun '(node, a) => (node, f a)) l.
Proof.
  revert acc. induction l as [|[n a] l IH]; intros acc Hnd; simpl.
  - now rewrite app_nil_r.
  - simpl in Hnd. rewrite set_absent.
    + rewrite IH.
      * now rewrite <- app_assoc.
      * unfold JsMap.keys in *. rewrite map_app, <- app_assoc. exact Hnd.
    + apply NoDup_remove_2 in Hnd. intros Hin. apply Hnd.
      apply in_or_app. now left.
Qed.

Lemma numbering_fold (l : list CommunityId) (acc : list (CommunityId * nat)) (i : nat) :
  NoDup (JsMap.keys acc ++ l) ->
  fst (fold_left
         (fun '(communityMap, newId) oldId =>
            (JsMap.set communityMap oldId newId, S newId))
         l (acc, i))
  = acc ++ combine l (seq i (List.length l)).
Proof.
  revert acc i. induction l as [|x l IH]; intros acc i Hnd; simpl.
  - now rewrite app_nil_r.
  - rewrite set_absent.
    + rewrite IH.
      * now rewrite <- app_assoc.
      * unfold JsMap.keys in *. rewrite map_app, <- app_assoc. exact Hnd.
    + apply NoDup_remove_2 in Hnd. intros Hin. apply Hnd.
      apply in_or_app. now left.
Qed.

Lemma get_combine_seq_in (l : list CommunityId) (i : nat) (x : CommunityId) :
  In x l ->
  exists j, (j < List.length l)%nat
            /\ JsMap.get (combine l (seq i (List.length l))) x = Some (i + j)%nat.
Proof.
  revert i. induction l as [|y l IH]; intros i Hin; [destruct Hin|].
  simpl. destruct (option_eqb x y) eqn:E.
  - exists 0%nat. split; [lia | f_equal; lia].
  - destruct Hin as [->|Hin].
    + assert (Hr : option_eqb x x = true) by now apply option_eqb_eq.
      congruence.
    + destruct (IH (S i) Hin) as (j & Hj & Hget).
      exists (S j). split; [lia|]. rewrite Hget. f_equal. lia.
Qed.

Lemma get_combine_seq_nth (l : list CommunityId) (i j : nat) (x : CommunityId) :
  NoDup l -> nth_error l j = Some x ->
  JsMap.get (combine l (seq i (List.length l))) x = Some (i + j)%nat.
Proof.
  revert i j. induction l as [|y l IH]; intros i j Hnd Hnth.
  - destruct j; discriminate.
  - inversion Hnd as [|? ? Hy Hl]; subst. simpl.
    destruct j as [|j]; simpl in Hnth.
    + injection Hnth as ->.
      assert (Hr : option_eqb x x = true) by now apply option_eqb_eq.
      rewrite Hr. f_equal. lia.
    + destruct (option_eqb x y) eqn:E.
      * apply option_eqb_eq in E. subst y.
        exfalso. apply Hy. eapply nth_error_In; eauto.
      * rewrite (IH (S i) j Hl Hnth). f_equal. lia.
Qed.

Lemma renumberCommunities_spec (c : list (string * CommunityId)) :
  NoDup (JsMap.keys c) ->
  JsMap.keys (renumberCommunities c) = JsMap.keys c
  /\ forall v, In v (JsMap.values (renumberCommunities c))
               <-> exists i, (i < List.length (JsSet.ofList (JsMap.values c)))%nat
                             /\ v = Some i.
Proof.
  intros Hnd. unfold renumberCommunities.
  set (uniq := JsSet.ofList (JsMap.values c)).
  assert (Hu : NoDup uniq) by apply NoDup_ofList.
  rewrite (numbering_fold uniq [] 0) by exact Hu. simpl app.
  set (cm := combine uniq (seq 0 (List.length uniq))).
  rewrite (fold_set_map (JsMap.get cm) c []) by exact Hnd. simpl app.
  split.
  - unfold JsMap.keys. rewrite map_map. apply map_ext. now intros [n a].
  - intros v. unfold JsMap.values. rewrite map_map. rewrite in_map_iff. split.
    + intros ([n old] & <- & Hin). simpl.
      assert (Hold : In old uniq).
      { apply in_ofList. unfold JsMap.values. apply in_map_iff.
        exists (n, old). auto. }
      destruct (get_combine_seq_in uniq 0 old Hold) as (j & Hj & Hget).
      exists j. split; [exact Hj | exact Hget].
    + intros (i & Hi & ->).
      destruct (nth_error uniq i) as [old|] eqn:Hnth.
      * assert (Hold : In old (JsMap.values c)).
        { apply in_ofList. eapply nth_error_In; eauto. }
        unfold JsMap.values in Hold. apply in_map_iff in Hold.
        destruct Hold as ([n old'] & Ho & Hin). simpl in Ho. subst old'.
        exists (n, old). split; [|exact Hin]. simpl.
        unfold cm. now rewrite (get_combine_seq_nth uniq 0 i old Hu Hnth).
      * apply nth_error_None in Hnth. lia.
Qed.

End CommunityFacts.

(** C9.  The assignment returned by [detectCommunities] has one entry for
    every node of the graph and no other entry, every entry holds an integer
    community id, and the ids in use are exactly 0, 1, ..., k-1 for some k. *)
Theorem detectCommunities_covers_contiguous (g : Graph.SimpleGraph) :
  NoDup (JsMap.keys (Communities.detectCommunities g))
  /\ (forall n, In n (JsMap.keys (Communities.detectCommunities g))
                <-> In n (Graph.nodes g))
  /\ exists k, forall c, In c (JsMap.values (Communities.detectCommunities g))
                         <-> exists i, (i < k)%nat /\ c = Some i.
Proof.
  unfold Communities.detectCommunities.
  destruct (Graph.nodes g) as [|a [|b l]] eqn:Hnodes.
  - split; [constructor|]. split; [simpl; tauto|].
    exists 0%nat. intros c. simpl. split; [tauto | intros (i & Hi & _); lia].
  - split; [repeat constructor; simpl; tauto|]. split; [simpl; tauto|].
    exists 1%nat. intros c. simpl. split.
    + intros [<-|[]]. exists 0%nat. split; [lia | reflexivity].
    + intros (i & Hi & ->). left. f_equal. lia.
  - destruct (singletons_fold (Graph.nodes g) [] 0 (NoDup_nil _)) as [Hnd Hin].
    fold (Communities.singletons g) in Hnd, Hin.
    assert (Hkeys : JsMap.keys (Communities.localMoves Communities.maxIterations g
                                  (Communities.singletons g))
                    = JsMap.keys (Communities.singletons g)).
    { apply localMoves_keys. intros n Hn. apply Hin. now right. }
    assert (Hnd' : NoDup (JsMap.keys (Communities.localMoves
                                        Communities.maxIterations g
                                        (Communities.singletons g)))).
    { now rewrite Hkeys. }
    destruct (renumberCommunities_spec _ Hnd') as [Hk Hv].
    rewrite Hk, Hkeys. split; [exact Hnd|]. split.
    + intros n. rewrite Hin, Hnodes. simpl. tauto.
    + eexists. exact Hv.
Qed.

(** ** Community detection: [averageClusteringCoefficient] *)

Section ClusteringFacts.
Import Graph Communities.

Lemma getNeighbors_length (g : SimpleGraph) (node : string) :
  List.length (getNeighbors g node) = getDegree g node.
Proof.
  unfold getNeighbors, getDegree, JsMap.keys, JsMap.size.
  destruct (JsMap.get (edges g) node); [apply length_map | reflexivity].
Qed.

Lemma addCoefficient_fold (g : SimpleGraph) (l : list string) (acc : Q) :
  fold_left (addCoefficient g) l acc
  == acc + sumQ (map (localCoefficient g)
                     (filter (fun node => (2 <=? getDegree g node)%nat) l)).
Proof.
  revert acc. induction l as [|x l IH]; intros acc; cbn [fold_left filter].
  - simpl. ring.
  - rewrite IH. unfold addCoefficient at 1.
    rewrite getNeighbors_length.
    destruct (getDegree g x <? 2)%nat eqn:E.
    + apply Nat.ltb_lt in E.
      replace (2 <=? getDegree g x)%nat with false
        by (symmetry; apply Nat.leb_gt; lia).
      reflexivity.
    + apply Nat.ltb_ge in E.
      replace (2 <=? getDegree g x)%nat with true
        by (symmetry; apply Nat.leb_le; lia).
      cbn [map sumQ]. unfold localCoefficient. ring.
Qed.

End ClusteringFacts.

(** C3, as the code has it: the sum of the local clustering coefficients of
    the nodes with degree at least 2, divided by the number of all nodes of
    the graph; nodes with degree below 2 add nothing to the sum but are
    counted in the divisor.  The empty graph yields 0. *)
Theorem averageClusteringCoefficient_over_all_nodes :
  (forall g : Graph.SimpleGraph,
     Communities.averageClusteringCoefficient g
     == sumQ (map (localCoefficient g) (qualifyingNodes g))
        / Communities.natQ (List.length (Graph.nodes g)))
  /\ (forall es, Communities.averageClusteringCoefficient (Graph.mkGraph [] es) = 0).
Proof.
  split; [|reflexivity].
  intros g. unfold Communities.averageClusteringCoefficient, JsSet.size.
  destruct (List.length (Graph.nodes g) =? 0)%nat eqn:E.
  - apply Nat.eqb_eq in E. rewrite E.
    apply length_zero_iff_nil in E. unfold qualifyingNodes. rewrite E.
    reflexivity.
  - rewrite addCoefficient_fold. unfold qualifyingNodes.
    apply Qdiv_comp; [ring | reflexivity].
Qed.

(** C3 fails as stated: on a triangle with one more, isolated node the code
    returns 3/4, while the mean over the three nodes of degree 2 is 1. *)
Lemma averageClusteringCoefficient_counts_excluded_nodes :
  Communities.averageClusteringCoefficient triangleWithIsolatedNode == 3 # 4
  /\ meanOverQualifying triangleWithIsolatedNode == 1
  /\ ~ Communities.averageClusteringCoefficient triangleWithIsolatedNode
       == meanOverQualifying triangleWithIsolatedNode.
Proof.
  split; [reflexivity|]. split; [reflexivity|]. discriminate.
Qed.

(** ** The stable sort *)

Lemma StronglySorted_weaken {A : Type} (R S : A -> A -> Prop) (l : list A) :
  (forall a b, R a b -> S a b) -> StronglySorted R l -> StronglySorted S l.
Proof.
  intros HRS. induction 1 as [|x r Hr IH Hx]; constructor; auto.
  eapply Forall_impl; [|exact Hx]. auto.
Qed.

Section StableSortFacts.
Context {A : Type} (le : A -> A -> bool).

Lemma insertSorted_perm (x : A) (l : list A) :
  Permutation (insertSorted le x l) (x :: l).
Proof.
  induction l as [|y r IH]; simpl; [reflexivity|].
  destruct (le x y); [reflexivity|].
  rewrite IH. apply perm_swap.
Qed.

Lemma stableSort_perm (l : list A) : Permutation (stableSort le l) l.
Proof.
  induction l as [|x r IH]; simpl; [reflexivity|].
  rewrite insertSorted_perm. now constructor.
Qed.

Hypothesis le_total : forall a b, le a b = false -> le b a = true.
Hypothesis le_trans : forall a b c, le a b = true -> le b c = true -> le a c = true.

Lemma insertSorted_sorted (x : A) (l : list A) :
  StronglySorted (fun a b => le a b = true) l ->
  StronglySorted (fun a b => le a b = true) (insertSorted le x l).
Proof.
  induction 1 as [|y r Hr IH Hy]; simpl.
  - repeat constructor.
  - destruct (le x y) eqn:E.
    + constructor; [now constructor|].
      constructor; [exact E|].
      rewrite Forall_forall in *. intros z Hz. eapply le_trans; eauto.
    + constructor; [exact IH|].
      rewrite Forall_forall in *. intros z Hz.
      apply (Permutation_in _ (insertSorted_perm x r)) in Hz.
      destruct Hz as [<-|Hz]; auto.
Qed.

Lemma stableSort_sorted (l : list A) :
  StronglySorted (fun a b => le a b = true) (stableSort le l).
Proof.
  induction l as [|x r IH]; simpl; [constructor|].
  now apply insertSorted_sorted.
Qed.

End StableSortFacts.

(** ** graph/gaps.ts: bridge candidates *)

Section GapFacts.
Import Graph Communities Gaps.
Context {C : Type} `{EqKey C}.

Lemma In_firstn {X : Type} (n : nat) (l : list X) (x : X) :
  In x (firstn n l) -> In x l.
Proof.
  intros Hin. rewrite <- (firstn_skipn n l). apply in_or_app. now left.
Qed.

Lemma length_filter_zero {X : Type} (p : X -> bool) (l : list X) :
  (List.length (filter p l) =? 0)%nat = forallb (fun x => negb (p x)) l.
Proof.
  induction l as [|x r IH]; simpl; [reflexivity|].
  destruct (p x); simpl; auto.
Qed.

Lemma candidatesFrom_spec (g : SimpleGraph) (communities : list (string * C))
  (cFrom cTo : C) (fromEntities toEntities : list string)
  (acc : list BridgeCandidateInfo) :
  candidatesFrom g communities cFrom cTo fromEntities toEntities acc
  = acc ++ zeroNeighbourCandidates g communities cFrom cTo fromEntities toEntities.
Proof.
  unfold candidatesFrom, zeroNeighbourCandidates.
  revert acc. induction fromEntities as [|node r IH]; intros acc; cbn [fold_left filter map].
  - now rewrite app_nil_r.
  - rewrite IH. unfold hasNoNeighbourIn at 2.
    rewrite <- length_filter_zero.
    destruct (List.length (filter (inCluster communities cTo) (getNeighbors g node)) =? 0)%nat
      eqn:E.
    + apply Nat.eqb_eq in E. rewrite E. cbn [map]. now rewrite <- app_assoc.
    + reflexivity.
Qed.

Lemma zeroNeighbourCandidates_impact (g : SimpleGraph) (communities : list (string * C))
  (cFrom cTo : C) (fromEntities toEntities : list string) (c : BridgeCandidateInfo) :
  In c (zeroNeighbourCandidates g communities cFrom cTo fromEntities toEntities) ->
  In (entityId c) fromEntities
  /\ hasNoNeighbourIn g communities cTo (entityId c) = true
  /\ fromCluster c = cFrom
  /\ expectedImpact c
     == natQ (getDegree g (entityId c)) * fractionUnreached toEntities 0.
Proof.
  unfold zeroNeighbourCandidates. rewrite in_map_iff.
  intros (node & <- & Hin). apply filter_In in Hin. destruct Hin as [Hin Hz].
  simpl. repeat split; auto.
  unfold fractionUnreached. unfold Qdiv. ring.
Qed.

Lemma zeroNeighbourCandidates_complete (g : SimpleGraph)
  (communities : list (string * C)) (cFrom cTo : C)
  (fromEntities toEntities : list string) (node : string) :
  In node fromEntities ->
  hasNoNeighbourIn g communities cTo node = true ->
  exists c,
    In c (zeroNeighbourCandidates g communities cFrom cTo fromEntities toEntities)
    /\ entityId c = node.
Proof.
  intros Hin Hz. eexists. split.
  - unfold zeroNeighbourCandidates. apply in_map.
    apply filter_In. split; [exact Hin | exact Hz].
  - reflexivity.
Qed.

Lemma byImpactDesc_total (a b : @BridgeCandidateInfo C) :
  byImpactDesc a b = false -> byImpactDesc b a = true.
Proof.
  unfold byImpactDesc. intros E. apply Qle_bool_iff.
  destruct (Qlt_le_dec (expectedImpact a) (expectedImpact b)) as [Hlt|Hle].
  - now apply Qlt_le_weak.
  - apply Qle_bool_iff in Hle. congruence.
Qed.

Lemma byImpactDesc_trans (a b c : @BridgeCandidateInfo C) :
  byImpactDesc a b = true -> byImpactDesc b c = true -> byImpactDesc a c = true.
Proof.
  unfold byImpactDesc. rewrite !Qle_bool_iff. intros H1 H2.
  eapply Qle_trans; eauto.
Qed.

Lemma gapsWith_built (g : SimpleGraph) communities clusterNodes minDistance c1
  (later : list C) (gaps : list StructuralGapInfo) :
  Forall (gapBuiltFrom g communities clusterNodes) gaps ->
  Forall (gapBuiltFrom g communities clusterNodes)
         (gapsWith g communities clusterNodes minDistance c1 later gaps).
Proof.
  unfold gapsWith. revert gaps.
  induction later as [|c2 r IH]; intros gaps Hg; simpl; [exact Hg|].
  apply IH. destruct (Qltb _ _); [|exact Hg].
  apply Forall_app. split; [exact Hg|].
  constructor; [|constructor]. repeat split.
Qed.

Lemma allGaps_built (g : SimpleGraph) communities clusterNodes minDistance
  (clusters : list C) (gaps : list StructuralGapInfo) :
  Forall (gapBuiltFrom g communities clusterNodes) gaps ->
  Forall (gapBuiltFrom g communities clusterNodes)
         (allGaps g communities clusterNodes minDistance clusters gaps).
Proof.
  revert gaps. induction clusters as [|c1 later IH]; intros gaps Hg; simpl.
  - exact Hg.
  - apply IH. now apply gapsWith_built.
Qed.

Lemma detectStructuralGaps_built (g : SimpleGraph) communities minDistance maxGaps
  (gap : StructuralGapInfo) :
  In gap (detectStructuralGaps g communities minDistance maxGaps) ->
  gapBuiltFrom g communities (getCommunitiesMap communities) gap.
Proof.
  unfold detectStructuralGaps. intros Hin.
  apply In_firstn in Hin.
  apply (Permutation_in _ (stableSort_perm _ _)) in Hin.
  pose proof (allGaps_built g communities (getCommunitiesMap communities) minDistance
                (JsMap.keys (getCommunitiesMap communities)) [] (Forall_nil _)) as Hall.
  rewrite Forall_forall in Hall. now apply Hall.
Qed.

End GapFacts.

Section ClusterMemberFacts.
Import Graph Communities Gaps.
Context {C : Type} `{EqKey C}.

Lemma clusterMembers_step (result : list (C * list string)) (node : string)
  (community c : C) :
  let result1 :=
    if JsMap.has result community then result else JsMap.set result community [] in
  clusterMembers
    (match JsMap.get result1 community with
     | Some members => JsMap.set result1 community (members ++ [node])
     | None => result1
     end) c
  = if keqb c community then clusterMembers result c ++ [node]
    else clusterMembers result c.
Proof.
  cbv zeta. unfold clusterMembers, JsMap.has.
  destruct (keqb c community) eqn:E.
  - apply keqb_eq in E. subst c.
    destruct (JsMap.get result community) eqn:G.
    + rewrite G. now rewrite get_set_same.
    + rewrite get_set_same. now rewrite get_set_same.
  - apply keqb_false_neq in E.
    destruct (JsMap.get result community) eqn:G.
    + rewrite G. rewrite get_set_other; auto.
    + rewrite get_set_same. rewrite !get_set_other; auto.
Qed.

Lemma getCommunitiesMap_fold (l : list (string * C)) (acc : list (C * list string))
  (n : string) (c : C) :
  In n (clusterMembers
          (fold_left
             (fun result '(node, community) =>
                let result1 :=
                  if JsMap.has result community then result
                  else JsMap.set result community [] in
                match JsMap.get result1 community with
                | Some members => JsMap.set result1 community (members ++ [node])
                | None => result1
                end)
             l acc) c)
  <-> In n (clusterMembers acc c) \/ In (n, c) l.
Proof.
  revert acc. induction l as [|[node community] r IH]; intros acc; cbn [fold_left].
  - simpl. tauto.
  - rewrite IH. rewrite clusterMembers_step.
    destruct (keqb c community) eqn:E.
    + apply keqb_eq in E. subst c. rewrite in_app_iff. simpl.
      split; [intros [[?|[<-|[]]]|?] | intros [?|[[= <-]|?]]]; auto.
    + apply keqb_false_neq in E. simpl.
      split; [intros [?|?] | intros [?|[[= <- <-]|?]]]; auto. congruence.
Qed.

(** The members [getCommunitiesMap] lists for a cluster are the nodes the
    assignment maps to it. *)
Lemma getCommunitiesMap_members (communities : list (string * C)) (n : string) (c : C) :
  In n (clusterMembers (getCommunitiesMap communities) c) <-> In (n, c) communities.
Proof.
  unfold getCommunitiesMap. rewrite getCommunitiesMap_fold. simpl. tauto.
Qed.

End ClusterMemberFacts.

(** C4, as the code has it.  For a reported gap between clusters A and B the
    candidates of the two directions are the members of A without a direct
    neighbour in B and the members of B without a direct neighbour in A, each
    with expected impact = degree x (fraction of the other cluster not yet
    reached); the two lists are merged first (A's candidates, then B's),
    ranked by expected impact in descending order, and the first five of the
    merged ranking are the gap's bridge candidates: at most five per gap, not
    five per direction. *)
Theorem bridgeCandidates_top_five_of_merged {C : Type} `{EqKey C}
  (g : Graph.SimpleGraph) (communities : list (string * C))
  (minDistance : Q) (maxGaps : nat) (gap : Gaps.StructuralGapInfo) :
  In gap (Gaps.detectStructuralGaps g communities minDistance maxGaps) ->
  let A := Gaps.cluster1 gap in
  let B := Gaps.cluster2 gap in
  let fromA :=
    zeroNeighbourCandidates g communities A B
      (Gaps.cluster1Entities gap) (Gaps.cluster2Entities gap) in
  let fromB :=
    zeroNeighbourCandidates g communities B A
      (Gaps.cluster2Entities gap) (Gaps.cluster1Entities gap) in
  (forall n, In n (Gaps.cluster1Entities gap) <-> In (n, A) communities)
  /\ (forall n, In n (Gaps.cluster2Entities gap) <-> In (n, B) communities)
  /\ (forall c, In c fromA ->
        In (Gaps.entityId c) (Gaps.cluster1Entities gap)
        /\ hasNoNeighbourIn g communities B (Gaps.entityId c) = true
        /\ Gaps.fromCluster c = A
        /\ Gaps.expectedImpact c
           == Communities.natQ (Graph.getDegree g (Gaps.entityId c))
              * fractionUnreached (Gaps.cluster2Entities gap) 0)
  /\ (forall c, In c fromB ->
        In (Gaps.entityId c) (Gaps.cluster2Entities gap)
        /\ hasNoNeighbourIn g communities A (Gaps.entityId c) = true
        /\ Gaps.fromCluster c = B
        /\ Gaps.expectedImpact c
           == Communities.natQ (Graph.getDegree g (Gaps.entityId c))
              * fractionUnreached (Gaps.cluster1Entities gap) 0)
  /\ (forall n, In n (Gaps.cluster1Entities gap) ->
        hasNoNeighbourIn g communities B n = true ->
        exists c, In c fromA /\ Gaps.entityId c = n)
  /\ (forall n, In n (Gaps.cluster2Entities gap) ->
        hasNoNeighbourIn g communities A n = true ->
        exists c, In c fromB /\ Gaps.entityId c = n)
  /\ exists ranked,
       Permutation ranked (fromA ++ fromB)
       /\ StronglySorted
            (fun a b => Gaps.expectedImpact b <= Gaps.expectedImpact a) ranked
       /\ Gaps.bridgeCandidates gap = firstn 5 ranked
       /\ (List.length (Gaps.bridgeCandidates gap) <= 5)%nat.
Proof.
  intros Hin A B fromA fromB.
  destruct (detectStructuralGaps_built _ _ _ _ _ Hin) as (H1 & H2 & H3).
  split. { intros n. rewrite H1. apply getCommunitiesMap_members. }
  split. { intros n. rewrite H2. apply getCommunitiesMap_members. }
  split. { intros c Hc. now apply (zeroNeighbourCandidates_impact _ _ _ _ _ _ _ Hc). }
  split. { intros c Hc. now apply (zeroNeighbourCandidates_impact _ _ _ _ _ _ _ Hc). }
  split. { intros n Hn Hz. now apply zeroNeighbourCandidates_complete. }
  split. { intros n Hn Hz. now apply zeroNeighbourCandidates_complete. }
  exists (stableSort Gaps.byImpactDesc (fromA ++ fromB)).
  split; [apply stableSort_perm|].
  split.
  { pose proof (stableSort_sorted Gaps.byImpactDesc byImpactDesc_total
                  byImpactDesc_trans (fromA ++ fromB)) as Hs.
    eapply StronglySorted_weaken; [|exact Hs].
    intros a b Hab. unfold Gaps.byImpactDesc in Hab. now apply Qle_bool_iff. }
  assert (Hbc : Gaps.bridgeCandidates gap
                = firstn 5 (stableSort Gaps.byImpactDesc (fromA ++ fromB))).
  { rewrite H3. unfold Gaps.findBridgeCandidates.
    rewrite !candidatesFrom_spec. simpl app.
    unfold fromA, fromB, A, B. now rewrite H1, H2. }
  split; [exact Hbc|].
  rewrite Hbc. apply firstn_le_length.
Qed.

Lemma bridgeCandidates_top_five_witness :
  In twoTrianglesGap twoTrianglesGaps
  /\ exists ranked,
       Permutation ranked
         (zeroNeighbourCandidates twoTriangles
            (Communities.detectCommunities twoTriangles)
            (Gaps.cluster1 twoTrianglesGap) (Gaps.cluster2 twoTrianglesGap)
            (Gaps.cluster1Entities twoTrianglesGap)
            (Gaps.cluster2Entities twoTrianglesGap)
          ++ zeroNeighbourCandidates twoTriangles
               (Communities.detectCommunities twoTriangles)
               (Gaps.cluster2 twoTrianglesGap) (Gaps.cluster1 twoTrianglesGap)
               (Gaps.cluster2Entities twoTrianglesGap)
               (Gaps.cluster1Entities twoTrianglesGap))
       /\ StronglySorted
            (fun a b => Gaps.expectedImpact b <= Gaps.expectedImpact a) ranked
       /\ Gaps.bridgeCandidates twoTrianglesGap = firstn 5 ranked
       /\ (List.length (Gaps.bridgeCandidates twoTrianglesGap) <= 5)%nat.
Proof.
  assert (Hin : In twoTrianglesGap twoTrianglesGaps).
  { vm_compute. left. reflexivity. }
  split; [exact Hin|].
  exact (proj2 (proj2 (proj2 (proj2 (proj2 (proj2
           (bridgeCandidates_top_five_of_merged twoTriangles
              (Communities.detectCommunities twoTriangles)
              Gaps.defaultMinDistance Gaps.defaultMaxGaps twoTrianglesGap Hin))))))).
Defined.

(** C4 fails as stated: for two disconnected triangles {a, b, c} and
    {x, y, z} every node is a candidate; five per direction would keep all six,
    the code keeps five in total and drops [z], a node of the second cluster
    without a neighbour in the first. *)
Lemma bridgeCandidates_not_five_per_direction :
  twoTrianglesGaps = [twoTrianglesGap]
  /\ Gaps.cluster1Entities twoTrianglesGap = ["a"; "b"; "c"]
  /\ Gaps.cluster2Entities twoTrianglesGap = ["x"; "y"; "z"]
  /\ hasNoNeighbourIn twoTriangles (Communities.detectCommunities twoTriangles)
       (Gaps.cluster1 twoTrianglesGap) "z" = true
  /\ map Gaps.entityId (Gaps.bridgeCandidates twoTrianglesGap)
     = ["a"; "b"; "c"; "x"; "y"]
  /\ map Gaps.entityId
       (topFivePerDirection twoTriangles (Communities.detectCommunities twoTriangles)
          (Gaps.cluster1 twoTrianglesGap) (Gaps.cluster2 twoTrianglesGap)
          (Gaps.cluster1Entities twoTrianglesGap)
          (Gaps.cluster2Entities twoTrianglesGap))
     = ["a"; "b"; "c"; "x"; "y"; "z"]
  /\ Gaps.bridgeCandidates twoTrianglesGap
     <> topFivePerDirection twoTriangles (Communities.detectCommunities twoTriangles)
          (Gaps.cluster1 twoTrianglesGap) (Gaps.cluster2 twoTrianglesGap)
          (Gaps.cluster1Entities twoTrianglesGap)
          (Gaps.cluster2Entities twoTrianglesGap).
Proof.
  repeat split.
  intros Heq. apply (f_equal (@List.length _)) in Heq.
  vm_compute in Heq. discriminate.
Qed.

(** ** PMI/NPMI weighting: [applyToEdges] *)

Section PMIFacts.
Import PMI.
Variable log2 : Q -> Q.

Lemma applyToEdge_fold (this : PMICalculator) (counts : EntityCounts)
  (useNPMI : bool) (edges : list Edge) (acc : list PMIResult) :
  fold_left (applyToEdge log2 this counts useNPMI true true) edges acc
  = acc ++ map (combinedResult log2 this useNPMI counts)
               (filter (nonNegativeValue log2 this useNPMI counts) edges).
Proof.
  revert acc. induction edges as [|e r IH]; intros acc; cbn [fold_left filter].
  - now rewrite app_nil_r.
  - rewrite IH. unfold applyToEdge at 1, nonNegativeValue at 2.
    cbn [andb].
    destruct (Qltb (pmiValueOf log2 this useNPMI counts e) 0); cbn [negb map].
    + reflexivity.
    + now rewrite <- app_assoc.
Qed.

Lemma Qltb_false_iff (a b : Q) : Qltb a b = false <-> ~ a < b.
Proof.
  unfold Qltb. rewrite negb_false_iff, Qle_bool_iff. split.
  - intros Hle Hlt. apply (Qlt_not_le _ _ Hlt Hle).
  - apply Qnot_lt_le.
Qed.

End PMIFacts.

(** C7.  With [filterNegative] and [combineWithFrequency] enabled (set, or
    left to their default), the output of [applyToEdges] lists, in order, one
    result for each input edge whose PMI/NPMI value is not negative and none
    for the others; no result has a negative value, and each result's weight
    is the edge's input weight x (1 + max(0, pmi)). *)
Theorem applyToEdges_filters_and_combines (log2 : Q -> Q)
  (this : PMI.PMICalculator) (edges : list PMI.Edge) (counts : PMI.EntityCounts)
  (options : PMI.ApplyOptions) :
  nullish (PMI.filterNegative options) true = true ->
  nullish (PMI.combineWithFrequency options) true = true ->
  let value :=
    PMI.pmiValueOf log2 this (nullish (PMI.useNPMI options) true) counts in
  let kept := filter (fun e => negb (Qltb (value e) 0)) edges in
  let out := PMI.applyToEdges log2 this edges counts options in
  Forall (fun r => ~ PMI.resPmi r < 0) out
  /\ Forall2
       (fun e r =>
          PMI.resSource r = PMI.source e
          /\ PMI.resTarget r = PMI.target e
          /\ PMI.resPmi r = value e
          /\ PMI.resWeight r = PMI.weight e * (1 + Math_max 0 (PMI.resPmi r)))
       kept out.
Proof.
  intros Hf Hc value kept out.
  assert (Hout : out = map (combinedResult log2 this
                              (nullish (PMI.useNPMI options) true) counts) kept).
  { unfold out, PMI.applyToEdges. rewrite Hf, Hc.
    now rewrite applyToEdge_fold. }
  rewrite Hout. unfold kept. clear. split.
  - apply Forall_forall. intros r Hr. apply in_map_iff in Hr.
    destruct Hr as (e & <- & He). apply filter_In in He. destruct He as [_ He].
    simpl. apply Qltb_false_iff. now apply negb_true_iff.
  - induction (filter _ edges) as [|e l IH]; simpl; constructor.
    + repeat split.
    + exact IH.
Qed.

Lemma applyToEdges_filters_and_combines_witness :
  let log2 := fun x : Q => x - 1 in
  let this := PMI.newPMICalculator (PMI.mkPMIOptions None None) in
  let options := PMI.mkApplyOptions None None None in
  let value := PMI.pmiValueOf log2 this true sampleCounts in
  Forall (fun r => ~ PMI.resPmi r < 0)
         (PMI.applyToEdges log2 this sampleEdges sampleCounts options)
  /\ Forall2
       (fun e r =>
          PMI.resSource r = PMI.source e
          /\ PMI.resTarget r = PMI.target e
          /\ PMI.resPmi r = value e
          /\ PMI.resWeight r = PMI.weight e * (1 + Math_max 0 (PMI.resPmi r)))
       (filter (fun e => negb (Qltb (value e) 0)) sampleEdges)
       (PMI.applyToEdges log2 this sampleEdges sampleCounts options).
Proof.
  intros log2 this options value.
  apply (applyToEdges_filters_and_combines log2 this sampleEdges sampleCounts options);
    reflexivity.
Defined.

(** ** extraction/ensemble.ts: [merge] *)

Section EnsembleFacts.
Import Types Ensemble.

Lemma findMatch_first (this : EnsembleAggregator) (target : EntityWithProvenance)
  (candidates : list EntityWithProvenance) (found : EntityWithProvenance) :
  findMatch this target candidates = Some found ->
  exists before after,
    candidates = before ++ found :: after
    /\ matches this target found = true
    /\ Forall (fun c => matches this target c = false) before.
Proof.
  induction candidates as [|c r IH]; simpl; [discriminate|].
  destruct (matches this target c) eqn:E.
  - intros [= <-]. exists [], r. repeat split; auto.
  - intros Hf. destruct (IH Hf) as (before & after & -> & Hm & Hb).
    exists (c :: before), after. repeat split; auto.
Qed.

Lemma findMatch_none (this : EnsembleAggregator) (target : EntityWithProvenance)
  (candidates : list EntityWithProvenance) :
  findMatch this target candidates = None <->
  Forall (fun c => matches this target c = false) candidates.
Proof.
  induction candidates as [|c r IH]; simpl.
  - split; auto.
  - destruct (matches this target c) eqn:E.
    + split; [discriminate|]. intros Hf. inversion Hf; congruence.
    + rewrite IH. split; [now constructor | now inversion 1].
Qed.

Lemma in_fold_add (l acc : list string) (x : string) :
  In x (fold_left JsSet.add l acc) <-> In x acc \/ In x l.
Proof.
  revert acc. induction l as [|y l IH]; intros acc; simpl.
  - tauto.
  - rewrite IH, in_set_add. intuition.
Qed.

Lemma mergeTextRazor_fold (this : EnsembleAggregator)
  (nu tr : list EntityWithProvenance) (result : list EnsembleEntity)
  (matched : list string) :
  fold_left (mergeTextRazor this nu) tr (result, matched)
  = (result ++ map (resultForTextRazor this nu) tr,
     fold_left JsSet.add (matchedIds this tr nu) matched).
Proof.
  revert result matched. induction tr as [|t r IH]; intros result matched.
  - simpl. now rewrite app_nil_r.
  - assert (Hstep : mergeTextRazor this nu (result, matched) t
                    = (result ++ [resultForTextRazor this nu t],
                       fold_left JsSet.add (matchedIds this [t] nu) matched)).
    { unfold mergeTextRazor, resultForTextRazor, matchedIds. cbn [flat_map].
      destruct (findMatch this t nu); reflexivity. }
    cbn [fold_left map]. rewrite Hstep, IH. rewrite <- app_assoc.
    unfold matchedIds. cbn [flat_map]. rewrite app_nil_r, fold_left_app.
    reflexivity.
Qed.

Lemma addUnmatched_fold (this : EnsembleAggregator) (matched : list string)
  (nu : list EntityWithProvenance) (result : list EnsembleEntity) :
  fold_left (addUnmatched this matched) nu result
  = result ++ map (fun n => createSingleSourceEntity this n src_nuextract)
                  (filter (fun n => negb (JsSet.has matched (id (base n)))) nu).
Proof.
  revert result. induction nu as [|n r IH]; intros result; cbn [fold_left filter].
  - now rewrite app_nil_r.
  - rewrite IH. unfold addUnmatched.
    destruct (negb (JsSet.has matched (id (base n)))); cbn [map];
      [now rewrite <- app_assoc | reflexivity].
Qed.

Lemma has_matchedIds (this : EnsembleAggregator)
  (tr nu : list EntityWithProvenance) (nuId : string) :
  JsSet.has (fold_left JsSet.add (matchedIds this tr nu) []) nuId
  = matchedBySome this tr nu nuId.
Proof.
  apply eq_true_iff_eq.
  rewrite set_has_in, in_fold_add. unfold matchedBySome, matchedIds.
  rewrite existsb_exists, in_flat_map. simpl. split.
  - intros [[]|(t & Ht & Hin)]. exists t. split; [exact Ht|].
    destruct (findMatch this t nu); [|destruct Hin].
    destruct Hin as [<-|[]]. apply String.eqb_refl.
  - intros (t & Ht & Hm). right. exists t. split; [exact Ht|].
    destruct (findMatch this t nu); [|discriminate].
    left. now apply String.eqb_eq.
Qed.

Lemma merge_result (this : EnsembleAggregator) (tr nu : list EntityWithProvenance) :
  fst (merge this tr nu)
  = map (resultForTextRazor this nu) tr
    ++ map (fun n => createSingleSourceEntity this n src_nuextract)
           (filter (fun n => negb (matchedBySome this tr nu (id (base n)))) nu).
Proof.
  unfold merge. rewrite mergeTextRazor_fold. cbn [app fst].
  rewrite addUnmatched_fold. f_equal. f_equal.
  apply filter_ext. intros n. now rewrite has_matchedIds.
Qed.

End EnsembleFacts.

Lemma countLevel_app (level : Ensemble.AgreementLevel) (a b : list Ensemble.EnsembleEntity) :
  Ensemble.countLevel level (a ++ b)
  = (Ensemble.countLevel level a + Ensemble.countLevel level b)%nat.
Proof. unfold Ensemble.countLevel. now rewrite filter_app, length_app. Qed.

Lemma countLevel_both_single (this : Ensemble.EnsembleAggregator)
  (source : Ensemble.ExtractorSource) (l : list Ensemble.EntityWithProvenance) :
  Ensemble.countLevel Ensemble.both
    (map (fun e => Ensemble.createSingleSourceEntity this e source) l) = 0%nat.
Proof.
  unfold Ensemble.countLevel. induction l as [|e r IH]; [reflexivity|].
  cbn [map filter]. unfold Ensemble.createSingleSourceEntity at 1.
  cbn [Ensemble.agreementLevel]. destruct source; simpl; exact IH.
Qed.

(** C5, as the code has it.  Every first-list entity yields exactly one
    result, from a search over the whole second list: 'both' with the first
    second-list entity, in list order, that matches it (first match wins), or
    'textrazor_only' when none matches.  Matched entities stay candidates for
    the later first-list entities; being matched only keeps a second-list
    entity (by its id) out of the 'nuextract_only' results that follow.  So
    the number of 'both' results is bounded by the length of the first list. *)
Theorem merge_first_match_wins_per_target (this : Ensemble.EnsembleAggregator)
  (textRazorEntities nuExtractEntities : list Ensemble.EntityWithProvenance) :
  fst (Ensemble.merge this textRazorEntities nuExtractEntities)
  = map (resultForTextRazor this nuExtractEntities) textRazorEntities
    ++ map (fun n => Ensemble.createSingleSourceEntity this n Ensemble.src_nuextract)
           (filter (fun n => negb (matchedBySome this textRazorEntities nuExtractEntities
                                     (Types.id (Ensemble.base n))))
                   nuExtractEntities)
  /\ (forall target found,
        Ensemble.findMatch this target nuExtractEntities = Some found ->
        exists before after,
          nuExtractEntities = before ++ found :: after
          /\ Ensemble.matches this target found = true
          /\ Forall (fun c => Ensemble.matches this target c = false) before)
  /\ (forall target,
        Ensemble.findMatch this target nuExtractEntities = None <->
        Forall (fun c => Ensemble.matches this target c = false) nuExtractEntities)
  /\ (Ensemble.bothAgreed (snd (Ensemble.merge this textRazorEntities nuExtractEntities))
      <= List.length textRazorEntities)%nat.
Proof.
  split; [apply merge_result|].
  split; [intros target found; apply findMatch_first|].
  split; [intros target; apply findMatch_none|].
  pose proof (merge_result this textRazorEntities nuExtractEntities) as Hr.
  unfold Ensemble.merge in *.
  destruct (fold_left _ textRazorEntities _) as [result matched].
  cbn [fst snd Ensemble.bothAgreed] in *. rewrite Hr.
  rewrite countLevel_app, countLevel_both_single, Nat.add_0_r.
  unfold Ensemble.countLevel.
  etransitivity; [apply filter_length_le|]. now rewrite length_map.
Qed.

(** C5 fails as stated: two first-list entities ("Apple", "apple") are both
    merged with the one second-list entity "Apple", which so contributes to
    two results of agreement level 'both'. *)
Lemma merge_rematches_consumed_entity :
  fst (Ensemble.merge defaultAggregator [appleUpper; appleLower] [appleNu])
  = [Ensemble.createEnsembleEntity defaultAggregator appleUpper appleNu;
     Ensemble.createEnsembleEntity defaultAggregator appleLower appleNu]
  /\ map Ensemble.agreementLevel
       (fst (Ensemble.merge defaultAggregator [appleUpper; appleLower] [appleNu]))
     = [Ensemble.both; Ensemble.both]
  /\ Ensemble.bothAgreed
       (snd (Ensemble.merge defaultAggregator [appleUpper; appleLower] [appleNu]))
     = 2%nat.
Proof. repeat split. Qed.

(** C2 on the code: "ML" and "Machine Learning" of the same type are not
    matched.  The names differ, their similarity is 1/8, and the containment
    rule does not apply: "ml" is too short for the first alternative, and
    "ml" does not contain "machine learning" for the second.  [merge] returns
    two single-source entities and no entity of agreement level 'both'. *)
Theorem merge_ML_and_Machine_Learning_unmatched :
  Ensemble.stringSimilarity "ml" "machine learning" == 1 # 8
  /\ Ensemble.containmentMatch machineLearningShort machineLearningLong
       "ml" "machine learning" = false
  /\ Ensemble.findMatch defaultAggregator machineLearningShort [machineLearningLong]
     = None
  /\ map Ensemble.agreementLevel
       (fst (Ensemble.merge defaultAggregator [machineLearningShort]
               [machineLearningLong]))
     = [Ensemble.textrazor_only; Ensemble.nuextract_only]
  /\ Ensemble.bothAgreed
       (snd (Ensemble.merge defaultAggregator [machineLearningShort]
               [machineLearningLong]))
     = 0%nat.
Proof. repeat split. Qed.

(** ** graph/centrality.ts: [betweennessCentrality] *)

(** C1 on the code: on the path A - B - C (n = 3) the middle node gets the
    score 2, and on the path A - B - C - D (n = 4) the two inner nodes get
    4/3; both are above 1.  Every source's accumulation counts a pair of
    end points once per direction, and the factor 2 / ((n - 1)(n - 2)) does
    not halve the sum. *)
Theorem betweenness_path_exceeds_one :
  JsSet.size (Graph.nodes pathABC) = 3%nat
  /\ scoreOf (Centrality.betweennessCentrality pathABC) "A" = Some 0
  /\ scoreOf (Centrality.betweennessCentrality pathABC) "B" = Some 2
  /\ scoreOf (Centrality.betweennessCentrality pathABC) "C" = Some 0
  /\ ~ 2 <= 1
  /\ JsSet.size (Graph.nodes pathABCD) = 4%nat
  /\ scoreOf (Centrality.betweennessCentrality pathABCD) "B" = Some (4 # 3)
  /\ scoreOf (Centrality.betweennessCentrality pathABCD) "C" = Some (4 # 3)
  /\ ~ 4 # 3 <= 1.
Proof.
  repeat split; try reflexivity;
    intros Hle; unfold Qle in Hle; simpl in Hle; lia.
Qed.

Lemma bcInit_zero (l : list string) (bc : list (string * Q)) :
  Forall (fun e => snd e = 0) bc ->
  Forall (fun e => snd e = 0) (fold_left (fun bc node => JsMap.set bc node 0) l bc).
Proof.
  revert bc. induction l as [|x l IH]; intros bc Hbc; simpl; [exact Hbc|].
  apply IH. clear IH. induction bc as [|[k v] r IHr]; simpl.
  - repeat constructor.
  - inversion Hbc; subst. destruct (x =? k)%string; constructor; auto.
Qed.

Lemma bcInit_keys (l : list string) (bc : list (string * Q)) (n : string) :
  In n (JsMap.keys (fold_left (fun bc node => JsMap.set bc node 0) l bc))
  <-> In n (JsMap.keys bc) \/ In n l.
Proof.
  revert bc. induction l as [|x l IH]; intros bc; simpl; [tauto|].
  rewrite IH, in_keys_set. intuition.
Qed.

(** X1 (the second half of C1).  A graph with fewer than 3 nodes gets a map
    that has an entry for every node, all of them 0. *)
Theorem betweenness_small_graph_all_zero (g : Graph.SimpleGraph) :
  (JsSet.size (Graph.nodes g) < 3)%nat ->
  exists bc,
    Centrality.betweennessCentrality g = Some bc
    /\ (forall n, In n (JsMap.keys bc) <-> In n (Graph.nodes g))
    /\ Forall (fun e => snd e = 0) bc.
Proof.
  intros Hn. exists (Centrality.bcInit g).
  unfold Centrality.betweennessCentrality.
  apply Nat.ltb_lt in Hn. rewrite Hn. split; [reflexivity|]. split.
  - intros n. unfold Centrality.bcInit. rewrite bcInit_keys. simpl. tauto.
  - apply bcInit_zero. constructor.
Qed.

(** ** graph/cooccurrence.ts: the builders *)

(** C8 on the code: for two distinct entities with the ids [x] and [x|||x]
    the key of the pair is [x|||x|||x]; splitting it at [|||] gives [x] for
    both [source] and [target], and both builders add a self-loop on [x]. *)
Theorem cooccurrence_builders_self_loop :
  Cooccurrence.edgeKey "x" "x|||x" = "x|||x|||x"
  /\ JsString.split "|||" "x|||x|||x" = ["x"; "x"; "x"]
  /\ Graph.hasEdge
       (Cooccurrence.buildCooccurrenceGraph selfLoopEntities selfLoopText
          Cooccurrence.noOptions) "x" "x" = true
  /\ Graph.getEdgeWeight
       (Cooccurrence.buildCooccurrenceGraph selfLoopEntities selfLoopText
          Cooccurrence.noOptions) "x" "x" == 8
  /\ Graph.hasEdge
       (Cooccurrence.buildSentenceCooccurrenceGraph selfLoopEntities selfLoopText
          Cooccurrence.noOptions) "x" "x" = true
  /\ Graph.getEdgeWeight
       (Cooccurrence.buildSentenceCooccurrenceGraph selfLoopEntities selfLoopText
          Cooccurrence.noOptions) "x" "x" == 4.
Proof. repeat split. Qed.

(** ** graph/cooccurrence.ts: the builders on ids without [|] *)

Section EdgeKeyFacts.

Lemma append_empty (s : string) : (s ++ "")%string = s.
Proof. induction s as [|c r IH]; simpl; [reflexivity | now f_equal]. Qed.

Lemma append_char (s r : string) (c : ascii) :
  ((s ++ String c "") ++ r)%string = (s ++ String c r)%string.
Proof. induction s as [|d s IH]; simpl; [reflexivity | now f_equal]. Qed.

Lemma prefix_delimiter_other (c : ascii) (r : string) :
  Ascii.eqb c "|" = false -> String.prefix "|||" (String c r) = false.
Proof.
  intros Hc.
  change (String.prefix "|||" (String c r))
    with (if ascii_dec "|" c then String.prefix "||" r else false).
  destruct (ascii_dec "|" c) as [<-|]; [discriminate | reflexivity].
Qed.

Lemma splitFrom_noBar (s cur : string) :
  noBar s = true -> JsString.splitFrom "|||" s 0 cur = [(cur ++ s)%string].
Proof.
  revert cur. induction s as [|c r IH]; intros cur Hs.
  - simpl. now rewrite append_empty.
  - simpl in Hs. apply andb_true_iff in Hs. destruct Hs as [Hc Hr].
    apply negb_true_iff in Hc.
    cbn [JsString.splitFrom]. rewrite (prefix_delimiter_other c r Hc).
    rewrite (IH _ Hr). now rewrite append_char.
Qed.

Lemma splitFrom_joined (a b cur : string) :
  noBar a = true -> noBar b = true ->
  JsString.splitFrom "|||" (a ++ "|||" ++ b) 0 cur = [(cur ++ a)%string; b].
Proof.
  intros Ha Hb. revert cur. induction a as [|c r IH]; intros cur.
  - rewrite append_empty. simpl.
    destruct b as [|d b']; [reflexivity|].
    now rewrite (splitFrom_noBar (String d b') "" Hb).
  - simpl in Ha. apply andb_true_iff in Ha. destruct Ha as [Hc Hr].
    apply negb_true_iff in Hc.
    change ((String c r ++ "|||" ++ b)%string) with (String c (r ++ "|||" ++ b)).
    cbn [JsString.splitFrom]. rewrite (prefix_delimiter_other c _ Hc).
    rewrite (IH Hr). now rewrite append_char.
Qed.

Lemma split_edgeKey (a b : string) :
  noBar a = true -> noBar b = true ->
  JsString.split "|||" (Cooccurrence.edgeKey a b) = JsString.sortPair a b.
Proof.
  intros Ha Hb. unfold JsString.split, Cooccurrence.edgeKey, JsString.sortPair.
  destruct (String.ltb b a); cbn [JsString.join];
    now rewrite splitFrom_joined.
Qed.

End EdgeKeyFacts.

Section CountFacts.
Import Cooccurrence.

Lemma Forall_set {V : Type} (P : string * V -> Prop) (m : list (string * V))
  (k : string) (v : V) :
  Forall P m -> P (k, v) -> Forall P (JsMap.set m k v).
Proof.
  intros Hm Hk. induction m as [|[k' v'] r IH]; simpl.
  - repeat constructor. exact Hk.
  - inversion Hm; subst. destruct (k =? k')%string eqn:E.
    + apply String.eqb_eq in E. subst k'. constructor; auto.
    + constructor; auto.
Qed.

Lemma orElse_count_nonneg (co : list (string * Q)) (key : string) :
  Forall pairCount co -> 0 <= orElse (JsMap.get co key) 0.
Proof.
  intros Hco. unfold orElse. destruct (JsMap.get co key) as [x|] eqn:E.
  - apply get_Some_in in E. rewrite Forall_forall in Hco.
    destruct (Hco _ E) as [_ Hx]. simpl in Hx.
    destruct (Qeq_bool x 0); lra.
  - lra.
Qed.

Lemma increment_ok (co : list (string * Q)) (a b : string) :
  a <> b -> noBar a = true -> noBar b = true ->
  Forall pairCount co -> Forall pairCount (increment co (edgeKey a b)).
Proof.
  intros Hab Ha Hb Hco. unfold increment. apply Forall_set; [exact Hco|].
  split; simpl.
  - exists a, b. auto.
  - pose proof (orElse_count_nonneg co (edgeKey a b) Hco). lra.
Qed.

Lemma pairWithLater_ok (windowChars : Z) (mi : MentionWithEntity)
  (later : list MentionWithEntity) (co : list (string * Q)) :
  noBar (entityId mi) = true ->
  Forall (fun m => noBar (entityId m) = true) later ->
  Forall pairCount co ->
  Forall pairCount (pairWithLater windowChars mi later co).
Proof.
  intros Hi Hl. revert co. induction Hl as [|mj rest Hj Hrest IH]; intros co Hco; simpl.
  - exact Hco.
  - destruct (windowChars <? _)%Z; [exact Hco|].
    destruct (_ <? 0)%Z; [now apply IH|].
    destruct (entityId mi =? entityId mj)%string eqn:E; [now apply IH|].
    apply IH. apply increment_ok; auto.
    now apply String.eqb_neq.
Qed.

Lemma byCharWindow_ok (windowChars : Z) (mentions : list MentionWithEntity)
  (co : list (string * Q)) :
  Forall (fun m => noBar (entityId m) = true) mentions ->
  Forall pairCount co ->
  Forall pairCount (byCharWindow windowChars mentions co).
Proof.
  intros Hm. revert co. induction Hm as [|mi later Hi Hlater IH]; intros co Hco; simpl.
  - exact Hco.
  - apply IH. now apply pairWithLater_ok.
Qed.

Lemma pairWithLaterWords_ok (windowSize : Z) (mi : MentionWithEntity) (w1 : nat)
  (later : list (MentionWithEntity * option nat)) (co : list (string * Q)) :
  noBar (entityId mi) = true ->
  Forall (fun p => noBar (entityId (fst p)) = true) later ->
  Forall pairCount co ->
  Forall pairCount (pairWithLaterWords windowSize mi w1 later co).
Proof.
  intros Hi Hl. unfold pairWithLaterWords. revert co.
  induction Hl as [|[mj w2] rest Hj Hrest IH]; intros co Hco; simpl.
  - exact Hco.
  - apply IH. destruct w2 as [wordIndex2|]; [|exact Hco].
    destruct (windowSize <? _)%Z; [exact Hco|].
    destruct (entityId mi =? entityId mj)%string eqn:E; [exact Hco|].
    apply increment_ok; auto. now apply String.eqb_neq.
Qed.

Lemma byWordWindow_ok (windowSize : Z)
  (mentions : list (MentionWithEntity * option nat)) (co : list (string * Q)) :
  Forall (fun p => noBar (entityId (fst p)) = true) mentions ->
  Forall pairCount co ->
  Forall pairCount (byWordWindow windowSize mentions co).
Proof.
  intros Hm. revert co.
  induction Hm as [|[mi w1] later Hi Hlater IH]; intros co Hco; simpl.
  - exact Hco.
  - apply IH. destruct w1 as [wordIndex1|]; [|exact Hco].
    now apply pairWithLaterWords_ok.
Qed.

Lemma calculateCooccurrences_ok (mentions : list MentionWithEntity)
  (sourceText : string) (windowSize : Z) (usePositions : bool) :
  Forall (fun m => noBar (entityId m) = true) mentions ->
  Forall pairCount (calculateCooccurrences mentions sourceText windowSize usePositions).
Proof.
  intros Hm. unfold calculateCooccurrences. destruct usePositions.
  - apply byCharWindow_ok; [exact Hm | constructor].
  - apply byWordWindow_ok; [|constructor].
    unfold mapMentionsToWords. apply Forall_map.
    eapply Forall_impl; [|exact Hm]. auto.
Qed.

Lemma flattenMentions_ok (entities : list Types.Entity) :
  Forall (fun e => noBar (Types.id e) = true) entities ->
  Forall (fun m => noBar (entityId m) = true) (flattenMentions entities).
Proof.
  intros He. apply Forall_forall. intros m Hm.
  unfold flattenMentions in Hm. apply in_flat_map in Hm.
  destruct Hm as (e & Hin & Hm). apply in_map_iff in Hm.
  destruct Hm as (mention & <- & _). simpl.
  rewrite Forall_forall in He. now apply He.
Qed.

Lemma pairAll_ok (entities : list Types.Entity) (co : list (string * Q)) :
  Forall (fun e => noBar (Types.id e) = true) entities ->
  Forall pairCount co ->
  Forall pairCount (pairAll entities co).
Proof.
  intros He. revert co. induction He as [|ei later Hi Hlater IH]; intros co Hco; simpl.
  - exact Hco.
  - apply IH. clear IH. revert co Hco.
    induction Hlater as [|ej rest Hj Hrest IHr]; intros co Hco; simpl.
    + exact Hco.
    + apply IHr. destruct (Types.id ei =? Types.id ej)%string eqn:E; [exact Hco|].
      apply increment_ok; auto. now apply String.eqb_neq.
Qed.

Lemma scanSentences_ok (entities : list Types.Entity) (sentences : list string)
  (st : list (string * Q) * Z) :
  Forall (fun e => noBar (Types.id e) = true) entities ->
  Forall pairCount (fst st) ->
  Forall pairCount (fst (fold_left (scanSentence entities) sentences st)).
Proof.
  intros He. revert st. induction sentences as [|sentence rest IH]; intros st Hst; simpl.
  - exact Hst.
  - apply IH. destruct st as [co charOffset]. simpl.
    apply pairAll_ok; [|exact Hst].
    unfold entitiesIn. apply Forall_forall. intros e Hin.
    apply filter_In in Hin. rewrite Forall_forall in He. now apply He.
Qed.

End CountFacts.

Section GraphInvariantFacts.
Import Graph.

Lemma adjacency_addNode_any (g : SimpleGraph) (n x : string) :
  adjacency (addNode g n) x = adjacency g x.
Proof.
  unfold adjacency, addNode; simpl.
  destruct (JsMap.has (edges g) n) eqn:E; [reflexivity|].
  destruct (String.eqb n x) eqn:Ex.
  - apply String.eqb_eq in Ex. subst x. rewrite get_set_same.
    unfold JsMap.has in E. destruct (JsMap.get (edges g) n); [discriminate | reflexivity].
  - apply String.eqb_neq in Ex. now rewrite get_set_other.
Qed.

Lemma adjacency_set_other ns (es : list (string * list (string * Q))) k m x :
  k <> x ->
  adjacency (mkGraph ns (JsMap.set es k m)) x = adjacency (mkGraph ns es) x.
Proof. intros Hk. unfold adjacency; simpl. now rewrite get_set_other. Qed.

Lemma adjacency_nodes ns ns' (es : list (string * list (string * Q))) x :
  adjacency (mkGraph ns es) x = adjacency (mkGraph ns' es) x.
Proof. reflexivity. Qed.

Lemma get_set_cases (m : list (string * Q)) (k y : string) (v : Q) :
  JsMap.get (JsMap.set m k v) y = if String.eqb y k then Some v else JsMap.get m y.
Proof.
  destruct (String.eqb y k) eqn:E.
  - apply String.eqb_eq in E. subst. apply get_set_same.
  - apply String.eqb_neq in E. apply get_set_other. congruence.
Qed.

(** The adjacency maps after [addEdge] between two different nodes. *)
Lemma addEdge_get (g : SimpleGraph) (a b : string) (w : Q) (x y : string) :
  a <> b ->
  JsMap.get (adjacency (addEdge g a b w) x) y
  = if String.eqb x b && String.eqb y a
    then Some (orElse (JsMap.get (adjacency g b) a) 0 + w)
    else if String.eqb x a && String.eqb y b
         then Some (orElse (JsMap.get (adjacency g a) b) 0 + w)
         else JsMap.get (adjacency g x) y.
Proof.
  intros Hab. unfold addEdge. cbv zeta.
  set (g0 := addNode (addNode g a) b).
  assert (H0 : forall z, adjacency g0 z = adjacency g z).
  { intros z. unfold g0. now rewrite !adjacency_addNode_any. }
  destruct (String.eqb x b) eqn:Exb.
  - apply String.eqb_eq in Exb. subst x.
    rewrite adjacency_set.
    rewrite (adjacency_set_other _ _ a _ b Hab).
    fold (adjacency g0 b) in *.
    replace (adjacency {| nodes := nodes g0; edges := edges g0 |} b)
      with (adjacency g0 b) by reflexivity.
    rewrite !H0, get_set_cases.
    destruct (String.eqb y a) eqn:Eya; simpl; [reflexivity|].
    assert (Hba : String.eqb b a = false) by (apply String.eqb_neq; congruence).
    now rewrite Hba.
  - apply String.eqb_neq in Exb. simpl.
    rewrite adjacency_set_other by congruence.
    destruct (String.eqb x a) eqn:Exa.
    + apply String.eqb_eq in Exa. subst x.
      rewrite adjacency_set. rewrite !H0, get_set_cases.
      destruct (String.eqb y b); reflexivity.
    + apply String.eqb_neq in Exa. simpl.
      rewrite adjacency_set_other by congruence.
      replace (adjacency {| nodes := nodes g0; edges := edges g0 |} x)
        with (adjacency g0 x) by reflexivity.
      now rewrite H0.
Qed.

Lemma orElse_nonneg (o : option Q) : (forall v, o = Some v -> 0 <= v) -> 0 <= orElse o 0.
Proof.
  intros Ho. unfold orElse. destruct o as [x|]; [|lra].
  destruct (Qeq_bool x 0); [lra | now apply Ho].
Qed.

Lemma symmetricLoopFree_createGraph : symmetricLoopFree createGraph.
Proof. repeat split; intros; simpl in *; congruence. Qed.

Lemma symmetricLoopFree_addEdge (g : SimpleGraph) (a b : string) (w : Q) :
  a <> b -> 0 <= w -> symmetricLoopFree g -> symmetricLoopFree (addEdge g a b w).
Proof.
  intros Hab Hw (Hsym & Hloop & Hpos).
  assert (Hba : String.eqb b a = false) by (apply String.eqb_neq; congruence).
  assert (Hab' : String.eqb a b = false) by (now apply String.eqb_neq).
  repeat split.
  - intros x y. rewrite !addEdge_get by exact Hab.
    rewrite (Hsym b a), (Hsym x y).
    destruct (String.eqb x b) eqn:Exb, (String.eqb y a) eqn:Eya,
             (String.eqb x a) eqn:Exa, (String.eqb y b) eqn:Eyb;
      simpl; try reflexivity;
      repeat match goal with
             | E : String.eqb _ _ = true |- _ => apply String.eqb_eq in E
             end; subst; congruence.
  - intros x. rewrite addEdge_get by exact Hab.
    destruct (String.eqb x b) eqn:Exb, (String.eqb x a) eqn:Exa; simpl; auto;
      repeat match goal with
             | E : String.eqb _ _ = true |- _ => apply String.eqb_eq in E
             end; subst; congruence.
  - intros x y v. rewrite addEdge_get by exact Hab.
    pose proof (orElse_nonneg (JsMap.get (adjacency g b) a) (Hpos b a)) as H1.
    pose proof (orElse_nonneg (JsMap.get (adjacency g a) b) (Hpos a b)) as H2.
    destruct (_ && _); [intros [= <-]; lra|].
    destruct (_ && _); [intros [= <-]; lra|].
    apply Hpos.
Qed.

Lemma addEdges_ok (minWeight : Q) (co : list (string * Q)) (g : SimpleGraph) :
  Forall pairCount co -> symmetricLoopFree g ->
  symmetricLoopFree (Cooccurrence.addEdges minWeight co g).
Proof.
  intros Hco. unfold Cooccurrence.addEdges. revert g.
  induction Hco as [|[key weight] rest Hk Hrest IH]; intros g Hg; simpl.
  - exact Hg.
  - apply IH. destruct (Qle_bool minWeight weight); [|exact Hg].
    destruct Hk as [(a & b & Hab & Ha & Hb & Hkey) Hw]. simpl in Hkey, Hw.
    subst key. rewrite (split_edgeKey a b Ha Hb). unfold JsString.sortPair.
    destruct (String.ltb b a);
      apply symmetricLoopFree_addEdge; auto; try lra; congruence.
Qed.

End GraphInvariantFacts.

Section NormalizeFacts.
Import Graph Cooccurrence.

Lemma get_map_values {V W : Type} (f : V -> W) (m : list (string * V)) (k : string) :
  JsMap.get (map (fun '(key, v) => (key, f v)) m) k = option_map f (JsMap.get m k).
Proof.
  induction m as [|[k' v'] r IH]; simpl; [reflexivity|].
  destruct (k =? k')%string; [reflexivity | exact IH].
Qed.

Lemma Math_max_ge_l (a b : Q) : a <= Math_max a b.
Proof.
  unfold Math_max. destruct (Qle_bool a b) eqn:E; [|lra].
  now apply Qle_bool_iff.
Qed.

Lemma maxEdgeWeight_inner (neighbors : list (string * Q)) (acc : Q) :
  acc <= fold_left (fun maxWeight '(_, weight) => Math_max maxWeight weight)
                   neighbors acc.
Proof.
  revert acc. induction neighbors as [|[t w] r IH]; intros acc; simpl; [lra|].
  eapply Qle_trans; [apply (Math_max_ge_l acc w) | apply IH].
Qed.

Lemma maxEdgeWeight_outer (es : list (string * list (string * Q))) (acc : Q) :
  acc <= fold_left
           (fun maxWeight '(_, neighbors) =>
              fold_left (fun maxWeight '(_, weight) => Math_max maxWeight weight)
                        neighbors maxWeight)
           es acc.
Proof.
  revert acc. induction es as [|[s nb] r IH]; intros acc; simpl; [lra|].
  eapply Qle_trans; [apply (maxEdgeWeight_inner nb acc) | apply IH].
Qed.

Lemma maxEdgeWeight_nonneg (g : SimpleGraph) : 0 <= maxEdgeWeight g.
Proof. apply maxEdgeWeight_outer. Qed.

Lemma adjacency_normalize (g : SimpleGraph) (maxWeight : Q) (x : string) :
  adjacency
    (mkGraph (nodes g)
       (map (fun '(source, neighbors) =>
               (source, map (fun '(target, weight) => (target, weight / maxWeight))
                            neighbors))
            (edges g))) x
  = map (fun '(target, weight) => (target, weight / maxWeight)) (adjacency g x).
Proof.
  unfold adjacency; simpl.
  rewrite (get_map_values
             (fun neighbors : list (string * Q) =>
                map (fun '(target, weight) => (target, weight / maxWeight)) neighbors)).
  destruct (JsMap.get (edges g) x); reflexivity.
Qed.

Lemma normalizeWeights_ok (g : SimpleGraph) :
  symmetricLoopFree g -> symmetricLoopFree (normalizeWeights g).
Proof.
  intros (Hsym & Hloop & Hpos). unfold normalizeWeights.
  destruct (Qeq_bool (maxEdgeWeight g) 0) eqn:E; [repeat split; auto|].
  pose proof (maxEdgeWeight_nonneg g) as Hmax.
  repeat split.
  - intros a b. rewrite !adjacency_normalize, !get_map_values. now rewrite Hsym.
  - intros a. rewrite adjacency_normalize, get_map_values. now rewrite Hloop.
  - intros a b w. rewrite adjacency_normalize, get_map_values.
    destruct (JsMap.get (adjacency g a) b) as [v|] eqn:G; [|discriminate].
    intros [= <-]. apply Hpos in G.
    unfold Qdiv. apply Qmult_le_0_compat; [exact G|].
    now apply Qinv_le_0_compat.
Qed.

Lemma symmetricLoopFree_api (g : SimpleGraph) :
  symmetricLoopFree g ->
  (forall a b, getEdgeWeight g a b = getEdgeWeight g b a)
  /\ (forall a, hasEdge g a a = false)
  /\ (forall a b, 0 <= getEdgeWeight g a b).
Proof.
  intros (Hsym & Hloop & Hpos). repeat split.
  - intros a b. rewrite !getEdgeWeight_adjacency. now rewrite Hsym.
  - intros a. rewrite hasEdge_adjacency. unfold JsMap.has. now rewrite Hloop.
  - intros a b. rewrite getEdgeWeight_adjacency. apply orElse_nonneg. apply Hpos.
Qed.

End NormalizeFacts.

(** X3.  The graph invariant for the builders, on the inputs where it holds: when
    no entity id contains the character [|], every graph built by
    [buildCooccurrenceGraph] and [buildSentenceCooccurrenceGraph] has
    symmetric weights, no self-loop and no negative weight. *)
Theorem cooccurrence_builders_invariant_without_bar
  (entities : list Types.Entity) (sourceText : string)
  (options : Cooccurrence.CooccurrenceOptions) :
  Forall (fun e => noBar (Types.id e) = true) entities ->
  let g1 := Cooccurrence.buildCooccurrenceGraph entities sourceText options in
  let g2 := Cooccurrence.buildSentenceCooccurrenceGraph entities sourceText options in
  (symmetricLoopFree g1
   /\ (forall a b, Graph.getEdgeWeight g1 a b = Graph.getEdgeWeight g1 b a)
   /\ (forall a, Graph.hasEdge g1 a a = false)
   /\ (forall a b, 0 <= Graph.getEdgeWeight g1 a b))
  /\ (symmetricLoopFree g2
      /\ (forall a b, Graph.getEdgeWeight g2 a b = Graph.getEdgeWeight g2 b a)
      /\ (forall a, Graph.hasEdge g2 a a = false)
      /\ (forall a b, 0 <= Graph.getEdgeWeight g2 a b)).
Proof.
  intros He g1 g2.
  assert (H1 : symmetricLoopFree g1).
  { unfold g1, Cooccurrence.buildCooccurrenceGraph.
    set (co := Cooccurrence.calculateCooccurrences _ _ _ _).
    assert (Hco : Forall pairCount co).
    { apply calculateCooccurrences_ok.
      eapply Permutation_Forall; [symmetry; apply stableSort_perm|].
      now apply flattenMentions_ok. }
    pose proof (addEdges_ok (nullish (Cooccurrence.minWeight options) 2) co _ Hco
                  symmetricLoopFree_createGraph) as Hg.
    destruct (nullish (Cooccurrence.normalize options) false);
      [now apply normalizeWeights_ok | exact Hg]. }
  assert (H2 : symmetricLoopFree g2).
  { unfold g2, Cooccurrence.buildSentenceCooccurrenceGraph.
    apply addEdges_ok; [|apply symmetricLoopFree_createGraph].
    apply scanSentences_ok; [exact He | constructor]. }
  split; (split; [assumption | now apply symmetricLoopFree_api]).
Qed.

Lemma cooccurrence_builders_invariant_witness :
  Forall (fun e => noBar (Types.id e) = true) plainEntities
  /\ symmetricLoopFree
       (Cooccurrence.buildCooccurrenceGraph plainEntities selfLoopText
          Cooccurrence.noOptions)
  /\ symmetricLoopFree
       (Cooccurrence.buildSentenceCooccurrenceGraph plainEntities selfLoopText
          Cooccurrence.noOptions).
Proof.
  assert (He : Forall (fun e => noBar (Types.id e) = true) plainEntities).
  { repeat constructor. }
  pose proof (cooccurrence_builders_invariant_without_bar plainEntities selfLoopText
                Cooccurrence.noOptions He) as [[H1 _] [H2 _]].
  split; [exact He|]. split; [exact H1 | exact H2].
Defined.

(** ** graph/centrality.ts: the traversal ends within [bfsFuel] *)

Section BfsFacts.
Import Graph Centrality.

Lemma filter_length_drop {X : Type} (p p' : X -> bool) (l : list X) (w : X) :
  (forall x, p' x = true -> p x = true) ->
  In w l -> p w = true -> p' w = false ->
  (S (List.length (filter p' l)) <= List.length (filter p l))%nat.
Proof.
  intros Hmono. induction l as [|x r IH]; intros Hin Hw Hw'; [destruct Hin|].
  simpl. destruct Hin as [->|Hin].
  - rewrite Hw, Hw'. simpl. apply le_n_S.
    clear IH. induction r as [|y r IHr]; simpl; [lia|].
    destruct (p' y) eqn:E'.
    + rewrite (Hmono _ E'). simpl. lia.
    + destruct (p y); simpl; lia.
  - specialize (IH Hin Hw Hw').
    destruct (p' x) eqn:E'.
    + rewrite (Hmono _ E'). simpl. lia.
    + destruct (p x); simpl; lia.
Qed.

Lemma undiscovered_set (dist : list (string * Z)) (w x : string) (d : Z) :
  (0 <= d)%Z ->
  undiscovered (JsMap.set dist w d) x
  = if String.eqb x w then false else undiscovered dist x.
Proof.
  intros Hd. unfold undiscovered.
  destruct (String.eqb x w) eqn:E.
  - apply String.eqb_eq in E. subst. rewrite get_set_same. simpl.
    apply Z.ltb_ge. exact Hd.
  - apply String.eqb_neq in E. rewrite get_set_other by congruence. reflexivity.
Qed.

Lemma discovered_distance (dist : list (string * Z)) (v : string) :
  undiscovered dist v = false -> (0 <= nullish (JsMap.get dist v) 0)%Z.
Proof.
  unfold undiscovered. destruct (JsMap.get dist v) as [d|]; simpl.
  - intros E. now apply Z.ltb_ge in E.
  - discriminate.
Qed.

Lemma visitNeighbor_frame (v : string) (st : BfsState) (w : string) :
  distance (visitNeighbor v st w)
  = (if undiscovered (distance st) w
     then JsMap.set (distance st) w (nullish (JsMap.get (distance st) v) 0 + 1)%Z
     else distance st)
  /\ queue (visitNeighbor v st w)
     = (if undiscovered (distance st) w then queue st ++ [w] else queue st).
Proof.
  unfold visitNeighbor, undiscovered.
  destruct (nullish (JsMap.get (distance st) w) (-1) <? 0)%Z;
    match goal with
    | |- context [if option_eqb ?a ?b then _ else _] => destruct (option_eqb a b)
    end; split; reflexivity.
Qed.

Lemma visitNeighbor_pending (g : SimpleGraph) (v : string) (st : BfsState) (w : string) :
  undiscovered (distance st) v = false ->
  In w (neighbourEntries g) ->
  queuedDiscovered st ->
  (pending g (visitNeighbor v st w) <= pending g st)%nat
  /\ queuedDiscovered (visitNeighbor v st w)
  /\ undiscovered (distance (visitNeighbor v st w)) v = false.
Proof.
  intros Hv Hw Hq. unfold pending, queuedDiscovered in *.
  destruct (visitNeighbor_frame v st w) as [Hd Hqu]. rewrite Hd, Hqu.
  pose proof (discovered_distance _ _ Hv) as Hdv.
  destruct (undiscovered (distance st) w) eqn:Ew.
  - assert (Hpos : (0 <= nullish (JsMap.get (distance st) v) 0 + 1)%Z) by lia.
    split; [|split].
    + rewrite length_app. simpl.
      pose proof (filter_length_drop
                    (undiscovered (distance st))
                    (undiscovered (JsMap.set (distance st) w
                                     (nullish (JsMap.get (distance st) v) 0 + 1)%Z))
                    (neighbourEntries g) w) as Hdrop.
      assert (S (List.length (filter (undiscovered (JsMap.set (distance st) w
                                         (nullish (JsMap.get (distance st) v) 0 + 1)%Z))
                                 (neighbourEntries g)))
              <= List.length (filter (undiscovered (distance st)) (neighbourEntries g)))%nat.
      { apply Hdrop; auto.
        - intros x. rewrite undiscovered_set by exact Hpos.
          destruct (String.eqb x w); [discriminate | auto].
        - rewrite undiscovered_set by exact Hpos. now rewrite String.eqb_refl. }
      lia.
    + apply Forall_app. split.
      * eapply Forall_impl; [|exact Hq]. intros x Hx. simpl in Hx.
        rewrite undiscovered_set by exact Hpos.
        destruct (String.eqb x w); [reflexivity | exact Hx].
      * repeat constructor. rewrite undiscovered_set by exact Hpos.
        now rewrite String.eqb_refl.
    + rewrite undiscovered_set by exact Hpos.
      destruct (String.eqb v w); [reflexivity | exact Hv].
  - auto.
Qed.

Lemma visitNeighbors_pending (g : SimpleGraph) (v : string) (ws : list string)
  (st : BfsState) :
  undiscovered (distance st) v = false ->
  (forall w, In w ws -> In w (neighbourEntries g)) ->
  queuedDiscovered st ->
  (pending g (fold_left (visitNeighbor v) ws st) <= pending g st)%nat
  /\ queuedDiscovered (fold_left (visitNeighbor v) ws st).
Proof.
  revert st. induction ws as [|w r IH]; intros st Hv Hws Hq; simpl; [auto|].
  destruct (visitNeighbor_pending g v st w Hv (Hws w (or_introl eq_refl)) Hq)
    as (Hp & Hq' & Hv').
  destruct (IH (visitNeighbor v st w) Hv' (fun x Hx => Hws x (or_intror Hx)) Hq')
    as [Hp2 Hq2].
  split; [lia | exact Hq2].
Qed.

Lemma getNeighbors_entries (g : SimpleGraph) (v w : string) :
  In w (getNeighbors g v) -> In w (neighbourEntries g).
Proof.
  unfold getNeighbors, neighbourEntries.
  destruct (JsMap.get (edges g) v) as [m|] eqn:E; [|intros []].
  intros Hw. apply in_flat_map. exists (v, m). split; [|exact Hw].
  now apply get_Some_in.
Qed.

Lemma bfsLoop_total (g : SimpleGraph) (fuel : nat) (st : BfsState) :
  queuedDiscovered st -> (pending g st <= fuel)%nat ->
  exists st', bfsLoop fuel g st = Some st'.
Proof.
  revert st. induction fuel as [|fuel IH]; intros st Hq Hp.
  - unfold pending in Hp. destruct st as [stk preds sg dist q].
    destruct q as [|v rest]; simpl in *; [eauto | lia].
  - destruct st as [stk preds sg dist q].
    destruct q as [|v rest]; [simpl; eauto|].
    cbn [bfsLoop queue stack predecessors sigma distance].
    unfold queuedDiscovered in Hq. simpl in Hq. inversion Hq as [|? ? Hv Hrest]; subst.
    set (st1 := mkBfs (stk ++ [v]) preds sg dist rest).
    destruct (visitNeighbors_pending g v (getNeighbors g v) st1) as [Hp' Hq'].
    + exact Hv.
    + intros w. apply getNeighbors_entries.
    + exact Hrest.
    + apply IH; [exact Hq'|].
      unfold pending in *. simpl in *. lia.
Qed.

Lemma bfsFuel_entries (g : SimpleGraph) :
  bfsFuel g = S (List.length (neighbourEntries g)).
Proof.
  unfold bfsFuel, neighbourEntries. f_equal.
  assert (Hgen : forall es acc,
             fold_left (fun acc (e : string * list (string * Q)) =>
                          (acc + JsMap.size (snd e))%nat) es acc
             = (acc + List.length (flat_map (fun e => JsMap.keys (snd e)) es))%nat).
  { induction es as [|e r IH]; intros acc; simpl; [lia|].
    rewrite IH, length_app. unfold JsMap.size, JsMap.keys. rewrite length_map. lia. }
  apply (Hgen (edges g) 0%nat).
Qed.

Lemma fromSource_total (g : SimpleGraph) (bc : list (string * Q)) (source : string) :
  exists bc', fromSource g bc source = Some bc'.
Proof.
  unfold fromSource.
  destruct (bfsLoop_total g (bfsFuel g) (initBfs g source)) as [st' Hst'].
  - unfold queuedDiscovered, initBfs. simpl. repeat constructor.
    unfold undiscovered. now rewrite get_set_same.
  - rewrite bfsFuel_entries. unfold pending, initBfs. simpl.
    apply le_n_S. apply filter_length_le.
  - rewrite Hst'. eauto.
Qed.

End BfsFacts.

(** X2.  [betweennessCentrality] returns a map on every graph: the fuel of
    the traversal never runs out. *)
Theorem betweennessCentrality_total (g : Graph.SimpleGraph) :
  exists bc, Centrality.betweennessCentrality g = Some bc.
Proof.
  unfold Centrality.betweennessCentrality.
  destruct (JsSet.size (Graph.nodes g) <? 3)%nat; [eauto|].
  assert (Hfold : forall sources bc,
             exists bc',
               fold_left
                 (fun obc source =>
                    match obc with
                    | Some bc => Centrality.fromSource g bc source
                    | None => None
                    end)
                 sources (Some bc) = Some bc').
  { induction sources as [|s r IH]; intros bc; simpl; [eauto|].
    destruct (fromSource_total g bc s) as [bc1 ->]. apply IH. }
  destruct (Hfold (Graph.nodes g) (Centrality.bcInit g)) as [bc' ->].
  destruct (2 <? JsSet.size (Graph.nodes g))%nat; eauto.
Qed.

(** ** extraction/ensemble.ts: "ML" against "Machine Learning" *)

Lemma matches_ML_Machine_Learning (this : Ensemble.EnsembleAggregator)
  (target candidate : Ensemble.EntityWithProvenance) :
  Types.name (Ensemble.base target) = "ML" ->
  Types.name (Ensemble.base candidate) = "Machine Learning" ->
  1 # 8 < Ensemble.nameMatchThreshold this ->
  Ensemble.matches this target candidate = false.
Proof.
  intros Ht Hc Hthr. unfold Ensemble.matches. rewrite Ht, Hc.
  change (JsString.toLowerCase "ML") with "ml".
  change (JsString.toLowerCase "Machine Learning") with "machine learning".
  change (Ensemble.exactMatch "ml" "machine learning") with false.
  cbv iota.
  assert (Hf : Ensemble.fuzzyMatch this target candidate "ml" "machine learning" = false).
  { unfold Ensemble.fuzzyMatch.
    change (Ensemble.stringSimilarity "ml" "machine learning") with (2 # 16).
    destruct (Qle_bool (Ensemble.nameMatchThreshold this) (2 # 16)) eqn:E;
      [|reflexivity].
    apply Qle_bool_iff in E. exfalso.
    assert (2 # 16 == 1 # 8) by reflexivity. lra. }
  rewrite Hf. reflexivity.
Qed.

(** X4.  Whatever else the two lists hold and whatever the types are, an entity
    named "ML" is never matched with an entity named "Machine Learning" when
    the similarity 1/8 is below the threshold. *)
Theorem ML_never_matched_with_Machine_Learning (this : Ensemble.EnsembleAggregator)
  (target found : Ensemble.EntityWithProvenance)
  (candidates : list Ensemble.EntityWithProvenance) :
  Types.name (Ensemble.base target) = "ML" ->
  1 # 8 < Ensemble.nameMatchThreshold this ->
  Ensemble.findMatch this target candidates = Some found ->
  Types.name (Ensemble.base found) <> "Machine Learning".
Proof.
  intros Ht Hthr Hf Hname.
  destruct (findMatch_first _ _ _ _ Hf) as (before & after & _ & Hm & _).
  rewrite (matches_ML_Machine_Learning this target found Ht Hname Hthr) in Hm.
  discriminate.
Qed.

Lemma ML_never_matched_witness :
  Types.name (Ensemble.base machineLearningShort) = "ML"
  /\ 1 # 8 < Ensemble.nameMatchThreshold defaultAggregator
  /\ Ensemble.findMatch defaultAggregator machineLearningShort
       [machineLearningLong; machineLearningLower] = Some machineLearningLower
  /\ Types.name (Ensemble.base machineLearningLower) <> "Machine Learning".
Proof.
  assert (H1 : Types.name (Ensemble.base machineLearningShort) = "ML") by reflexivity.
  assert (H2 : 1 # 8 < Ensemble.nameMatchThreshold defaultAggregator) by reflexivity.
  assert (H3 : Ensemble.findMatch defaultAggregator machineLearningShort
                 [machineLearningLong; machineLearningLower]
               = Some machineLearningLower) by reflexivity.
  repeat split; auto.
  exact (ML_never_matched_with_Machine_Learning defaultAggregator machineLearningShort
           machineLearningLower [machineLearningLong; machineLearningLower] H1 H2 H3).
Defined.

Lemma betweenness_small_graph_witness :
  (JsSet.size (Graph.nodes (Graph.addEdge Graph.createGraph "A" "B" 1)) < 3)%nat
  /\ exists bc,
       Centrality.betweennessCentrality (Graph.addEdge Graph.createGraph "A" "B" 1)
       = Some bc
       /\ (forall n, In n (JsMap.keys bc)
                     <-> In n (Graph.nodes (Graph.addEdge Graph.createGraph "A" "B" 1)))
       /\ Forall (fun e => snd e = 0) bc.
Proof.
  assert (Hn : (JsSet.size (Graph.nodes (Graph.addEdge Graph.createGraph "A" "B" 1)) < 3)%nat).
  { vm_compute. lia. }
  split; [exact Hn|].
  exact (betweenness_small_graph_all_zero _ Hn).
Defined.

(** ** The graph store: the shape of built graphs *)

Section WellFormedFacts.
Import Graph.

Lemma wellFormed_createGraph : wellFormed createGraph.
Proof.
  repeat split; simpl; try constructor; try tauto; discriminate.
Qed.

Lemma wellFormed_addNode (g : SimpleGraph) (n : string) :
  wellFormed g -> wellFormed (addNode g n).
Proof.
  intros (Hn & Hk & Hsame & Hadj). unfold addNode.
  destruct (JsMap.has (edges g) n) eqn:E.
  - assert (Hin : In n (nodes g)) by (apply Hsame; now apply has_in_keys).
    assert (Hadd : JsSet.add (nodes g) n = nodes g).
    { unfold JsSet.add. apply set_has_in in Hin. now rewrite Hin. }
    rewrite Hadd. repeat split; auto; apply Hsame || apply (Hadj s m); auto.
  - assert (Hnot : ~ In n (JsMap.keys (edges g))).
    { intros Hin. apply has_in_keys in Hin. congruence. }
    split; [now apply NoDup_set_add|].
    split; [now apply NoDup_keys_set|].
    split.
    + intros x. simpl. rewrite in_keys_set, in_set_add, Hsame. tauto.
    + intros s m. simpl. intros Hget.
      destruct (String.eqb n s) eqn:Es.
      * apply String.eqb_eq in Es. subst s. rewrite get_set_same in Hget.
        injection Hget as <-. split; [constructor | intros t []].
      * apply String.eqb_neq in Es. rewrite get_set_other in Hget by exact Es.
        destruct (Hadj s m Hget) as [H1 H2]. split; [exact H1|].
        intros t Ht. apply in_set_add. right. now apply H2.
Qed.

(** One of the two writes of [addEdge]. *)
Lemma wellFormed_setAdjacency (g : SimpleGraph) (s t : string) (v : Q) :
  wellFormed g -> In s (nodes g) -> In t (nodes g) ->
  wellFormed
    (mkGraph (nodes g) (JsMap.set (edges g) s (JsMap.set (adjacency g s) t v))).
Proof.
  intros (Hn & Hk & Hsame & Hadj) Hs Ht.
  assert (Hsk : In s (JsMap.keys (edges g))) by now apply Hsame.
  split; [exact Hn|]. simpl.
  rewrite (set_present _ _ _ Hsk).
  split; [exact Hk|]. split; [exact Hsame|].
  intros x m Hget.
  destruct (String.eqb s x) eqn:Es.
  - apply String.eqb_eq in Es. subst x. rewrite get_set_same in Hget.
    injection Hget as <-.
    assert (Hold : NoDup (JsMap.keys (adjacency g s))
                   /\ forall y, In y (JsMap.keys (adjacency g s)) -> In y (nodes g)).
    { unfold adjacency. destruct (JsMap.get (edges g) s) as [m0|] eqn:E0.
      - now apply (Hadj s).
      - split; [constructor | intros y []]. }
    destruct Hold as [H1 H2]. split; [now apply NoDup_keys_set|].
    intros y Hy. apply in_keys_set in Hy. destruct Hy as [->|Hy]; auto.
  - apply String.eqb_neq in Es. rewrite get_set_other in Hget by exact Es.
    now apply (Hadj x).
Qed.

Lemma nodes_addNode_in (g : SimpleGraph) (n x : string) :
  In x (nodes (addNode g n)) <-> x = n \/ In x (nodes g).
Proof. unfold addNode; simpl. apply in_set_add. Qed.

Lemma wellFormed_addEdge (g : SimpleGraph) (a b : string) (w : Q) :
  wellFormed g -> wellFormed (addEdge g a b w).
Proof.
  intros Hg. unfold addEdge. cbv zeta.
  set (g0 := addNode (addNode g a) b).
  assert (H0 : wellFormed g0) by (unfold g0; now repeat apply wellFormed_addNode).
  assert (Ha : In a (nodes g0)).
  { unfold g0. rewrite !nodes_addNode_in. auto. }
  assert (Hb : In b (nodes g0)).
  { unfold g0. rewrite !nodes_addNode_in. auto. }
  set (v1 := (orElse (JsMap.get (adjacency g0 a) b) 0 + w)%Q).
  pose proof (wellFormed_setAdjacency g0 a b v1 H0 Ha Hb) as H1.
  set (g1 := mkGraph (nodes g0)
                     (JsMap.set (edges g0) a (JsMap.set (adjacency g0 a) b v1))) in *.
  exact (wellFormed_setAdjacency g1 b a _ H1 Hb Ha).
Qed.

Lemma symmetricLoopFree_loopFree (g : SimpleGraph) :
  symmetricLoopFree g -> loopFree g.
Proof. intros (_ & Hloop & _). exact Hloop. Qed.

Lemma degree_bound (g : SimpleGraph) (n : string) :
  wellFormed g -> loopFree g -> In n (nodes g) ->
  (S (getDegree g n) <= List.length (nodes g))%nat.
Proof.
  intros (Hn & Hk & Hsame & Hadj) Hloop Hin.
  unfold getDegree. specialize (Hloop n). unfold adjacency in Hloop.
  destruct (JsMap.get (edges g) n) as [m|] eqn:E.
  - destruct (Hadj n m E) as [H1 H2].
    apply get_None_notin in Hloop.
    unfold JsMap.size. rewrite <- (length_map fst m).
    change (S (List.length (map fst m))) with (List.length (n :: JsMap.keys m)).
    apply NoDup_incl_length.
    + constructor; assumption.
    + intros x [<-|Hx]; auto.
  - destruct (nodes g); [destruct Hin | simpl; lia].
Qed.

End WellFormedFacts.

(** X5.  The graph store keeps its shape: the empty graph is well formed, and
    [addNode] and [addEdge] turn a well-formed graph into a well-formed one
    (every node has an adjacency map, every neighbour is a node, nothing is
    listed twice). *)
Theorem graph_store_keeps_shape :
  wellFormed Graph.createGraph
  /\ (forall g n, wellFormed g -> wellFormed (Graph.addNode g n))
  /\ (forall g a b w, wellFormed g -> wellFormed (Graph.addEdge g a b w)).
Proof.
  split; [apply wellFormed_createGraph|].
  split; [apply wellFormed_addNode | apply wellFormed_addEdge].
Qed.

(** X6.  [addEdge] between two different nodes: both directions are present
    afterwards, each stored weight has grown by the given weight, both end
    points are nodes, and no other pair of nodes is touched. *)
Theorem addEdge_lookup (g : Graph.SimpleGraph) (a b : string) (w : Q) :
  a <> b ->
  Graph.hasEdge (Graph.addEdge g a b w) a b = true
  /\ Graph.hasEdge (Graph.addEdge g a b w) b a = true
  /\ Graph.getEdgeWeight (Graph.addEdge g a b w) a b == Graph.getEdgeWeight g a b + w
  /\ Graph.getEdgeWeight (Graph.addEdge g a b w) b a == Graph.getEdgeWeight g b a + w
  /\ In a (Graph.nodes (Graph.addEdge g a b w))
  /\ In b (Graph.nodes (Graph.addEdge g a b w))
  /\ (forall x y, ~ (x = a /\ y = b) -> ~ (x = b /\ y = a) ->
        Graph.getEdgeWeight (Graph.addEdge g a b w) x y = Graph.getEdgeWeight g x y
        /\ Graph.hasEdge (Graph.addEdge g a b w) x y = Graph.hasEdge g x y).
Proof.
  intros Hab.
  assert (Hba : String.eqb b a = false) by (apply String.eqb_neq; congruence).
  assert (Hab' : String.eqb a b = false) by (now apply String.eqb_neq).
  rewrite !hasEdge_adjacency, !getEdgeWeight_adjacency. unfold JsMap.has.
  rewrite !addEdge_get by exact Hab.
  rewrite !String.eqb_refl, Hba, Hab'. cbn [andb].
  split; [reflexivity|]. split; [reflexivity|].
  split; [now rewrite orElse_zero_id|]. split; [now rewrite orElse_zero_id|].
  split. { unfold Graph.addEdge; simpl. rewrite !in_set_add. auto. }
  split. { unfold Graph.addEdge; simpl. rewrite !in_set_add. auto. }
  intros x y H1 H2.
  rewrite !hasEdge_adjacency, !getEdgeWeight_adjacency. unfold JsMap.has.
  rewrite !addEdge_get by exact Hab.
  destruct (String.eqb x b) eqn:Exb, (String.eqb y a) eqn:Eya; simpl;
    try (apply String.eqb_eq in Exb); try (apply String.eqb_eq in Eya);
    try (exfalso; apply H2; now split).
  all: destruct (String.eqb x a) eqn:Exa, (String.eqb y b) eqn:Eyb; simpl;
    try (apply String.eqb_eq in Exa); try (apply String.eqb_eq in Eyb);
    try (exfalso; apply H1; now split); split; reflexivity.
Qed.

Lemma addEdge_lookup_witness :
  "A" <> "B"
  /\ Graph.getEdgeWeight (Graph.addEdge pathABC "A" "B" (1 # 2)) "A" "B"
     == Graph.getEdgeWeight pathABC "A" "B" + (1 # 2).
Proof.
  assert (Hne : "A" <> "B") by discriminate.
  split; [exact Hne|].
  exact (proj1 (proj2 (proj2 (addEdge_lookup pathABC "A" "B" (1 # 2) Hne)))).
Defined.

(** ** graph/centrality.ts: degree centrality and density *)

Section DegreeFacts.
Import Graph.

Lemma fold_set_fresh {V : Type} (f : string -> V) (l : list string)
  (acc : list (string * V)) :
  NoDup (JsMap.keys acc ++ l) ->
  fold_left (fun m x => JsMap.set m x (f x)) l acc
  = acc ++ map (fun x => (x, f x)) l.
Proof.
  revert acc. induction l as [|x l IH]; intros acc Hnd; simpl.
  - now rewrite app_nil_r.
  - rewrite set_absent.
    + rewrite IH.
      * now rewrite <- app_assoc.
      * unfold JsMap.keys in *. rewrite map_app, <- app_assoc. exact Hnd.
    + apply NoDup_remove_2 in Hnd. intros Hin. apply Hnd.
      apply in_or_app. now left.
Qed.

Lemma get_map_pairs {V : Type} (f : string -> V) (l : list string) (x : string) (v : V) :
  JsMap.get (map (fun y => (y, f y)) l) x = Some v -> In x l /\ v = f x.
Proof.
  induction l as [|y l IH]; simpl; [discriminate|].
  destruct (String.eqb x y) eqn:E.
  - apply String.eqb_eq in E. subst y. intros [= <-]. auto.
  - intros Hget. destruct (IH Hget). auto.
Qed.

Lemma natQ_nonneg (n : nat) : 0 <= Communities.natQ n.
Proof.
  unfold Communities.natQ. change 0 with (inject_Z 0). rewrite <- Zle_Qle. lia.
Qed.

Lemma natQ_le (m n : nat) : (m <= n)%nat -> Communities.natQ m <= Communities.natQ n.
Proof. intros H. unfold Communities.natQ. rewrite <- Zle_Qle. lia. Qed.

Lemma In_get_NoDup {V : Type} (m : list (string * V)) (k : string) (v : V) :
  NoDup (JsMap.keys m) -> In (k, v) m -> JsMap.get m k = Some v.
Proof.
  induction m as [|[k' v'] r IH]; simpl; [tauto|].
  intros Hnd [Heq|Hin].
  - injection Heq as -> ->. now rewrite String.eqb_refl.
  - inversion Hnd as [|? ? Hk Hr]; subst.
    destruct (String.eqb k k') eqn:E.
    + apply String.eqb_eq in E. subst k'. exfalso. apply Hk.
      change k with (fst (k, v)). now apply in_map.
    + now apply IH.
Qed.

Lemma adjacencyEntries_bound (g : SimpleGraph) :
  wellFormed g -> loopFree g ->
  (GraphMeasures.adjacencyEntries g
   <= List.length (nodes g) * (List.length (nodes g) - 1))%nat.
Proof.
  intros Hg Hloop.
  pose proof Hg as (Hn & Hk & Hsame & Hadj).
  assert (Hlen : List.length (edges g) = List.length (nodes g)).
  { rewrite <- (length_map fst (edges g)). apply Permutation_length.
    apply NoDup_Permutation; auto. }
  assert (Hsize : forall s m, In (s, m) (edges g) ->
                    (JsMap.size m <= List.length (nodes g) - 1)%nat).
  { intros s m Hin.
    pose proof (In_get_NoDup _ _ _ Hk Hin) as Hget.
    assert (Hs : In s (nodes g)).
    { apply Hsame. change s with (fst (s, m)). now apply in_map. }
    pose proof (degree_bound g s Hg Hloop Hs) as Hd.
    unfold getDegree in Hd. rewrite Hget in Hd. lia. }
  unfold GraphMeasures.adjacencyEntries.
  assert (Hgen : forall (es : list (string * list (string * Q))) acc,
             (forall s m, In (s, m) es ->
                (JsMap.size m <= List.length (nodes g) - 1)%nat) ->
             (fold_left (fun count '(_, neighbors) => count + JsMap.size neighbors)
                        es acc
              <= acc + List.length es * (List.length (nodes g) - 1))%nat).
  { induction es as [|[s m] r IH]; intros acc Hes; simpl; [lia|].
    etransitivity; [apply IH; intros; eapply Hes; right; eauto|].
    specialize (Hes s m (or_introl eq_refl)). lia. }
  pose proof (Hgen (edges g) 0%nat Hsize) as Hfin.
  rewrite Hlen in Hfin. exact Hfin.
Qed.

End DegreeFacts.

(** On a well-formed graph without self-loops, [degreeCentrality] gives
    every node exactly one score, and every score lies in [0, 1]. *)
Lemma degreeCentrality_bounds (g : Graph.SimpleGraph) :
  wellFormed g -> loopFree g ->
  JsMap.keys (CentralityMeasures.degreeCentrality g) = Graph.nodes g
  /\ forall node v,
       JsMap.get (CentralityMeasures.degreeCentrality g) node = Some v ->
       0 <= v /\ v <= 1.
Proof.
  intros Hg Hloop. pose proof Hg as (Hn & _).
  unfold CentralityMeasures.degreeCentrality.
  rewrite fold_set_fresh by exact Hn. simpl app. split.
  - unfold JsMap.keys. rewrite map_map. simpl. apply map_id.
  - intros node v Hget. apply get_map_pairs in Hget. destruct Hget as [Hin ->].
    pose proof (degree_bound g node Hg Hloop Hin) as Hd.
    unfold JsSet.size.
    destruct (0 <? Z.of_nat (List.length (Graph.nodes g)) - 1)%Z eqn:E;
      [|split; lra].
    apply Z.ltb_lt in E.
    assert (Hpos : 0 < inject_Z (Z.of_nat (List.length (Graph.nodes g)) - 1)).
    { change 0 with (inject_Z 0). rewrite <- Zlt_Qlt. exact E. }
    split.
    + apply Qle_shift_div_l; [exact Hpos|]. rewrite Qmult_0_l. apply natQ_nonneg.
    + apply Qle_shift_div_r; [exact Hpos|]. rewrite Qmult_1_l.
      unfold Communities.natQ. rewrite <- Zle_Qle. lia.
Qed.

(** X8.  On a well-formed graph without self-loops the density lies in
    [0, 1]; a graph with fewer than two nodes has density 0. *)
Theorem getGraphDensity_bounds (g : Graph.SimpleGraph) :
  wellFormed g -> loopFree g ->
  0 <= GraphMeasures.getGraphDensity g
  /\ GraphMeasures.getGraphDensity g <= 1
  /\ ((JsSet.size (Graph.nodes g) < 2)%nat -> GraphMeasures.getGraphDensity g = 0).
Proof.
  intros Hg Hloop. unfold GraphMeasures.getGraphDensity, JsSet.size.
  pose proof (adjacencyEntries_bound g Hg Hloop) as Hb.
  destruct (List.length (Graph.nodes g) <? 2)%nat eqn:E.
  - repeat split; lra.
  - apply Nat.ltb_ge in E.
    set (n := List.length (Graph.nodes g)) in *.
    assert (Hn : 2 <= Communities.natQ n).
    { change 2 with (Communities.natQ 2). now apply natQ_le. }
    assert (Hmax : 0 < Communities.natQ n * (Communities.natQ n - 1) / 2).
    { apply Qlt_shift_div_l; [lra|]. nra. }
    unfold GraphMeasures.getEdgeCount.
    pose proof (natQ_nonneg (GraphMeasures.adjacencyEntries g)) as He.
    assert (Hle : Communities.natQ (GraphMeasures.adjacencyEntries g)
                  <= Communities.natQ n * (Communities.natQ n - 1)).
    { apply natQ_le in Hb. eapply Qle_trans; [exact Hb|].
      unfold Communities.natQ. rewrite Nat2Z.inj_mul, Nat2Z.inj_sub by lia.
      rewrite inject_Z_mult. unfold Zminus. rewrite inject_Z_plus. simpl.
      apply Qle_refl. }
    split; [|split].
    + apply Qle_shift_div_l; [exact Hmax|]. rewrite Qmult_0_l.
      apply Qle_shift_div_l; [lra|]. lra.
    + apply Qle_shift_div_r; [exact Hmax|]. rewrite Qmult_1_l.
      unfold Qdiv. apply Qmult_le_compat_r; [exact Hle|].
      unfold Qle; simpl; lia.
    + intros Hlt. lia.
Qed.

Lemma getGraphDensity_bounds_witness :
  wellFormed pathABC /\ loopFree pathABC
  /\ 0 <= GraphMeasures.getGraphDensity pathABC
  /\ GraphMeasures.getGraphDensity pathABC <= 1.
Proof.
  assert (Hw : wellFormed pathABC).
  { unfold pathABC. repeat apply wellFormed_addEdge. apply wellFormed_createGraph. }
  assert (Hl : loopFree pathABC).
  { apply symmetricLoopFree_loopFree. unfold pathABC.
    repeat (apply symmetricLoopFree_addEdge; [discriminate | lra |]).
    apply symmetricLoopFree_createGraph. }
  split; [exact Hw|]. split; [exact Hl|].
  pose proof (getGraphDensity_bounds pathABC Hw Hl) as (H1 & H2 & _).
  split; [exact H1 | exact H2].
Defined.

(** ** graph/centrality.ts: closeness *)

Section ClosenessFacts.
Import Graph CentralityMeasures.

Lemma visitForDistance_pending (g : SimpleGraph) (d : Z) (st : DistanceState)
  (w : string) :
  In w (neighbourEntries g) ->
  (pendingDistance g (visitForDistance d st w) <= pendingDistance g st)%nat.
Proof.
  intros Hw. unfold visitForDistance, pendingDistance.
  destruct (JsSet.has (visited st) w) eqn:E; simpl; [lia|].
  rewrite length_app. simpl.
  pose proof (filter_length_drop
                (fun x => negb (JsSet.has (visited st) x))
                (fun x => negb (JsSet.has (JsSet.add (visited st) w) x))
                (neighbourEntries g) w) as Hdrop.
  assert (S (List.length (filter (fun x => negb (JsSet.has (JsSet.add (visited st) w) x))
                                 (neighbourEntries g)))
          <= List.length (filter (fun x => negb (JsSet.has (visited st) x))
                                 (neighbourEntries g)))%nat.
  { apply Hdrop; auto.
    - intros x Hx. apply negb_true_iff in Hx. apply negb_true_iff.
      destruct (JsSet.has (visited st) x) eqn:Ex; [|reflexivity].
      apply set_has_in in Ex.
      assert (Hin : In x (JsSet.add (visited st) w)) by (apply in_set_add; auto).
      apply set_has_in in Hin. congruence.
    - now rewrite E.
    - apply negb_false_iff. apply set_has_in. apply in_set_add. auto. }
  lia.
Qed.

Lemma visitAllForDistance_pending (g : SimpleGraph) (d : Z) (ws : list string)
  (st : DistanceState) :
  (forall w, In w ws -> In w (neighbourEntries g)) ->
  (pendingDistance g (fold_left (visitForDistance d) ws st) <= pendingDistance g st)%nat.
Proof.
  revert st. induction ws as [|w r IH]; intros st Hws; simpl; [lia|].
  etransitivity; [apply IH; intros; apply Hws; now right|].
  apply visitForDistance_pending. apply Hws. now left.
Qed.

Lemma distanceLoop_total (g : SimpleGraph) (fuel : nat) (st : DistanceState) :
  (pendingDistance g st <= fuel)%nat ->
  exists st', distanceLoop fuel g st = Some st'.
Proof.
  revert st. induction fuel as [|fuel IH]; intros [dist vis q] Hp.
  - unfold pendingDistance in Hp. destruct q as [|[v d] rest]; simpl in *; [eauto | lia].
  - destruct q as [|[v d] rest]; [simpl; eauto|].
    cbn [distanceLoop queue distances visited].
    apply IH.
    etransitivity;
      [apply visitAllForDistance_pending; intros w; apply getNeighbors_entries|].
    unfold pendingDistance in *. simpl in *. lia.
Qed.

Lemma bfsDistances_total (g : SimpleGraph) (source : string) :
  exists dist, bfsDistances g source = Some dist.
Proof.
  unfold bfsDistances.
  destruct (distanceLoop_total g (Centrality.bfsFuel g)
              (mkDistanceState [(source, 0%Z)] [source] [(source, 0%Z)]))
    as [st' Hst'].
  - rewrite bfsFuel_entries. unfold pendingDistance. simpl.
    apply le_n_S. apply filter_length_le.
  - rewrite Hst'. simpl. eauto.
Qed.

Lemma visitForDistance_invariant (g : SimpleGraph) (source : string) (d : Z)
  (st : DistanceState) (w : string) :
  (0 <= d)%Z -> In w (nodes g) ->
  distanceInvariant g source st ->
  distanceInvariant g source (visitForDistance d st w).
Proof.
  intros Hd Hw (Hk & Hnd & Hsub & (rest & Hdist & Hrest) & Hq).
  unfold visitForDistance.
  destruct (JsSet.has (visited st) w) eqn:E; simpl;
    [repeat split; auto; exists rest; auto|].
  assert (Hnot : ~ In w (visited st)).
  { intros Hin. apply set_has_in in Hin. congruence. }
  assert (Hadd : JsSet.add (visited st) w = visited st ++ [w]).
  { unfold JsSet.add. now rewrite E. }
  assert (Hset : JsMap.set (distances st) w (d + 1)%Z
                 = distances st ++ [(w, (d + 1)%Z)]).
  { apply set_absent. now rewrite Hk. }
  unfold distanceInvariant. simpl. rewrite Hadd, Hset.
  split. { unfold JsMap.keys in *. rewrite map_app, Hk. reflexivity. }
  split. { apply NoDup_app; [auto | repeat constructor; simpl; tauto |].
           intros x Hx [<-|[]]. auto. }
  split. { intros x Hx. apply in_app_iff in Hx. destruct Hx as [Hx|[<-|[]]]; auto. }
  split. { exists (rest ++ [(w, (d + 1)%Z)]). rewrite Hdist. split; [reflexivity|].
           apply Forall_app. split; [exact Hrest|]. repeat constructor. simpl. lia. }
  apply Forall_app. split; [exact Hq|]. repeat constructor. simpl. lia.
Qed.

Lemma visitAllForDistance_invariant (g : SimpleGraph) (source : string) (d : Z)
  (ws : list string) (st : DistanceState) :
  (0 <= d)%Z -> (forall w, In w ws -> In w (nodes g)) ->
  distanceInvariant g source st ->
  distanceInvariant g source (fold_left (visitForDistance d) ws st).
Proof.
  intros Hd. revert st. induction ws as [|w r IH]; intros st Hws Hst; simpl; [exact Hst|].
  apply IH; [intros; apply Hws; now right|].
  apply visitForDistance_invariant; auto. apply Hws. now left.
Qed.

Lemma getNeighbors_nodes (g : SimpleGraph) (v w : string) :
  wellFormed g -> In w (getNeighbors g v) -> In w (nodes g).
Proof.
  intros (_ & _ & _ & Hadj). unfold getNeighbors.
  destruct (JsMap.get (edges g) v) as [m|] eqn:E; [|intros []].
  now apply (Hadj v m E).
Qed.

Lemma distanceLoop_invariant (g : SimpleGraph) (source : string) (fuel : nat)
  (st st' : DistanceState) :
  wellFormed g ->
  distanceInvariant g source st ->
  distanceLoop fuel g st = Some st' ->
  distanceInvariant g source st'.
Proof.
  intros Hg. revert st. induction fuel as [|fuel IH]; intros [dist vis q] Hst Hrun.
  - destruct q as [|[v d] rest]; simpl in Hrun; [|discriminate].
    now injection Hrun as <-.
  - destruct q as [|[v d] rest]; [simpl in Hrun; now injection Hrun as <-|].
    cbn [distanceLoop queue distances visited] in Hrun.
    eapply IH; [|exact Hrun].
    destruct Hst as (Hk & Hnd & Hsub & Hd0 & Hq). simpl in *.
    inversion Hq as [|? ? Hd Hrest]; subst. simpl in Hd.
    apply visitAllForDistance_invariant; [exact Hd | |].
    + intros w. now apply getNeighbors_nodes.
    + repeat split; auto.
Qed.

Lemma sumZ_from (l : list Z) (acc : Z) :
  Forall (fun d => (1 <= d)%Z) l ->
  (acc + Z.of_nat (List.length l) <= fold_left Z.add l acc)%Z.
Proof.
  intros Hl. revert acc. induction Hl as [|d r Hd Hr IH]; intros acc; simpl; [lia|].
  specialize (IH (acc + d)%Z). lia.
Qed.

Lemma filter_all {X : Type} (p : X -> bool) (l : list X) :
  Forall (fun x => p x = true) l -> filter p l = l.
Proof.
  induction 1 as [|x r Hx Hr IH]; simpl; [reflexivity|]. now rewrite Hx, IH.
Qed.

(** The score computed from distances of the shape the traversal produces. *)
Lemma closenessOf_bounds (n : nat) (source : string) (rest : list (string * Z)) :
  Forall (fun e => (1 <= snd e)%Z) rest ->
  (S (List.length rest) <= n)%nat ->
  0 <= closenessOf n ((source, 0%Z) :: rest)
  /\ closenessOf n ((source, 0%Z) :: rest) <= 1.
Proof.
  intros Hrest Hlen.
  assert (Hvals : Forall (fun d => (1 <= d)%Z) (map snd rest)).
  { apply Forall_map. exact Hrest. }
  assert (Hfilter : filter (fun d => (0 <? d)%Z) (JsMap.values ((source, 0%Z) :: rest))
                    = map snd rest).
  { unfold JsMap.values. simpl. apply filter_all.
    eapply Forall_impl; [|exact Hvals]. intros d Hd. apply Z.ltb_lt. simpl in Hd. lia. }
  unfold closenessOf. cbv zeta. rewrite Hfilter.
  rewrite length_map.
  pose proof (sumZ_from (map snd rest) 0%Z Hvals) as Hsum.
  rewrite length_map in Hsum. fold (sumZ (map snd rest)) in Hsum.
  set (total := sumZ (map snd rest)) in *.
  set (r := List.length rest) in *.
  destruct ((0 <? r)%nat && (0 <? total)%Z) eqn:E; [|split; lra].
  apply andb_true_iff in E. destruct E as [Er Et].
  apply Nat.ltb_lt in Er. apply Z.ltb_lt in Et.
  assert (Hr : 0 < Communities.natQ r).
  { unfold Communities.natQ. change 0 with (inject_Z 0). rewrite <- Zlt_Qlt. lia. }
  assert (Hn1 : Communities.natQ r <= inject_Z (Z.of_nat n - 1)).
  { unfold Communities.natQ. rewrite <- Zle_Qle. lia. }
  assert (Ht : Communities.natQ r <= inject_Z total).
  { unfold Communities.natQ. rewrite <- Zle_Qle. lia. }
  assert (A1 : 0 <= Communities.natQ r / inject_Z (Z.of_nat n - 1)
               /\ Communities.natQ r / inject_Z (Z.of_nat n - 1) <= 1).
  { split.
    - apply Qle_shift_div_l; [lra | lra].
    - apply Qle_shift_div_r; [lra | lra]. }
  assert (A2 : 0 <= Communities.natQ r / inject_Z total
               /\ Communities.natQ r / inject_Z total <= 1).
  { split.
    - apply Qle_shift_div_l; [lra | lra].
    - apply Qle_shift_div_r; [lra | lra]. }
  split; nra.
Qed.

Lemma bfsDistances_shape (g : SimpleGraph) (source : string) (dist : list (string * Z)) :
  wellFormed g -> In source (nodes g) ->
  bfsDistances g source = Some dist ->
  exists rest, dist = (source, 0%Z) :: rest
               /\ Forall (fun e => (1 <= snd e)%Z) rest
               /\ (S (List.length rest) <= List.length (nodes g))%nat.
Proof.
  intros Hg Hs Hrun. unfold bfsDistances in Hrun.
  destruct (distanceLoop _ g _) as [st'|] eqn:E; [|discriminate].
  simpl in Hrun. injection Hrun as <-.
  assert (Hinit : distanceInvariant g source
                    (mkDistanceState [(source, 0%Z)] [source] [(source, 0%Z)])).
  { unfold distanceInvariant. simpl. repeat split.
    - repeat constructor. simpl. tauto.
    - intros x [<-|[]]. exact Hs.
    - exists []. split; [reflexivity | constructor].
    - repeat constructor. simpl. lia. }
  destruct (distanceLoop_invariant g source _ _ st' Hg Hinit E)
    as (Hk & Hnd & Hsub & (rest & Hdist & Hrest) & _).
  exists rest. split; [exact Hdist|]. split; [exact Hrest|].
  assert (Hlen : (List.length (distances st') <= List.length (nodes g))%nat).
  { rewrite <- (length_map fst (distances st')).
    fold (JsMap.keys (distances st')). rewrite Hk.
    apply NoDup_incl_length; [exact Hnd | exact Hsub]. }
  rewrite Hdist in Hlen. simpl in Hlen. exact Hlen.
Qed.

Lemma closenessCentrality_fold (g : SimpleGraph) (l : list string)
  (cc : list (string * Q)) :
  fold_left
    (fun acc node =>
       match acc with
       | None => None
       | Some cc =>
           match bfsDistances g node with
           | None => None
           | Some dist =>
               Some (JsMap.set cc node (closenessOf (JsSet.size (nodes g)) dist))
           end
       end)
    l (Some cc)
  = Some (fold_left (fun cc node => JsMap.set cc node (closenessScore g node)) l cc).
Proof.
  revert cc. induction l as [|x l IH]; intros cc; simpl; [reflexivity|].
  unfold closenessScore at 2.
  destruct (bfsDistances_total g x) as [dist ->]. apply IH.
Qed.

Lemma closenessCentrality_scores (g : SimpleGraph) :
  closenessCentrality g
  = Some (fold_left (fun cc node => JsMap.set cc node (closenessScore g node))
                    (nodes g) []).
Proof. unfold closenessCentrality. apply closenessCentrality_fold. Qed.

End ClosenessFacts.

(** On a well-formed graph [closenessCentrality] returns a map that gives
    every node exactly one score, and every score lies in [0, 1]. *)
Lemma closenessCentrality_bounds (g : Graph.SimpleGraph) :
  wellFormed g ->
  exists cc,
    CentralityMeasures.closenessCentrality g = Some cc
    /\ JsMap.keys cc = Graph.nodes g
    /\ forall node v, JsMap.get cc node = Some v -> 0 <= v /\ v <= 1.
Proof.
  intros Hg. pose proof Hg as (Hn & _).
  rewrite closenessCentrality_scores. eexists. split; [reflexivity|].
  rewrite fold_set_fresh by exact Hn. simpl app. split.
  - unfold JsMap.keys. rewrite map_map. simpl. apply map_id.
  - intros node v Hget. apply get_map_pairs in Hget. destruct Hget as [Hin ->].
    unfold closenessScore.
    destruct (CentralityMeasures.bfsDistances g node) as [dist|] eqn:E; [|split; lra].
    destruct (bfsDistances_shape g node dist Hg Hin E) as (rest & -> & Hrest & Hlen).
    now apply closenessOf_bounds.
Qed.

(** X7.  On a well-formed graph [closenessCentrality] and, when the graph
    has no self-loop, [degreeCentrality] give every node exactly one score,
    in the order of the nodes, and every score lies in [0, 1]. *)
Theorem centrality_scores_in_unit_interval (g : Graph.SimpleGraph) :
  wellFormed g ->
  (exists cc,
     CentralityMeasures.closenessCentrality g = Some cc
     /\ JsMap.keys cc = Graph.nodes g
     /\ forall node v, JsMap.get cc node = Some v -> 0 <= v /\ v <= 1)
  /\ (loopFree g ->
      JsMap.keys (CentralityMeasures.degreeCentrality g) = Graph.nodes g
      /\ forall node v,
           JsMap.get (CentralityMeasures.degreeCentrality g) node = Some v ->
           0 <= v /\ v <= 1).
Proof.
  intros Hg. split.
  - now apply closenessCentrality_bounds.
  - intros Hloop. now apply degreeCentrality_bounds.
Qed.

Lemma centrality_scores_in_unit_interval_witness :
  wellFormed pathABCD
  /\ (exists cc,
        CentralityMeasures.closenessCentrality pathABCD = Some cc
        /\ JsMap.keys cc = Graph.nodes pathABCD
        /\ forall node v, JsMap.get cc node = Some v -> 0 <= v /\ v <= 1)
  /\ JsMap.keys (CentralityMeasures.degreeCentrality pathABCD) = Graph.nodes pathABCD.
Proof.
  assert (Hw : wellFormed pathABCD).
  { unfold pathABCD, pathABC.
    repeat apply wellFormed_addEdge. apply wellFormed_createGraph. }
  assert (Hl : loopFree pathABCD).
  { apply symmetricLoopFree_loopFree. unfold pathABCD, pathABC.
    repeat (apply symmetricLoopFree_addEdge; [discriminate | lra |]).
    apply symmetricLoopFree_createGraph. }
  split; [exact Hw|].
  destruct (centrality_scores_in_unit_interval pathABCD Hw) as [Hc Hd].
  split; [exact Hc | exact (proj1 (Hd Hl))].
Defined.

Section IsolatedNodeFacts.
Import Graph CentralityMeasures.

Lemma get_fold_set_kept {V : Type} (f : string -> V) (l : list string)
  (acc : list (string * V)) (x : string) :
  JsMap.get acc x = Some (f x) ->
  JsMap.get (fold_left (fun m y => JsMap.set m y (f y)) l acc) x = Some (f x).
Proof.
  revert acc. induction l as [|y l IH]; intros acc Hacc; simpl; [exact Hacc|].
  apply IH. destruct (String.eqb y x) eqn:E.
  - apply String.eqb_eq in E. subst y. apply get_set_same.
  - apply String.eqb_neq in E. now rewrite get_set_other.
Qed.

Lemma get_fold_set_in {V : Type} (f : string -> V) (l : list string)
  (acc : list (string * V)) (x : string) :
  In x l ->
  JsMap.get (fold_left (fun m y => JsMap.set m y (f y)) l acc) x = Some (f x).
Proof.
  revert acc. induction l as [|y l IH]; intros acc Hin; simpl; [destruct Hin|].
  destruct (String.eqb y x) eqn:E.
  - apply String.eqb_eq in E. subst y. apply get_fold_set_kept. apply get_set_same.
  - apply String.eqb_neq in E. destruct Hin as [Hy|Hin]; [contradiction|]. now apply IH.
Qed.

Lemma bfsDistances_isolated (g : SimpleGraph) (node : string) :
  getDegree g node = 0%nat -> bfsDistances g node = Some [(node, 0%Z)].
Proof.
  intros Hdeg.
  assert (Hnb : getNeighbors g node = []).
  { unfold getDegree in Hdeg. unfold getNeighbors.
    destruct (JsMap.get (edges g) node) as [m|]; [|reflexivity].
    destruct m; [reflexivity | discriminate]. }
  unfold bfsDistances, Centrality.bfsFuel.
  cbn [distanceLoop queue distances visited]. rewrite Hnb. simpl.
  destruct (fold_left _ (edges g) 0%nat); reflexivity.
Qed.

End IsolatedNodeFacts.

(** X10.  A node without neighbours gets closeness 0 and, whatever the
    betweenness map says, diversivity 0. *)
Theorem isolated_node_scores (g : Graph.SimpleGraph) (node : string)
  (bc : list (string * Q)) :
  In node (Graph.nodes g) ->
  Graph.getDegree g node = 0%nat ->
  (exists cc, CentralityMeasures.closenessCentrality g = Some cc
              /\ JsMap.get cc node = Some 0)
  /\ JsMap.get (CentralityMeasures.diversivity bc g) node = Some 0.
Proof.
  intros Hin Hdeg. split.
  - rewrite closenessCentrality_scores. eexists. split; [reflexivity|].
    rewrite (get_fold_set_in (closenessScore g)) by exact Hin.
    unfold closenessScore. now rewrite bfsDistances_isolated.
  - unfold CentralityMeasures.diversivity.
    rewrite (get_fold_set_in
               (fun node =>
                  if (0 <? Graph.getDegree g node)%nat
                  then orElse (JsMap.get bc node) 0
                       / Communities.natQ (Graph.getDegree g node)
                  else 0)) by exact Hin.
    now rewrite Hdeg.
Qed.

Lemma isolated_node_scores_witness :
  In "d"%string (Graph.nodes triangleWithIsolatedNode)
  /\ Graph.getDegree triangleWithIsolatedNode "d" = 0%nat
  /\ (exists cc,
        CentralityMeasures.closenessCentrality triangleWithIsolatedNode = Some cc
        /\ JsMap.get cc "d"%string = Some 0)
  /\ JsMap.get (CentralityMeasures.diversivity [] triangleWithIsolatedNode) "d"%string
     = Some 0.
Proof.
  assert (Hin : In "d"%string (Graph.nodes triangleWithIsolatedNode))
    by (vm_compute; tauto).
  assert (Hdeg : Graph.getDegree triangleWithIsolatedNode "d" = 0%nat) by reflexivity.
  split; [exact Hin|]. split; [exact Hdeg|].
  exact (isolated_node_scores triangleWithIsolatedNode "d" [] Hin Hdeg).
Defined.

(** ** Ranking: the first [n] of a list sorted by descending score *)

Section TopFacts.
Context {A : Type} (key : A -> Q).

Lemma byKeyDesc_total (a b : A) : byKeyDesc key a b = false -> byKeyDesc key b a = true.
Proof.
  unfold byKeyDesc. intros E. apply Qle_bool_iff.
  destruct (Qlt_le_dec (key a) (key b)) as [Hlt|Hle].
  - now apply Qlt_le_weak.
  - apply Qle_bool_iff in Hle. congruence.
Qed.

Lemma byKeyDesc_trans (a b c : A) :
  byKeyDesc key a b = true -> byKeyDesc key b c = true -> byKeyDesc key a c = true.
Proof.
  unfold byKeyDesc. rewrite !Qle_bool_iff. intros H1 H2. eapply Qle_trans; eauto.
Qed.

Lemma StronglySorted_app_inv (R : A -> A -> Prop) (l1 l2 : list A) :
  StronglySorted R (l1 ++ l2) ->
  StronglySorted R l1 /\ forall a b, In a l1 -> In b l2 -> R a b.
Proof.
  induction l1 as [|x l1 IH]; simpl; intros Hs.
  - split; [constructor | intros a b []].
  - inversion Hs as [|? ? Hs' Hx]; subst. destruct (IH Hs') as [H1 H2].
    apply Forall_app in Hx. destruct Hx as [Hx1 Hx2].
    split; [now constructor|].
    intros a b [<-|Ha] Hb; [|now apply H2].
    rewrite Forall_forall in Hx2. now apply Hx2.
Qed.

(** The first [n] elements of the list sorted by descending key. *)
Lemma top_by_key (n : nat) (l : list A) :
  let top := firstn n (stableSort (byKeyDesc key) l) in
  List.length top = Nat.min n (List.length l)
  /\ StronglySorted (fun a b => key b <= key a) top
  /\ exists rest,
       Permutation (top ++ rest) l
       /\ forall a b, In a top -> In b rest -> key b <= key a.
Proof.
  intros top.
  pose proof (stableSort_sorted (byKeyDesc key) byKeyDesc_total byKeyDesc_trans l) as Hs.
  apply (StronglySorted_weaken _ (fun a b => key b <= key a)) in Hs.
  2:{ intros a b Hab. now apply Qle_bool_iff. }
  rewrite <- (firstn_skipn n (stableSort (byKeyDesc key) l)) in Hs.
  apply StronglySorted_app_inv in Hs. destruct Hs as [Hs1 Hs2].
  split.
  { unfold top. rewrite length_firstn.
    now rewrite (Permutation_length (stableSort_perm (byKeyDesc key) l)). }
  split; [exact Hs1|].
  exists (skipn n (stableSort (byKeyDesc key) l)). split; [|exact Hs2].
  unfold top. rewrite firstn_skipn. apply stableSort_perm.
Qed.

End TopFacts.

(** X11.  [getTopNodesByCentrality] returns min(n, size) entries of the map,
    in descending order of score, and no entry left out has a higher score
    than an entry returned. *)
Theorem getTopNodesByCentrality_top (centrality : list (string * Q)) (n : nat) :
  let top := CentralityMeasures.getTopNodesByCentrality centrality n in
  List.length top = Nat.min n (JsMap.size centrality)
  /\ StronglySorted (fun a b => snd b <= snd a) top
  /\ exists rest,
       Permutation (top ++ rest) centrality
       /\ forall a b, In a top -> In b rest -> snd b <= snd a.
Proof.
  intros top. unfold top, CentralityMeasures.getTopNodesByCentrality, JsMap.size.
  apply (top_by_key snd).
Qed.

(** ** graph/gaps.ts: distances and ranking *)

Section GapRankingFacts.
Import Graph Communities Gaps.
Context {C : Type} `{EqKey C}.

Lemma Qltb_lt (a b : Q) : Qltb a b = true -> a < b.
Proof.
  unfold Qltb. intros E. apply negb_true_iff in E.
  apply Qnot_le_lt. intros Hle. apply Qle_bool_iff in Hle. congruence.
Qed.

Lemma gapsWith_above (g : SimpleGraph) (communities : list (string * C))
  clusterNodes minDistance (c1 : C) (later : list C)
  (gaps : list StructuralGapInfo) :
  ~ In c1 later ->
  Forall (gapAbove g communities minDistance) gaps ->
  Forall (gapAbove g communities minDistance)
         (gapsWith g communities clusterNodes minDistance c1 later gaps).
Proof.
  unfold gapsWith. revert gaps.
  induction later as [|c2 r IH]; intros gaps Hc1 Hg; simpl; [exact Hg|].
  apply IH; [intros Hin; apply Hc1; now right|].
  destruct (Qltb _ _) eqn:E; [|exact Hg].
  apply Forall_app. split; [exact Hg|].
  constructor; [|constructor]. unfold gapAbove. simpl.
  split; [reflexivity|]. split; [now apply Qltb_lt|].
  intros ->. apply Hc1. now left.
Qed.

Lemma allGaps_above (g : SimpleGraph) (communities : list (string * C))
  clusterNodes minDistance (clusters : list C) (gaps : list StructuralGapInfo) :
  NoDup clusters ->
  Forall (gapAbove g communities minDistance) gaps ->
  Forall (gapAbove g communities minDistance)
         (allGaps g communities clusterNodes minDistance clusters gaps).
Proof.
  revert gaps. induction clusters as [|c1 later IH]; intros gaps Hnd Hg; simpl.
  - exact Hg.
  - inversion Hnd; subst. apply IH; [assumption|]. now apply gapsWith_above.
Qed.

Lemma NoDup_keys_fold_set {K V X : Type} `{EqKey K}
  (step : list (K * V) -> X -> list (K * V)) (l : list X) (acc : list (K * V)) :
  (forall m x, NoDup (JsMap.keys m) -> NoDup (JsMap.keys (step m x))) ->
  NoDup (JsMap.keys acc) -> NoDup (JsMap.keys (fold_left step l acc)).
Proof.
  intros Hstep. revert acc. induction l as [|x l IH]; intros acc Hacc; simpl; auto.
Qed.

Lemma NoDup_keys_getCommunitiesMap (communities : list (string * C)) :
  NoDup (JsMap.keys (getCommunitiesMap communities)).
Proof.
  unfold getCommunitiesMap. apply NoDup_keys_fold_set; [|constructor].
  intros m [node community] Hm.
  assert (H1 : NoDup (JsMap.keys
                        (if JsMap.has m community then m
                         else JsMap.set m community []))).
  { destruct (JsMap.has m community); [exact Hm | now apply NoDup_keys_set]. }
  cbv zeta. destruct (JsMap.get _ community); [now apply NoDup_keys_set | exact H1].
Qed.

Lemma detectStructuralGaps_above (g : SimpleGraph) (communities : list (string * C))
  minDistance maxGaps (gap : StructuralGapInfo) :
  In gap (detectStructuralGaps g communities minDistance maxGaps) ->
  gapAbove g communities minDistance gap.
Proof.
  unfold detectStructuralGaps. intros Hin.
  apply In_firstn in Hin.
  apply (Permutation_in _ (stableSort_perm _ _)) in Hin.
  pose proof (allGaps_above g communities (getCommunitiesMap communities) minDistance
                (JsMap.keys (getCommunitiesMap communities)) []
                (NoDup_keys_getCommunitiesMap communities) (Forall_nil _)) as Hall.
  rewrite Forall_forall in Hall. now apply Hall.
Qed.

Lemma Math_min_le_l (a b : Q) : Math_min a b <= a.
Proof.
  unfold Math_min. destruct (Qle_bool a b) eqn:E; [apply Qle_refl|].
  destruct (Qlt_le_dec b a) as [Hlt|Hle]; [now apply Qlt_le_weak|].
  apply Qle_bool_iff in Hle. congruence.
Qed.

Lemma Math_min_nonneg (a b : Q) : 0 <= a -> 0 <= b -> 0 <= Math_min a b.
Proof. unfold Math_min. destruct (Qle_bool a b); auto. Qed.




End GapRankingFacts.

(** X12.  [detectStructuralGaps] returns at most [maxGaps] gaps in descending
    order of distance; each one pairs two different cluster ids, carries the
    distance [interClusterDistance] gives the pair, and that distance exceeds
    [minDistance]. *)
Theorem detectStructuralGaps_ranked {C : Type} `{EqKey C} (g : Graph.SimpleGraph)
  (communities : list (string * C)) (minDistance : Q) (maxGaps : nat) :
  let gaps := Gaps.detectStructuralGaps g communities minDistance maxGaps in
  (List.length gaps <= maxGaps)%nat
  /\ StronglySorted (fun a b => Gaps.distance b <= Gaps.distance a) gaps
  /\ forall gap, In gap gaps ->
       Gaps.distance gap
       = Gaps.interClusterDistance g (Gaps.cluster1 gap) (Gaps.cluster2 gap) communities
       /\ minDistance < Gaps.distance gap
       /\ Gaps.cluster1 gap <> Gaps.cluster2 gap.
Proof.
  intros gaps.
  destruct (top_by_key (@Gaps.distance C) maxGaps
              (Gaps.allGaps g communities (Communities.getCommunitiesMap communities)
                 minDistance (JsMap.keys (Communities.getCommunitiesMap communities)) []))
    as (Hlen & Hsorted & _).
  split. { unfold gaps, Gaps.detectStructuralGaps. apply firstn_le_length. }
  split. { exact Hsorted. }
  intros gap Hin. exact (detectStructuralGaps_above g communities _ _ gap Hin).
Qed.

Lemma nonNegativeWeights_built (g : Graph.SimpleGraph) :
  wellFormed g -> symmetricLoopFree g -> nonNegativeWeights g.
Proof.
  intros (_ & Hk & _ & Hadj) (_ & _ & Hpos) s m t w Hs Ht.
  pose proof (In_get_NoDup _ _ _ Hk Hs) as Hget.
  destruct (Hadj s m Hget) as [Hm _].
  apply (Hpos s t w). unfold Graph.adjacency. rewrite Hget.
  now apply In_get_NoDup.
Qed.


Section GapScoreFacts.
Import Graph Gaps.
Context {C : Type} `{EqKey C}.

Lemma natQ_succ (n : nat) : Communities.natQ (S n) == Communities.natQ n + 1.
Proof.
  unfold Communities.natQ. rewrite Nat2Z.inj_succ. unfold Z.succ.
  now rewrite inject_Z_plus.
Qed.




End GapScoreFacts.




(** ** graph/types.js: [cloneGraph] *)

Section CloneFacts.
Import Graph GraphMeasures.

Lemma ltb_irrefl (s : string) : String.ltb s s = false.
Proof.
  unfold String.ltb. pose proof (String.compare_antisym s s) as E.
  destruct (String.compare s s); simpl in E; try reflexivity; discriminate.
Qed.

Lemma ltb_asym (s t : string) : String.ltb s t = true -> String.ltb t s = false.
Proof.
  unfold String.ltb. rewrite (String.compare_antisym s t).
  destruct (String.compare t s); simpl; congruence.
Qed.

Lemma ltb_total (s t : string) :
  s <> t -> String.ltb s t = true \/ String.ltb t s = true.
Proof.
  intros Hne. unfold String.ltb. pose proof (String.compare_eq_iff s t) as He.
  rewrite (String.compare_antisym t s).
  destruct (String.compare s t); simpl; auto.
Qed.

Lemma cloneGraph_inner (s : string) (m : list (string * Q)) (acc : option SimpleGraph) :
  fold_left (copyEdge s) m acc
  = fold_left copyEntry (map (fun '(t, w) => (s, t, w)) m) acc.
Proof.
  revert acc. induction m as [|[t w] r IH]; intros acc; simpl; [reflexivity|].
  apply IH.
Qed.

Lemma cloneGraph_flat (es : list (string * list (string * Q)))
  (acc : option SimpleGraph) :
  fold_left (fun acc '(source, neighbors) => fold_left (copyEdge source) neighbors acc)
            es acc
  = fold_left copyEntry (directedEntries es) acc.
Proof.
  unfold directedEntries. revert acc.
  induction es as [|[s m] r IH]; intros acc; simpl; [reflexivity|].
  rewrite fold_left_app, <- cloneGraph_inner. apply IH.
Qed.

Lemma in_directedEntries (es : list (string * list (string * Q))) (s t : string) (w : Q) :
  In (s, t, w) (directedEntries es) <-> exists m, In (s, m) es /\ In (t, w) m.
Proof.
  unfold directedEntries. rewrite in_flat_map. split.
  - intros ([s' m] & Hin & Hm). apply in_map_iff in Hm.
    destruct Hm as ([t' w'] & Heq & Ht). injection Heq as -> -> ->. eauto.
  - intros (m & Hs & Ht). exists (s, m). split; [exact Hs|].
    apply in_map_iff. exists (t, w). auto.
Qed.

Lemma directedEntries_get (g : SimpleGraph) (s t : string) (w : Q) :
  wellFormed g ->
  In (s, t, w) (directedEntries (edges g)) <-> JsMap.get (adjacency g s) t = Some w.
Proof.
  intros (_ & Hk & _ & Hadj). rewrite in_directedEntries. unfold adjacency. split.
  - intros (m & Hs & Ht). pose proof (In_get_NoDup _ _ _ Hk Hs) as Hget.
    rewrite Hget. apply In_get_NoDup; [|exact Ht]. now apply (Hadj s m).
  - destruct (JsMap.get (edges g) s) as [m|] eqn:E; [|discriminate].
    intros Hget. exists m. split; now apply get_Some_in.
Qed.

Lemma setDirected_present (G : SimpleGraph) (s t : string) (w : Q) :
  wellFormed G -> In s (nodes G) ->
  setDirected G s t w
  = Some (mkGraph (nodes G)
                  (JsMap.set (edges G) s (JsMap.set (adjacency G s) t w))).
Proof.
  intros (_ & _ & Hsame & _) Hs. unfold setDirected, adjacency.
  apply Hsame in Hs. apply get_in_keys in Hs.
  destruct (JsMap.get (edges G) s); [reflexivity | congruence].
Qed.

Lemma adjacency_setDirected (G : SimpleGraph) (s t x y : string) (w : Q) :
  JsMap.get
    (adjacency (mkGraph (nodes G)
                        (JsMap.set (edges G) s (JsMap.set (adjacency G s) t w))) x) y
  = if ((x =? s) && (y =? t))%string then Some w else JsMap.get (adjacency G x) y.
Proof.
  destruct (String.eqb x s) eqn:Ex.
  - apply String.eqb_eq in Ex. subst x. rewrite adjacency_set, get_set_cases.
    reflexivity.
  - apply String.eqb_neq in Ex. rewrite adjacency_set_other by congruence.
    reflexivity.
Qed.

(** One visit of the inner loop of [cloneGraph]. *)
Lemma copyEntry_step (G : SimpleGraph) (s t : string) (w : Q) :
  wellFormed G -> In s (nodes G) -> In t (nodes G) ->
  exists G',
    copyEntry (Some G) (s, t, w) = Some G'
    /\ nodes G' = nodes G
    /\ wellFormed G'
    /\ forall x y,
         JsMap.get (adjacency G' x) y
         = if copies x y (s, t, w) then Some w else JsMap.get (adjacency G x) y.
Proof.
  intros HG Hs Ht. unfold copyEntry, copyEdge, copies.
  destruct (String.ltb s t) eqn:Elt.
  - rewrite (setDirected_present G s t w HG Hs).
    set (G1 := mkGraph (nodes G)
                 (JsMap.set (edges G) s (JsMap.set (adjacency G s) t w))).
    assert (HG1 : wellFormed G1) by now apply wellFormed_setAdjacency.
    rewrite (setDirected_present G1 t s w HG1 Ht).
    eexists. split; [reflexivity|]. split; [reflexivity|].
    split; [now apply (wellFormed_setAdjacency G1)|].
    intros x y. rewrite (adjacency_setDirected G1 t s x y w).
    unfold G1. rewrite (adjacency_setDirected G s t x y w). simpl.
    destruct ((x =? t) && (y =? s))%string eqn:E1;
      destruct ((x =? s) && (y =? t))%string eqn:E2; reflexivity.
  - exists G. simpl. auto.
Qed.

(** The loops of [cloneGraph] over entries whose end points are nodes of
    the graph under construction and which hold one weight per pair. *)
Lemma copyEntries_spec (ts : list (string * string * Q)) (G : SimpleGraph) :
  wellFormed G ->
  (forall s t w, In (s, t, w) ts -> In s (nodes G) /\ In t (nodes G)) ->
  (forall x y e1 e2, In e1 ts -> In e2 ts ->
     copies x y e1 = true -> copies x y e2 = true -> snd e1 = snd e2) ->
  exists G',
    fold_left copyEntry ts (Some G) = Some G'
    /\ nodes G' = nodes G
    /\ wellFormed G'
    /\ forall x y w,
         JsMap.get (adjacency G' x) y = Some w
         <-> (exists e, In e ts /\ copies x y e = true /\ snd e = w)
             \/ (existsb (copies x y) ts = false
                 /\ JsMap.get (adjacency G x) y = Some w).
Proof.
  revert G. induction ts as [|[[s t] w0] ts IH]; intros G HG Hin Hfun.
  - exists G. split; [reflexivity|]. split; [reflexivity|]. split; [exact HG|].
    intros x y w. simpl. split.
    + intros Hget. right. auto.
    + intros [(e & [] & _)|[_ Hget]]. exact Hget.
  - destruct (Hin s t w0 (or_introl eq_refl)) as [Hs Ht].
    destruct (copyEntry_step G s t w0 HG Hs Ht) as (G1 & Hstep & Hn1 & HG1 & Hadj1).
    destruct (IH G1 HG1) as (G' & Hrun & Hn' & HG' & Hadj').
    { intros s' t' w' Hin'. rewrite Hn1. apply (Hin s' t' w'). now right. }
    { intros x y e1 e2 H1 H2. apply Hfun; now right. }
    exists G'. cbn [fold_left]. rewrite Hstep.
    split; [exact Hrun|]. split; [congruence|]. split; [exact HG'|].
    intros x y w. rewrite Hadj', Hadj1. cbn [existsb]. split.
    + intros [(e & He & Hc & Hw)|[Hnone Hget]].
      * left. exists e. split; [now right | auto].
      * destruct (copies x y (s, t, w0)) eqn:Ec.
        -- left. exists (s, t, w0). split; [now left|]. split; [exact Ec|].
           simpl. congruence.
        -- right. auto.
    + intros [(e & [<-|He] & Hc & Hw)|[Hnone Hget]].
      * destruct (existsb (copies x y) ts) eqn:Ex.
        -- apply existsb_exists in Ex. destruct Ex as (e2 & He2 & Hc2).
           left. exists e2. split; [exact He2|]. split; [exact Hc2|].
           rewrite <- Hw. apply (Hfun x y); auto; [now right | now left].
        -- right. split; [reflexivity|]. rewrite Hc. simpl in Hw. congruence.
      * left. eauto.
      * apply orb_false_iff in Hnone. destruct Hnone as [Hc Hex].
        right. split; [exact Hex|]. now rewrite Hc.
Qed.

Lemma fold_addNode_spec (l : list string) (G : SimpleGraph) :
  wellFormed G -> NoDup (nodes G ++ l) ->
  wellFormed (fold_left addNode l G)
  /\ nodes (fold_left addNode l G) = nodes G ++ l
  /\ forall x, adjacency (fold_left addNode l G) x = adjacency G x.
Proof.
  revert G. induction l as [|n l IH]; intros G HG Hnd; simpl.
  - rewrite app_nil_r. auto.
  - assert (Hn : nodes (addNode G n) = nodes G ++ [n]).
    { unfold addNode, JsSet.add; simpl.
      destruct (JsSet.has (nodes G) n) eqn:E; [|reflexivity].
      apply set_has_in in E. apply NoDup_remove_2 in Hnd.
      exfalso. apply Hnd. apply in_or_app. now left. }
    destruct (IH (addNode G n)) as (I1 & I2 & I3).
    + now apply wellFormed_addNode.
    + rewrite Hn, <- app_assoc. exact Hnd.
    + split; [exact I1|]. split.
      * rewrite I2, Hn, <- app_assoc. reflexivity.
      * intros x. rewrite I3. apply adjacency_addNode_any.
Qed.

Lemma copies_true (x y s t : string) (w : Q) :
  copies x y (s, t, w) = true
  <-> String.ltb s t = true /\ (x = s /\ y = t \/ x = t /\ y = s).
Proof.
  unfold copies. rewrite andb_true_iff, orb_true_iff, !andb_true_iff, !String.eqb_eq.
  tauto.
Qed.

(** What [cloneGraph] returns on a well-formed graph. *)
Lemma cloneGraph_entries (g : SimpleGraph) :
  wellFormed g ->
  exists g',
    cloneGraph g = Some g'
    /\ nodes g' = nodes g
    /\ wellFormed g'
    /\ forall x y w,
         JsMap.get (adjacency g' x) y = Some w
         <-> (String.ltb x y = true /\ JsMap.get (adjacency g x) y = Some w)
             \/ (String.ltb y x = true /\ JsMap.get (adjacency g y) x = Some w).
Proof.
  intros Hg. pose proof Hg as (Hn & Hk & Hsame & Hadj).
  destruct (fold_addNode_spec (nodes g) createGraph wellFormed_createGraph Hn)
    as (H0 & Hn0 & Hadj0).
  simpl in Hn0.
  destruct (copyEntries_spec (directedEntries (edges g))
              (fold_left addNode (nodes g) createGraph) H0)
    as (g' & Hrun & Hn' & Hg' & Hspec).
  - intros s t w Hin. rewrite Hn0. apply in_directedEntries in Hin.
    destruct Hin as (m & Hs & Ht).
    pose proof (In_get_NoDup _ _ _ Hk Hs) as Hget.
    split.
    + apply Hsame. apply get_in_keys. congruence.
    + apply (Hadj s m Hget). unfold JsMap.keys.
      change t with (fst (t, w)). now apply in_map.
  - intros x y [[s1 t1] w1] [[s2 t2] w2] H1 H2 C1 C2. simpl.
    apply (directedEntries_get g _ _ _ Hg) in H1, H2.
    apply copies_true in C1, C2.
    destruct C1 as [L1 [[-> ->]|[-> ->]]], C2 as [L2 [[<- <-]|[<- <-]]];
      try congruence.
    + apply ltb_asym in L1. congruence.
    + apply ltb_asym in L1. congruence.
  - exists g'. unfold cloneGraph. cbv zeta. rewrite cloneGraph_flat.
    split; [exact Hrun|]. split; [congruence|]. split; [exact Hg'|].
    intros x y w. rewrite Hspec, Hadj0. simpl. split.
    + intros [([[s t] w'] & Hin & Hc & Hw)|[_ Hnone]]; [|discriminate].
      simpl in Hw. subst w'. apply (directedEntries_get g _ _ _ Hg) in Hin.
      apply copies_true in Hc. destruct Hc as [L [[-> ->]|[-> ->]]]; auto.
    + intros [[L Hget]|[L Hget]]; left.
      * exists (x, y, w). split; [now apply directedEntries_get|].
        split; [apply copies_true; auto | reflexivity].
      * exists (y, x, w). split; [now apply directedEntries_get|].
        split; [apply copies_true; auto | reflexivity].
Qed.

End CloneFacts.

(** X15.  On a well-formed graph [cloneGraph] returns a well-formed graph
    with the same nodes in the same order; the clone has no self-loop, holds
    the same weight in both directions of every edge, and takes the weight of
    an edge from the adjacency map of its smaller end point.  It is a
    faithful copy (same weight lookups) when the source graph is symmetric
    and without self-loops. *)
Theorem cloneGraph_copy (g : Graph.SimpleGraph) :
  wellFormed g ->
  exists g',
    GraphMeasures.cloneGraph g = Some g'
    /\ Graph.nodes g' = Graph.nodes g
    /\ wellFormed g'
    /\ (forall x, Graph.hasEdge g' x x = false)
    /\ (forall x y, JsMap.get (Graph.adjacency g' x) y
                    = JsMap.get (Graph.adjacency g' y) x)
    /\ (forall x y, String.ltb x y = true ->
          JsMap.get (Graph.adjacency g' x) y = JsMap.get (Graph.adjacency g x) y)
    /\ ((forall x y, JsMap.get (Graph.adjacency g x) y
                     = JsMap.get (Graph.adjacency g y) x)
        -> loopFree g
        -> forall x y, JsMap.get (Graph.adjacency g' x) y
                       = JsMap.get (Graph.adjacency g x) y).
Proof.
  intros Hg. destruct (cloneGraph_entries g Hg) as (g' & Hrun & Hn & Hg' & Hspec).
  assert (Hlow : forall x y, String.ltb x y = true ->
            JsMap.get (Graph.adjacency g' x) y = JsMap.get (Graph.adjacency g x) y).
  { intros x y L.
    destruct (JsMap.get (Graph.adjacency g x) y) as [w|] eqn:E.
    - apply Hspec. auto.
    - destruct (JsMap.get (Graph.adjacency g' x) y) as [w|] eqn:E'; [|reflexivity].
      apply Hspec in E'. destruct E' as [[_ E']|[L' _]]; [congruence|].
      apply ltb_asym in L. congruence. }
  assert (Hup : forall x y, String.ltb y x = true ->
            JsMap.get (Graph.adjacency g' x) y = JsMap.get (Graph.adjacency g y) x).
  { intros x y L.
    destruct (JsMap.get (Graph.adjacency g y) x) as [w|] eqn:E.
    - apply Hspec. auto.
    - destruct (JsMap.get (Graph.adjacency g' x) y) as [w|] eqn:E'; [|reflexivity].
      apply Hspec in E'. destruct E' as [[L' _]|[_ E']]; [|congruence].
      apply ltb_asym in L. congruence. }
  assert (Hloop : forall x, JsMap.get (Graph.adjacency g' x) x = None).
  { intros x. destruct (JsMap.get (Graph.adjacency g' x) x) as [w|] eqn:E;
      [|reflexivity].
    apply Hspec in E. rewrite ltb_irrefl in E. destruct E as [[E _]|[E _]]; discriminate. }
  exists g'. split; [exact Hrun|]. split; [exact Hn|]. split; [exact Hg'|].
  split. { intros x. rewrite hasEdge_adjacency. unfold JsMap.has. now rewrite Hloop. }
  split.
  { intros x y. destruct (String.eqb x y) eqn:E.
    - apply String.eqb_eq in E. now subst y.
    - apply String.eqb_neq in E. destruct (ltb_total x y E) as [L|L].
      + now rewrite (Hlow x y L), (Hup y x L).
      + now rewrite (Hup x y L), (Hlow y x L). }
  split; [exact Hlow|].
  intros Hsym Hnoloop x y. destruct (String.eqb x y) eqn:E.
  - apply String.eqb_eq in E. subst y. now rewrite Hloop, Hnoloop.
  - apply String.eqb_neq in E. destruct (ltb_total x y E) as [L|L].
    + now apply Hlow.
    + rewrite (Hup x y L). apply Hsym.
Qed.

Lemma cloneGraph_copy_witness :
  wellFormed twoTriangles
  /\ exists g',
       GraphMeasures.cloneGraph twoTriangles = Some g'
       /\ Graph.nodes g' = Graph.nodes twoTriangles
       /\ forall x y, JsMap.get (Graph.adjacency g' x) y
                      = JsMap.get (Graph.adjacency twoTriangles x) y.
Proof.
  assert (Hw : wellFormed twoTriangles).
  { unfold twoTriangles. repeat apply wellFormed_addEdge. apply wellFormed_createGraph. }
  assert (Hs : symmetricLoopFree twoTriangles).
  { unfold twoTriangles.
    repeat (apply symmetricLoopFree_addEdge; [discriminate | lra |]).
    apply symmetricLoopFree_createGraph. }
  split; [exact Hw|].
  destruct (cloneGraph_copy twoTriangles Hw)
    as (g' & Hrun & Hn & _ & _ & _ & _ & Hcopy).
  exists g'. split; [exact Hrun|]. split; [exact Hn|].
  apply Hcopy; [apply Hs | now apply symmetricLoopFree_loopFree].
Defined.

(** ** graph/communities.ts: range of the clustering coefficient *)

Section ClusteringRangeFacts.
Import Graph Communities.

Lemma countEdges_le (g : SimpleGraph) (ni : string) (rest : list string) (acc : nat) :
  (fold_left (fun triangles nj => if hasEdge g ni nj then S triangles else triangles)
             rest acc
   <= acc + List.length rest)%nat.
Proof.
  revert acc. induction rest as [|nj r IH]; intros acc; simpl; [lia|].
  etransitivity; [apply IH|]. destruct (hasEdge g ni nj); lia.
Qed.

(** At most one triangle per pair of neighbours. *)
Lemma countTriangles_le (g : SimpleGraph) (neighbors : list string) :
  (2 * countTriangles g neighbors
   <= List.length neighbors * (List.length neighbors - 1))%nat.
Proof.
  induction neighbors as [|ni rest IH]; simpl; [lia|].
  pose proof (countEdges_le g ni rest 0) as Hc. simpl in Hc.
  rewrite Nat.sub_0_r. destruct rest as [|nj r]; simpl in *; nia.
Qed.

Lemma addCoefficient_range (g : SimpleGraph) (acc : Q) (node : string) :
  acc <= addCoefficient g acc node /\ addCoefficient g acc node <= acc + 1.
Proof.
  unfold addCoefficient. cbv zeta.
  destruct (List.length (getNeighbors g node) <? 2)%nat eqn:E; [split; lra|].
  apply Nat.ltb_ge in E.
  pose proof (countTriangles_le g (getNeighbors g node)) as Ht.
  set (k := List.length (getNeighbors g node)) in *.
  set (t := countTriangles g (getNeighbors g node)) in *.
  assert (Hk : 2 <= natQ k).
  { unfold natQ. change 2 with (inject_Z 2). rewrite <- Zle_Qle. lia. }
  assert (Ht0 : 0 <= natQ t) by apply natQ_nonneg.
  assert (Ht2 : 2 * natQ t <= natQ k * (natQ k - 1)).
  { unfold natQ, Qminus. change 2 with (inject_Z 2). change 1 with (inject_Z 1).
    rewrite <- inject_Z_opp, <- inject_Z_plus, <- !inject_Z_mult, <- Zle_Qle. nia. }
  assert (Hpos : 0 < natQ k * (natQ k - 1) / 2).
  { apply Qlt_shift_div_l; [lra | nra]. }
  assert (Hc : 0 <= natQ t / (natQ k * (natQ k - 1) / 2)
               /\ natQ t / (natQ k * (natQ k - 1) / 2) <= 1).
  { split.
    - apply Qle_shift_div_l; [exact Hpos | lra].
    - apply Qle_shift_div_r; [exact Hpos|].
      rewrite Qmult_1_l. apply Qle_shift_div_l; [lra | lra]. }
  split; lra.
Qed.

Lemma fold_addCoefficient_range (g : SimpleGraph) (l : list string) (acc : Q) :
  acc <= fold_left (addCoefficient g) l acc
  /\ fold_left (addCoefficient g) l acc <= acc + natQ (List.length l).
Proof.
  revert acc. induction l as [|x l IH]; intros acc; cbn [fold_left List.length].
  - change (natQ 0) with 0. split; lra.
  - destruct (IH (addCoefficient g acc x)) as [I1 I2].
    destruct (addCoefficient_range g acc x) as [A1 A2].
    pose proof (natQ_succ (List.length l)) as Hs.
    split; [lra|]. rewrite Hs. lra.
Qed.

End ClusteringRangeFacts.

(** X16.  The average clustering coefficient of every graph lies in [0, 1]:
    a node contributes at most one triangle per pair of its neighbours. *)
Theorem averageClusteringCoefficient_range (g : Graph.SimpleGraph) :
  0 <= Communities.averageClusteringCoefficient g
  /\ Communities.averageClusteringCoefficient g <= 1.
Proof.
  unfold Communities.averageClusteringCoefficient, JsSet.size.
  destruct (List.length (Graph.nodes g) =? 0)%nat eqn:E; [split; lra|].
  apply Nat.eqb_neq in E.
  destruct (fold_addCoefficient_range g (Graph.nodes g) 0) as [F1 F2].
  assert (Hpos : 0 < Communities.natQ (List.length (Graph.nodes g))).
  { unfold Communities.natQ. change 0 with (inject_Z 0). rewrite <- Zlt_Qlt. lia. }
  split.
  - apply Qle_shift_div_l; [exact Hpos | lra].
  - apply Qle_shift_div_r; [exact Hpos | lra].
Qed.

(** ** graph/communities.ts: modularity *)

Section ModularityFacts.
Import Graph Communities CommunityMeasures.
Context {C : Type} `{EqKey C}.

Lemma weightedDegree_from (vs : list Q) (acc : Q) :
  Forall (fun w => 0 <= w) vs -> acc <= fold_left Qplus vs acc.
Proof.
  intros Hv. revert acc. induction Hv as [|w r Hw Hr IH]; intros acc; simpl; [lra|].
  specialize (IH (acc + w)). lra.
Qed.

Lemma weightedDegree_nonneg (m : list (string * Q)) :
  (forall t w, In (t, w) m -> 0 <= w) -> 0 <= weightedDegree m.
Proof.
  intros Hm. unfold weightedDegree. apply weightedDegree_from.
  unfold JsMap.values. apply Forall_forall. intros w Hw.
  apply in_map_iff in Hw. destruct Hw as ([t w'] & <- & Hin). now apply (Hm t).
Qed.

Lemma targetDegree_nonneg (g : SimpleGraph) (target : string) :
  nonNegativeWeights g ->
  0 <= match JsMap.get (edges g) target with
       | Some targetNeighbors => weightedDegree targetNeighbors
       | None => 0
       end.
Proof.
  intros Hg. destruct (JsMap.get (edges g) target) as [tn|] eqn:E; [|lra].
  apply weightedDegree_nonneg. intros t w Hin.
  apply (Hg target tn t w); [now apply get_Some_in | exact Hin].
Qed.

(** The inner loops of the two passes of [modularity], side by side. *)
Lemma modularity_inner (g : SimpleGraph) (communities : list (string * C))
  (W : Q) (source : string) (sourceDegree : Q) (neighbors : list (string * Q))
  (q total : Q) :
  nonNegativeWeights g -> 0 < W -> 0 <= sourceDegree ->
  (forall t w, In (t, w) neighbors -> 0 <= w) ->
  q <= total ->
  let total' :=
    fold_left
      (fun totalWeight '(target, weight) =>
         if String.ltb source target then (totalWeight + weight)%Q else totalWeight)
      neighbors total in
  total <= total'
  /\ fold_left (addModularityTerm g communities W source sourceDegree) neighbors q
     <= total'.
Proof.
  intros Hg HW Hsd. revert q total.
  induction neighbors as [|[t w] r IH]; intros q total Hr Hq; simpl; [split; lra|].
  assert (Hw : 0 <= w) by (apply (Hr t w); now left).
  assert (Hrest : forall t' w', In (t', w') r -> 0 <= w')
    by (intros; eapply Hr; right; eauto).
  pose proof (targetDegree_nonneg g t Hg) as Htd.
  destruct (String.ltb source t).
  - set (td := match JsMap.get (edges g) t with
               | Some tn => weightedDegree tn
               | None => 0
               end) in *.
    assert (Hterm : 0 <= sourceDegree * td / (2 * W)).
    { apply Qle_shift_div_l; [lra | nra]. }
    destruct (option_eqb (JsMap.get communities source) (JsMap.get communities t)).
    + destruct (IH (q + (w - sourceDegree * td / (2 * W))) (total + w) Hrest) as [I1 I2];
        [lra|]. split; [lra | exact I2].
    + destruct (IH q (total + w) Hrest) as [I1 I2]; [lra|]. split; [lra | exact I2].
  - apply IH; assumption.
Qed.

Lemma modularity_outer (g : SimpleGraph) (communities : list (string * C))
  (W : Q) (es : list (string * list (string * Q))) (q total : Q) :
  nonNegativeWeights g -> 0 < W ->
  (forall s m t w, In (s, m) es -> In (t, w) m -> 0 <= w) ->
  q <= total ->
  let total' :=
    fold_left
      (fun totalWeight '(source, neighbors) =>
         fold_left
           (fun totalWeight '(target, weight) =>
              if String.ltb source target then (totalWeight + weight)%Q
              else totalWeight)
           neighbors totalWeight)
      es total in
  total <= total'
  /\ fold_left
       (fun q '(source, neighbors) =>
          fold_left
            (addModularityTerm g communities W source (weightedDegree neighbors))
            neighbors q)
       es q
     <= total'.
Proof.
  intros Hg HW. revert q total.
  induction es as [|[s m] r IH]; intros q total Hes Hq; simpl; [split; lra|].
  assert (Hm : forall t w, In (t, w) m -> 0 <= w)
    by (intros t w; apply (Hes s m t w); now left).
  destruct (modularity_inner g communities W s (weightedDegree m) m q total
              Hg HW (weightedDegree_nonneg m Hm) Hm Hq) as [J1 J2].
  cbv zeta in J1, J2.
  destruct (IH _ _ (fun s' m' t w Hs => Hes s' m' t w (or_intror Hs)) J2) as [I1 I2].
  cbv zeta in I1, I2. split; [lra | exact I2].
Qed.

End ModularityFacts.

(** X17.  With no negative edge weight, [modularity] never exceeds 1; it is
    0 when the total edge weight is 0. *)
Theorem modularity_at_most_one {C : Type} `{EqKey C} (g : Graph.SimpleGraph)
  (communities : list (string * C)) :
  nonNegativeWeights g ->
  CommunityMeasures.modularity g communities <= 1
  /\ (CommunityMeasures.totalEdgeWeight g == 0 ->
      CommunityMeasures.modularity g communities = 0).
Proof.
  intros Hg. unfold CommunityMeasures.modularity. cbv zeta.
  destruct (Qeq_bool (CommunityMeasures.totalEdgeWeight g) 0) eqn:E.
  - split; [lra | reflexivity].
  - assert (Hne : ~ CommunityMeasures.totalEdgeWeight g == 0).
    { intros Heq. apply Qeq_bool_iff in Heq. congruence. }
    split; [|intros Heq; contradiction].
    assert (H0 : 0 <= CommunityMeasures.totalEdgeWeight g).
    { unfold CommunityMeasures.totalEdgeWeight.
      refine (proj1 (modularity_outer g communities 1 (Graph.edges g) 0 0 Hg _ Hg _));
        lra. }
    assert (HW : 0 < CommunityMeasures.totalEdgeWeight g).
    { destruct (Qlt_le_dec 0 (CommunityMeasures.totalEdgeWeight g)) as [Hlt|Hle];
        [exact Hlt|]. exfalso. apply Hne. lra. }
    apply Qle_shift_div_r; [exact HW|]. rewrite Qmult_1_l.
    refine (proj2 (modularity_outer g communities (CommunityMeasures.totalEdgeWeight g)
                     (Graph.edges g) 0 0 Hg HW Hg _)).
    lra.
Qed.

Lemma modularity_at_most_one_witness :
  nonNegativeWeights twoTriangles
  /\ CommunityMeasures.modularity twoTriangles
       (Communities.detectCommunities twoTriangles) <= 1.
Proof.
  assert (Hw : nonNegativeWeights twoTriangles).
  { apply nonNegativeWeights_built.
    - unfold twoTriangles. repeat apply wellFormed_addEdge. apply wellFormed_createGraph.
    - unfold twoTriangles.
      repeat (apply symmetricLoopFree_addEdge; [discriminate | lra |]).
      apply symmetricLoopFree_createGraph. }
  split; [exact Hw|].
  exact (proj1 (modularity_at_most_one twoTriangles
                  (Communities.detectCommunities twoTriangles) Hw)).
Defined.

(** ** graph/communities.ts: the communities of an assignment *)

Section CommunityMapFacts.
Import Graph Communities Gaps CommunityMeasures.
Context {C : Type} `{EqKey C}.

Lemma set_has_map_has {V : Type} (m : list (C * V)) (c : C) :
  JsSet.has (JsMap.keys m) c = JsMap.has m c.
Proof.
  destruct (JsMap.has m c) eqn:E.
  - apply set_has_in. now apply has_in_keys.
  - destruct (JsSet.has (JsMap.keys m) c) eqn:E'; [|reflexivity].
    apply set_has_in in E'. apply has_in_keys in E'. congruence.
Qed.

Lemma getCommunitiesMap_step_keys (result : list (C * list string)) (node : string)
  (community : C) :
  let result1 :=
    if JsMap.has result community then result else JsMap.set result community [] in
  JsMap.keys
    (match JsMap.get result1 community with
     | Some members => JsMap.set result1 community (members ++ [node])
     | None => result1
     end)
  = JsSet.add (JsMap.keys result) community.
Proof.
  cbv zeta. unfold JsSet.add. rewrite set_has_map_has.
  destruct (JsMap.has result community) eqn:E.
  - pose proof E as Hin. apply has_in_keys in Hin.
    destruct (JsMap.get result community); [|reflexivity]. now apply set_present.
  - rewrite get_set_same.
    assert (Hnot : ~ In community (JsMap.keys result)).
    { intros Hin. apply has_in_keys in Hin. congruence. }
    rewrite set_present by (apply in_keys_set; now left).
    rewrite set_absent by exact Hnot.
    unfold JsMap.keys. now rewrite map_app.
Qed.

Lemma getCommunitiesMap_step_get (result : list (C * list string)) (node : string)
  (community c : C) :
  let result1 :=
    if JsMap.has result community then result else JsMap.set result community [] in
  JsMap.get
    (match JsMap.get result1 community with
     | Some members => JsMap.set result1 community (members ++ [node])
     | None => result1
     end) c
  = if keqb c community then Some (clusterMembers result c ++ [node])
    else JsMap.get result c.
Proof.
  cbv zeta. unfold clusterMembers, JsMap.has.
  destruct (keqb c community) eqn:E.
  - apply keqb_eq in E. subst c.
    destruct (JsMap.get result community) eqn:G.
    + rewrite G. now rewrite get_set_same.
    + rewrite get_set_same. now rewrite get_set_same.
  - apply keqb_false_neq in E.
    destruct (JsMap.get result community) eqn:G.
    + rewrite G. rewrite get_set_other; auto.
    + rewrite get_set_same. rewrite !get_set_other; auto.
Qed.

Lemma getCommunitiesMap_run (l : list (string * C)) (acc : list (C * list string)) :
  let result :=
    fold_left
      (fun result '(node, community) =>
         let result1 :=
           if JsMap.has result community then result
           else JsMap.set result community [] in
         match JsMap.get result1 community with
         | Some members => JsMap.set result1 community (members ++ [node])
         | None => result1
         end)
      l acc in
  JsMap.keys result = fold_left JsSet.add (JsMap.values l) (JsMap.keys acc)
  /\ forall c,
       JsMap.get result c
       = match membersOf l c with
         | [] => JsMap.get acc c
         | ms => Some (clusterMembers acc c ++ ms)
         end.
Proof.
  cbv zeta. revert acc.
  induction l as [|[node community] r IH]; intros acc; cbn [fold_left].
  - split; [reflexivity|]. intros c. reflexivity.
  - destruct (IH (let result1 :=
                    if JsMap.has acc community then acc
                    else JsMap.set acc community [] in
                  match JsMap.get result1 community with
                  | Some members => JsMap.set result1 community (members ++ [node])
                  | None => result1
                  end)) as [I1 I2].
    cbv zeta in I1, I2. split.
    + rewrite I1, getCommunitiesMap_step_keys. reflexivity.
    + intros c. rewrite I2. rewrite getCommunitiesMap_step_get.
      pose proof (clusterMembers_step acc node community c) as Hcm.
      cbv zeta in Hcm. rewrite Hcm.
      unfold membersOf. cbn [filter snd].
      destruct (keqb c community) eqn:E.
      * apply keqb_eq in E. subst c. rewrite keqb_refl. cbn [map fst].
        destruct (map fst (filter (fun e => keqb (snd e) community) r)) as [|x xs].
        -- reflexivity.
        -- now rewrite <- app_assoc.
      * replace (keqb community c) with false.
        2:{ symmetry. apply keqb_false_neq in E.
            destruct (keqb community c) eqn:E'; [|reflexivity].
            apply keqb_eq in E'. congruence. }
        reflexivity.
Qed.

Lemma keys_fold_set_entries {V W : Type} (f : C -> V -> W) (m : list (C * V))
  (acc : list (C * W)) :
  NoDup (JsMap.keys acc ++ JsMap.keys m) ->
  JsMap.keys (fold_left (fun labels '(k, v) => JsMap.set labels k (f k v)) m acc)
  = JsMap.keys acc ++ JsMap.keys m.
Proof.
  revert acc. induction m as [|[k v] m IH]; intros acc Hnd; simpl.
  - now rewrite app_nil_r.
  - assert (Hnot : ~ In k (JsMap.keys acc)).
    { apply NoDup_remove_2 in Hnd. intros Hin. apply Hnd. apply in_or_app. now left. }
    rewrite IH.
    + rewrite set_absent by exact Hnot. unfold JsMap.keys.
      rewrite map_app, <- app_assoc. reflexivity.
    + rewrite set_absent by exact Hnot. unfold JsMap.keys in *.
      rewrite map_app, <- app_assoc. exact Hnd.
Qed.

End CommunityMapFacts.

(** X18.  [getCommunitiesMap] lists the communities in order of first
    appearance, as many as [getCommunityCount] counts; the list of a
    community holds exactly the nodes assigned to it, in insertion order, and
    is never empty; [labelCommunities] gives one label to each of these
    communities, in the same order. *)
Theorem getCommunitiesMap_partition {C : Type} `{EqKey C}
  (communities : list (string * C))
  (nodeNames : list (string * string)) (centrality : list (string * Q)) :
  JsMap.keys (Communities.getCommunitiesMap communities)
  = JsSet.ofList (JsMap.values communities)
  /\ JsMap.size (Communities.getCommunitiesMap communities)
     = CommunityMeasures.getCommunityCount communities
  /\ (forall c members,
        JsMap.get (Communities.getCommunitiesMap communities) c = Some members ->
        members = membersOf communities c /\ members <> [])
  /\ JsMap.keys (CommunityMeasures.labelCommunities communities nodeNames centrality)
     = JsMap.keys (Communities.getCommunitiesMap communities).
Proof.
  destruct (getCommunitiesMap_run communities []) as [Hkeys Hget].
  cbv zeta in Hkeys, Hget. fold (Communities.getCommunitiesMap communities) in Hkeys, Hget.
  split; [exact Hkeys|]. split.
  { unfold CommunityMeasures.getCommunityCount, JsSet.size, JsMap.size.
    change (JsSet.ofList (JsMap.values communities))
      with (fold_left JsSet.add (JsMap.values communities)
                      (JsMap.keys (@nil (C * list string)))).
    rewrite <- Hkeys. unfold JsMap.keys. now rewrite length_map. }
  split.
  { intros c members Hc. rewrite Hget in Hc.
    destruct (membersOf communities c) as [|x xs]; [discriminate|].
    simpl in Hc. injection Hc as <-. split; [reflexivity | discriminate]. }
  unfold CommunityMeasures.labelCommunities. cbv zeta.
  rewrite keys_fold_set_entries; [reflexivity|].
  simpl. apply NoDup_keys_getCommunitiesMap.
Qed.

(** ** PMI weighting: ranges and symmetry *)

Section PMIRangeFacts.
Import PMI.
Variable log2 : Q -> Q.

Lemma Math_max_range (a b hi : Q) : a <= hi -> b <= hi -> Math_max a b <= hi.
Proof. unfold Math_max. destruct (Qle_bool a b); auto. Qed.

Lemma npmi_range (this : PMICalculator) (a b : string) (counts : EntityCounts) :
  -1 <= npmi log2 this a b counts /\ npmi log2 this a b counts <= 1.
Proof.
  unfold npmi. cbv zeta.
  destruct (Qeq_bool (pmi log2 this a b counts) 0); [split; lra|].
  destruct (Qeq_bool _ 0); [split; lra|].
  split.
  - apply Math_max_ge_l.
  - apply Math_max_range; [lra | apply Math_min_le_l].
Qed.

Lemma applyToEdge_run (this : PMICalculator) (counts : EntityCounts)
  (useNPMI combine filterNeg : bool) (edges : list Edge) (acc : list PMIResult) :
  fold_left (applyToEdge log2 this counts useNPMI combine filterNeg) edges acc
  = acc ++ map (resultOf log2 this useNPMI combine counts)
               (filter (keptEdge log2 this useNPMI filterNeg counts) edges).
Proof.
  revert acc. induction edges as [|e r IH]; intros acc; cbn [fold_left filter].
  - now rewrite app_nil_r.
  - rewrite IH. unfold applyToEdge at 1, keptEdge at 2.
    destruct (filterNeg && Qltb (pmiValueOf log2 this useNPMI counts e) 0);
      cbn [negb map].
    + reflexivity.
    + rewrite <- app_assoc. unfold resultOf at 2.
      destruct combine; reflexivity.
Qed.

End PMIRangeFacts.

Lemma usableCounts_sample : usableCounts defaultCalculator sampleCounts.
Proof.
  unfold usableCounts, defaultCalculator, sampleCounts. simpl.
  split; [reflexivity|]. split; [reflexivity|].
  split; intros k c Hin;
    repeat (destruct Hin as [Hin|Hin]; [injection Hin as _ <-; discriminate|]);
    destruct Hin.
Qed.

(** X19.  On usable counts NPMI lies in [-1, 1], whatever [Math.log2]
    returns; PMI and NPMI are 0 for a pair seen fewer than [minFrequency]
    times. *)
Theorem npmi_in_range (log2 : Q -> Q) (this : PMI.PMICalculator) (a b : string)
  (counts : PMI.EntityCounts) :
  usableCounts this counts ->
  -1 <= PMI.npmi log2 this a b counts
  /\ PMI.npmi log2 this a b counts <= 1
  /\ (nullish (JsMap.get (PMI.pairCounts counts) (PMI.pairKey a b)) 0
        < PMI.minFrequency this ->
      PMI.pmi log2 this a b counts = 0 /\ PMI.npmi log2 this a b counts = 0).
Proof.
  intros _.
  destruct (npmi_range log2 this a b counts) as [H1 H2].
  split; [exact H1|]. split; [exact H2|].
  intros Hlow.
  assert (Hpmi : PMI.pmi log2 this a b counts = 0).
  { unfold PMI.pmi. cbv zeta.
    replace (Qltb (nullish (JsMap.get (PMI.pairCounts counts) (PMI.pairKey a b)) 0)
                  (PMI.minFrequency this)) with true; [reflexivity|].
    symmetry. unfold Qltb. apply negb_true_iff.
    destruct (Qle_bool _ _) eqn:E; [|reflexivity].
    apply Qle_bool_iff in E. exfalso. apply (Qlt_not_le _ _ Hlow E). }
  split; [exact Hpmi|]. unfold PMI.npmi. cbv zeta. now rewrite Hpmi.
Qed.

Lemma npmi_in_range_witness :
  usableCounts defaultCalculator sampleCounts
  /\ -1 <= PMI.npmi (fun q => q) defaultCalculator "a" "b" sampleCounts
  /\ PMI.npmi (fun q => q) defaultCalculator "a" "b" sampleCounts <= 1.
Proof.
  split; [exact usableCounts_sample|].
  destruct (npmi_in_range (fun q => q) defaultCalculator "a" "b" sampleCounts
              usableCounts_sample) as (H1 & H2 & _).
  split; [exact H1 | exact H2].
Defined.

(** X20.  On usable counts and for every setting of the options,
    [applyToEdges] returns, in
    order, one result for each edge it keeps; it keeps every edge when
    [filterNegative] is off.  A pure weight ([combineWithFrequency] off) is
    never negative, and at most 1 with NPMI; a combined NPMI weight of an
    edge with a non-negative input weight lies between that weight and twice
    that weight. *)
Theorem applyToEdges_weight_range (log2 : Q -> Q) (this : PMI.PMICalculator)
  (edges : list PMI.Edge) (counts : PMI.EntityCounts) (options : PMI.ApplyOptions) :
  usableCounts this counts ->
  let useNPMI := nullish (PMI.useNPMI options) true in
  let combine := nullish (PMI.combineWithFrequency options) true in
  let filterNeg := nullish (PMI.filterNegative options) true in
  let out := PMI.applyToEdges log2 this edges counts options in
  out = map (resultOf log2 this useNPMI combine counts)
            (filter (keptEdge log2 this useNPMI filterNeg counts) edges)
  /\ (filterNeg = false -> List.length out = List.length edges)
  /\ (combine = false ->
      Forall (fun r => 0 <= PMI.resWeight r
                       /\ (useNPMI = true -> PMI.resWeight r <= 1)) out)
  /\ (combine = true -> useNPMI = true ->
      Forall2 (fun e r => 0 <= PMI.weight e ->
                          PMI.weight e <= PMI.resWeight r
                          /\ PMI.resWeight r <= 2 * PMI.weight e)
              (filter (keptEdge log2 this useNPMI filterNeg counts) edges) out).
Proof.
  intros _ useNPMI combine filterNeg out.
  assert (Hout : out = map (resultOf log2 this useNPMI combine counts)
                           (filter (keptEdge log2 this useNPMI filterNeg counts) edges)).
  { unfold out, PMI.applyToEdges. cbv zeta. now rewrite applyToEdge_run. }
  split; [exact Hout|]. rewrite Hout. split.
  { intros Hf. rewrite length_map. f_equal. unfold keptEdge. rewrite Hf. simpl.
    clear. induction edges as [|e r IH]; simpl; congruence. }
  split.
  { intros Hc. rewrite Hc. apply Forall_forall. intros r Hr.
    apply in_map_iff in Hr. destruct Hr as (e & <- & _). simpl. split.
    - apply Math_max_ge_l.
    - intros Hn. rewrite Hn. simpl. apply Math_max_range; [lra|].
      apply npmi_range. }
  intros Hc Hn. rewrite Hc, Hn. clear Hout.
  generalize (filter (keptEdge log2 this true filterNeg counts) edges).
  intros l. induction l as [|e l IH]; cbn [map]; constructor; [|exact IH].
  intros Hw. unfold resultOf. cbn [PMI.resWeight].
  pose proof (Math_max_ge_l 0 (PMI.pmiValueOf log2 this true counts e)) as Hlo.
  assert (Hhi : Math_max 0 (PMI.pmiValueOf log2 this true counts e) <= 1).
  { apply Math_max_range; [lra | apply npmi_range]. }
  revert Hlo Hhi. generalize (Math_max 0 (PMI.pmiValueOf log2 this true counts e)).
  intros M Hlo Hhi. split; nra.
Qed.

Lemma applyToEdges_weight_range_witness :
  usableCounts defaultCalculator sampleCounts
  /\ List.length
       (PMI.applyToEdges (fun q => q) defaultCalculator sampleEdges sampleCounts
          (PMI.mkApplyOptions None None (Some false)))
     = List.length sampleEdges.
Proof.
  split; [exact usableCounts_sample|].
  destruct (applyToEdges_weight_range (fun q => q) defaultCalculator sampleEdges
              sampleCounts (PMI.mkApplyOptions None None (Some false))
              usableCounts_sample) as (_ & Hlen & _).
  apply Hlen. reflexivity.
Defined.

Section PMISymmetryFacts.
Import PMI.

Lemma sortPair_comm (a b : string) : JsString.sortPair a b = JsString.sortPair b a.
Proof.
  unfold JsString.sortPair. destruct (String.eqb a b) eqn:E.
  - apply String.eqb_eq in E. now subst b.
  - apply String.eqb_neq in E. destruct (ltb_total a b E) as [L|L].
    + rewrite L, (ltb_asym a b L). reflexivity.
    + rewrite L, (ltb_asym b a L). reflexivity.
Qed.

Lemma pairKey_comm (a b : string) : pairKey a b = pairKey b a.
Proof. unfold pairKey. now rewrite sortPair_comm. Qed.

Lemma Qeq_bool_comp (x y c : Q) : x == y -> Qeq_bool x c = Qeq_bool y c.
Proof.
  intros Hxy. destruct (Qeq_bool y c) eqn:E.
  - apply Qeq_bool_iff. apply Qeq_bool_iff in E. now rewrite Hxy.
  - destruct (Qeq_bool x c) eqn:E'; [|reflexivity].
    apply Qeq_bool_iff in E'. rewrite Hxy in E'. apply Qeq_bool_iff in E'. congruence.
Qed.

Lemma Qle_bool_comp_r (a x y : Q) : x == y -> Qle_bool a x = Qle_bool a y.
Proof.
  intros Hxy. destruct (Qle_bool a y) eqn:E.
  - apply Qle_bool_iff. apply Qle_bool_iff in E. now rewrite Hxy.
  - destruct (Qle_bool a x) eqn:E'; [|reflexivity].
    apply Qle_bool_iff in E'. rewrite Hxy in E'. apply Qle_bool_iff in E'. congruence.
Qed.

Lemma Math_min_comp (a x y : Q) : x == y -> Math_min a x == Math_min a y.
Proof.
  intros Hxy. unfold Math_min. rewrite (Qle_bool_comp_r a x y Hxy).
  destruct (Qle_bool a y); [reflexivity | exact Hxy].
Qed.

Lemma Math_max_comp (a x y : Q) : x == y -> Math_max a x == Math_max a y.
Proof.
  intros Hxy. unfold Math_max. rewrite (Qle_bool_comp_r a x y Hxy).
  destruct (Qle_bool a y); [exact Hxy | reflexivity].
Qed.

End PMISymmetryFacts.

(** X21.  On usable counts PMI and NPMI do not depend on the order of the
    two entities,
    provided [Math.log2] gives equal results for equal numbers: the pair key
    is the same for both orders, and the two marginal probabilities are
    only multiplied. *)
Theorem pmi_symmetric (log2 : Q -> Q) (this : PMI.PMICalculator) (a b : string)
  (counts : PMI.EntityCounts) :
  usableCounts this counts ->
  (forall x y, x == y -> log2 x == log2 y) ->
  PMI.pairKey a b = PMI.pairKey b a
  /\ PMI.pmi log2 this a b counts == PMI.pmi log2 this b a counts
  /\ PMI.npmi log2 this a b counts == PMI.npmi log2 this b a counts.
Proof.
  intros _ Hlog.
  assert (Hpmi : PMI.pmi log2 this a b counts == PMI.pmi log2 this b a counts).
  { unfold PMI.pmi. cbv zeta. rewrite (pairKey_comm b a).
    destruct (Qltb _ (PMI.minFrequency this)); [reflexivity|].
    apply Hlog. apply Qmult_comp; [reflexivity|].
    apply Qinv_comp. apply Qmult_comm. }
  split; [apply pairKey_comm|]. split; [exact Hpmi|].
  unfold PMI.npmi. cbv zeta. rewrite (pairKey_comm b a).
  rewrite (Qeq_bool_comp _ _ 0 Hpmi).
  destruct (Qeq_bool (PMI.pmi log2 this b a counts) 0); [reflexivity|].
  destruct (Qeq_bool _ 0); [reflexivity|].
  apply Math_max_comp, Math_min_comp.
  apply Qmult_comp; [exact Hpmi | reflexivity].
Qed.

Lemma pmi_symmetric_witness :
  usableCounts defaultCalculator sampleCounts
  /\ PMI.pmi (fun q => q) defaultCalculator "a" "b" sampleCounts
     == PMI.pmi (fun q => q) defaultCalculator "b" "a" sampleCounts.
Proof.
  split; [exact usableCounts_sample|].
  exact (proj1 (proj2 (pmi_symmetric (fun q => q) defaultCalculator
                         "a" "b" sampleCounts usableCounts_sample
                         (fun x y Hxy => Hxy)))).
Defined.

(** ** PMI weighting: [buildCounts] *)

Section BuildCountsFacts.
Import PMI PMICounts.

Lemma countWindows_entityCounts (windows : list (list string))
  (ec pc : list (string * Q)) :
  fst (fold_left countWindow windows (ec, pc))
  = fold_left (fun ec w => fold_left increment (JsSet.ofList w) ec) windows ec.
Proof.
  revert ec pc. induction windows as [|w r IH]; intros ec pc; simpl; [reflexivity|].
  apply IH.
Qed.

Lemma countWindows_pairCounts (windows : list (list string))
  (ec pc : list (string * Q)) :
  snd (fold_left countWindow windows (ec, pc))
  = fold_left (fun pc w => countPairs (JsSet.ofList w) pc) windows pc.
Proof.
  revert ec pc. induction windows as [|w r IH]; intros ec pc; simpl; [reflexivity|].
  apply IH.
Qed.

Lemma get_increment (m : list (string * Q)) (k e : string) :
  JsMap.get (increment m k) e
  = if String.eqb e k then Some (nullish (JsMap.get m e) 0 + 1) else JsMap.get m e.
Proof.
  unfold increment. rewrite get_set_cases.
  destruct (String.eqb e k) eqn:E; [|reflexivity].
  apply String.eqb_eq in E. now subst k.
Qed.

(** One pass over the distinct entities of a window. *)
Lemma get_increment_all (l : list string) (m : list (string * Q)) (e : string) :
  NoDup l ->
  JsMap.get (fold_left increment l m) e
  = if JsSet.has l e then Some (nullish (JsMap.get m e) 0 + 1) else JsMap.get m e.
Proof.
  intros Hnd. revert m. induction Hnd as [|x r Hx Hr IH]; intros m; simpl; [reflexivity|].
  rewrite IH, get_increment. change (keqb e x) with (String.eqb e x).
  destruct (String.eqb e x) eqn:E; simpl.
  - apply String.eqb_eq in E. subst x.
    destruct (JsSet.has r e) eqn:Er; [|reflexivity].
    apply set_has_in in Er. contradiction.
  - reflexivity.
Qed.

Lemma has_ofList (w : list string) (e : string) :
  JsSet.has (JsSet.ofList w) e = JsSet.has w e.
Proof.
  destruct (JsSet.has w e) eqn:E.
  - apply set_has_in. apply (proj2 (in_ofList w e)). now apply (proj1 (set_has_in w e)).
  - destruct (JsSet.has (JsSet.ofList w) e) eqn:E'; [|reflexivity].
    apply (proj1 (set_has_in _ _)) in E'. apply (proj1 (in_ofList w e)) in E'.
    apply (proj2 (set_has_in w e)) in E'. congruence.
Qed.

Lemma entityCounts_run (windows : list (list string)) (m : list (string * Q))
  (e : string) (n : nat) :
  match JsMap.get m e with
  | Some c => c == Communities.natQ n /\ (1 <= n)%nat
  | None => n = 0%nat
  end ->
  match JsMap.get
          (fold_left (fun ec w => fold_left increment (JsSet.ofList w) ec) windows m) e
  with
  | Some c => c == Communities.natQ (n + windowsWith e windows)
              /\ (1 <= n + windowsWith e windows)%nat
  | None => (n + windowsWith e windows = 0)%nat
  end.
Proof.
  revert m n. induction windows as [|w r IH]; intros m n Hm; cbn [fold_left].
  - unfold windowsWith. simpl. rewrite Nat.add_0_r. exact Hm.
  - unfold windowsWith. cbn [filter].
    destruct (JsSet.has w e) eqn:E.
    + cbn [List.length]. rewrite Nat.add_succ_r, <- Nat.add_succ_l.
      apply IH. rewrite get_increment_all by apply NoDup_ofList.
      rewrite has_ofList, E. split; [|lia].
      rewrite natQ_succ. destruct (JsMap.get m e) as [c|]; simpl.
      * destruct Hm as [Hc _]. now rewrite Hc.
      * subst n. reflexivity.
    + apply IH. rewrite get_increment_all by apply NoDup_ofList.
      now rewrite has_ofList, E.
Qed.

End BuildCountsFacts.

(** X22.  [buildCounts] sets [total] to the number of windows and counts, for
    each entity, the windows that list it (once per window, however often the
    window repeats it); an entity listed by no window has no count, and no
    count exceeds [total]. *)
Theorem buildCounts_entity_counts (windows : list (list string)) (e : string) :
  PMI.total (PMICounts.buildCounts windows) = Communities.natQ (List.length windows)
  /\ match JsMap.get (PMI.entityCounts (PMICounts.buildCounts windows)) e with
     | Some c => c == Communities.natQ (windowsWith e windows)
                 /\ 1 <= c
                 /\ c <= PMI.total (PMICounts.buildCounts windows)
     | None => windowsWith e windows = 0%nat
     end.
Proof.
  unfold PMICounts.buildCounts. cbv zeta.
  pose proof (countWindows_entityCounts windows [] []) as Hfst.
  destruct (fold_left PMICounts.countWindow windows ([], [])) as [ec pc].
  simpl in Hfst. subst ec. simpl. split; [reflexivity|].
  pose proof (entityCounts_run windows [] e 0 eq_refl) as Hrun.
  simpl in Hrun.
  destruct (JsMap.get _ e) as [c|]; [|exact Hrun].
  destruct Hrun as [Hc Hn]. split; [exact Hc|]. rewrite Hc. split.
  - unfold Communities.natQ. change 1 with (inject_Z 1). rewrite <- Zle_Qle. lia.
  - unfold Communities.natQ. rewrite <- Zle_Qle. apply inj_le.
    unfold windowsWith. apply filter_length_le.
Qed.

Section PairCountFacts.
Import PMI PMICounts.

Lemma join_bar_inj (x y a b : string) :
  noBar x = true -> noBar a = true ->
  (x ++ "|" ++ y = a ++ "|" ++ b)%string -> x = a /\ y = b.
Proof.
  revert a. induction x as [|c x IH]; intros [|d a] Hx Ha Heq; simpl in *.
  - injection Heq as ->. auto.
  - injection Heq as <- _. apply andb_true_iff in Ha. destruct Ha as [Ha _].
    discriminate Ha.
  - injection Heq as -> _. apply andb_true_iff in Hx. destruct Hx as [Hx _].
    discriminate Hx.
  - injection Heq as -> Heq.
    apply andb_true_iff in Hx. apply andb_true_iff in Ha.
    destruct (IH a (proj2 Hx) (proj2 Ha) Heq) as [-> ->]. auto.
Qed.

Lemma pairKey_eqb (a b x y : string) :
  noBar a = true -> noBar b = true -> noBar x = true -> noBar y = true ->
  String.eqb (pairKey a b) (pairKey x y) = pairHit a b x y.
Proof.
  intros Ha Hb Hx Hy. unfold pairHit.
  destruct ((x =? a) && (y =? b) || (x =? b) && (y =? a))%string eqn:E.
  - apply String.eqb_eq.
    apply orb_true_iff in E. rewrite !andb_true_iff, !String.eqb_eq in E.
    destruct E as [[-> ->]|[-> ->]]; [reflexivity | apply pairKey_comm].
  - apply String.eqb_neq. intros Heq.
    assert (Hhit : (x = a /\ y = b) \/ (x = b /\ y = a)).
    { unfold pairKey, JsString.sortPair in Heq.
      destruct (String.ltb b a), (String.ltb y x); cbn [JsString.join] in Heq;
        apply join_bar_inj in Heq; try assumption; destruct Heq; subst; auto. }
    apply orb_false_iff in E. rewrite !andb_false_iff in E.
    destruct E as [E1 E2].
    destruct Hhit as [[-> ->]|[-> ->]].
    + rewrite !String.eqb_refl in E1. destruct E1; discriminate.
    + rewrite !String.eqb_refl in E2. destruct E2; discriminate.
Qed.

Lemma countPairsWith_keys (a : string) (later : list string) (m : list (string * Q)) :
  countPairsWith a later m = fold_left increment (map (pairKey a) later) m.
Proof.
  unfold countPairsWith. revert m.
  induction later as [|b r IH]; intros m; simpl; [reflexivity | apply IH].
Qed.

Lemma countPairs_keys (u : list string) (m : list (string * Q)) :
  countPairs u m = fold_left increment (pairKeys u) m.
Proof.
  revert m. induction u as [|a later IH]; intros m; simpl; [reflexivity|].
  now rewrite fold_left_app, IH, countPairsWith_keys.
Qed.

(** Incrementing a list of keys adds, to the count of [K], the number of
    times [K] occurs in the list. *)
Lemma increment_keys (ks : list string) (m : list (string * Q)) (K : string) (n : nat) :
  match JsMap.get m K with
  | Some c => c == Communities.natQ n /\ (1 <= n)%nat
  | None => n = 0%nat
  end ->
  match JsMap.get (fold_left increment ks m) K with
  | Some c => c == Communities.natQ (n + List.length (filter (String.eqb K) ks))
              /\ (1 <= n + List.length (filter (String.eqb K) ks))%nat
  | None => (n + List.length (filter (String.eqb K) ks) = 0)%nat
  end.
Proof.
  revert m n. induction ks as [|k r IH]; intros m n Hm; cbn [fold_left filter].
  - simpl. rewrite Nat.add_0_r. exact Hm.
  - destruct (String.eqb K k) eqn:E.
    + cbn [List.length]. rewrite Nat.add_succ_r, <- Nat.add_succ_l.
      apply IH. rewrite get_increment, E. split; [|lia].
      rewrite natQ_succ. destruct (JsMap.get m K) as [c|]; simpl.
      * destruct Hm as [Hc _]. now rewrite Hc.
      * subst n. reflexivity.
    + apply IH. now rewrite get_increment, E.
Qed.

Lemma count_pairKeys (a b : string) (u : list string) :
  noBar a = true -> noBar b = true -> Forall (fun x => noBar x = true) u ->
  List.length (filter (String.eqb (pairKey a b)) (pairKeys u)) = pairHits a b u.
Proof.
  intros Ha Hb Hu. induction Hu as [|x later Hx Hl IH]; simpl; [reflexivity|].
  rewrite filter_app, length_app, IH. f_equal.
  clear IH. induction Hl as [|y r Hy Hr IH]; simpl; [reflexivity|].
  rewrite (pairKey_eqb a b x y Ha Hb Hx Hy).
  destruct (pairHit a b x y); simpl; now rewrite IH.
Qed.

Lemma count_eqb_NoDup (b : string) (l : list string) :
  NoDup l ->
  List.length (filter (fun y => String.eqb y b) l) = if JsSet.has l b then 1%nat else 0%nat.
Proof.
  induction 1 as [|x r Hx Hr IH]; simpl; [reflexivity|].
  change (keqb b x) with (String.eqb b x). rewrite (String.eqb_sym b x).
  destruct (String.eqb x b) eqn:E; simpl.
  - apply String.eqb_eq in E. subst x. rewrite IH.
    destruct (JsSet.has r b) eqn:Er; [|reflexivity].
    apply set_has_in in Er. contradiction.
  - exact IH.
Qed.

Lemma filter_none {X : Type} (p : X -> bool) (l : list X) :
  (forall x, p x = false) -> filter p l = [].
Proof.
  intros Hp. induction l as [|x r IH]; simpl; [reflexivity|]. now rewrite Hp.
Qed.

(** A duplicate-free list holds [a] and [b] at one pair of indices, or at
    none. *)
Lemma pairHits_NoDup (a b : string) (u : list string) :
  a <> b -> NoDup u ->
  pairHits a b u = if JsSet.has u a && JsSet.has u b then 1%nat else 0%nat.
Proof.
  intros Hab. induction 1 as [|x later Hx Hl IH]; simpl; [reflexivity|].
  change (keqb a x) with (String.eqb a x). change (keqb b x) with (String.eqb b x).
  rewrite IH. unfold pairHit.
  assert (Eab : String.eqb a b = false) by now apply String.eqb_neq.
  assert (Eba : String.eqb b a = false) by (rewrite String.eqb_sym; exact Eab).
  destruct (String.eqb x a) eqn:Exa.
  - apply String.eqb_eq in Exa. subst x. rewrite String.eqb_refl, Eab, Eba. simpl.
    replace (JsSet.has later a) with false.
    2:{ symmetry. destruct (JsSet.has later a) eqn:E; [|reflexivity].
        apply set_has_in in E. contradiction. }
    rewrite (filter_ext _ (fun y => String.eqb y b)).
    2:{ intros y. destruct (String.eqb y b), (String.eqb y a); reflexivity. }
    rewrite (count_eqb_NoDup b later Hl). simpl.
    destruct (JsSet.has later b); reflexivity.
  - rewrite (String.eqb_sym a x), Exa. simpl.
    destruct (String.eqb x b) eqn:Exb.
    + apply String.eqb_eq in Exb. subst x. rewrite String.eqb_refl. simpl.
      replace (JsSet.has later b) with false.
      2:{ symmetry. destruct (JsSet.has later b) eqn:E; [|reflexivity].
          apply set_has_in in E. contradiction. }
      rewrite (count_eqb_NoDup a later Hl).
      destruct (JsSet.has later a); reflexivity.
    + rewrite (String.eqb_sym b x), Exb. rewrite filter_none by reflexivity.
      reflexivity.
Qed.

Lemma pairCounts_keys (windows : list (list string)) (pc : list (string * Q)) :
  fold_left (fun pc w => countPairs (JsSet.ofList w) pc) windows pc
  = fold_left increment (flat_map (fun w => pairKeys (JsSet.ofList w)) windows) pc.
Proof.
  revert pc. induction windows as [|w r IH]; intros pc; simpl; [reflexivity|].
  now rewrite fold_left_app, IH, countPairs_keys.
Qed.

Lemma count_window_keys (a b : string) (windows : list (list string)) :
  a <> b -> noBar a = true -> noBar b = true ->
  Forall (Forall (fun x => noBar x = true)) windows ->
  List.length (filter (String.eqb (pairKey a b))
                      (flat_map (fun w => pairKeys (JsSet.ofList w)) windows))
  = windowsWithBoth a b windows.
Proof.
  intros Hab Ha Hb Hw. unfold windowsWithBoth.
  induction Hw as [|w r Hw Hr IH]; simpl; [reflexivity|].
  rewrite filter_app, length_app, IH.
  rewrite count_pairKeys; try assumption.
  2:{ apply Forall_forall. intros x Hx. apply (proj1 (in_ofList w x)) in Hx.
      rewrite Forall_forall in Hw. now apply Hw. }
  rewrite (pairHits_NoDup a b _ Hab (NoDup_ofList w)).
  rewrite !has_ofList.
  destruct (JsSet.has w a && JsSet.has w b); reflexivity.
Qed.

End PairCountFacts.

(** X23.  When no entity id contains the character '|', [buildCounts] counts
    for a pair of different entities the windows that list both (under the
    key of the pair, which is the same for both orders); a pair that no
    window lists has no count. *)
Theorem buildCounts_pair_counts (windows : list (list string)) (a b : string) :
  a <> b -> noBar a = true -> noBar b = true ->
  Forall (Forall (fun x => noBar x = true)) windows ->
  match JsMap.get (PMI.pairCounts (PMICounts.buildCounts windows)) (PMI.pairKey a b) with
  | Some c => c == Communities.natQ (windowsWithBoth a b windows) /\ 1 <= c
  | None => windowsWithBoth a b windows = 0%nat
  end.
Proof.
  intros Hab Ha Hb Hw. unfold PMICounts.buildCounts. cbv zeta.
  pose proof (countWindows_pairCounts windows [] []) as Hsnd.
  destruct (fold_left PMICounts.countWindow windows ([], [])) as [ec pc].
  simpl in Hsnd. subst pc. simpl.
  rewrite pairCounts_keys.
  pose proof (increment_keys
                (flat_map (fun w => pairKeys (JsSet.ofList w)) windows) []
                (PMI.pairKey a b) 0 eq_refl) as Hrun.
  rewrite (count_window_keys a b windows Hab Ha Hb Hw) in Hrun. simpl in Hrun.
  destruct (JsMap.get _ (PMI.pairKey a b)) as [c|]; [|exact Hrun].
  destruct Hrun as [Hc Hn]. split; [exact Hc|]. rewrite Hc.
  unfold Communities.natQ. change 1 with (inject_Z 1). rewrite <- Zle_Qle. lia.
Qed.

Lemma buildCounts_pair_counts_witness :
  match JsMap.get
          (PMI.pairCounts (PMICounts.buildCounts [["a"; "b"; "a"]; ["b"; "c"]; ["b"; "a"]]))
          (PMI.pairKey "a" "b")
  with
  | Some c => c == Communities.natQ
                     (windowsWithBoth "a" "b" [["a"; "b"; "a"]; ["b"; "c"]; ["b"; "a"]])
              /\ 1 <= c
  | None => windowsWithBoth "a" "b" [["a"; "b"; "a"]; ["b"; "c"]; ["b"; "a"]] = 0%nat
  end.
Proof.
  apply (buildCounts_pair_counts [["a"; "b"; "a"]; ["b"; "c"]; ["b"; "a"]] "a" "b")%string.
  - discriminate.
  - reflexivity.
  - reflexivity.
  - repeat constructor.
Defined.

(** ** extraction/ensemble.ts: statistics and confidences of [merge] *)

Section MergeStatsFacts.
Import Types Ensemble.

Lemma countLevel_total (l : list EnsembleEntity) :
  (countLevel both l + countLevel textrazor_only l + countLevel nuextract_only l
   = List.length l)%nat.
Proof.
  unfold countLevel. induction l as [|e r IH]; simpl; [reflexivity|].
  destruct (agreementLevel e); simpl; lia.
Qed.

Lemma countLevel_nuextract_forTextRazor (this : EnsembleAggregator)
  (nu tr : list EntityWithProvenance) :
  countLevel nuextract_only (map (resultForTextRazor this nu) tr) = 0%nat.
Proof.
  unfold countLevel. induction tr as [|t r IH]; [reflexivity|].
  cbn [map filter]. unfold resultForTextRazor at 1.
  destruct (findMatch this t nu); simpl; exact IH.
Qed.

Lemma countLevel_single_nuextract (this : EnsembleAggregator)
  (l : list EntityWithProvenance) :
  countLevel textrazor_only
    (map (fun n => createSingleSourceEntity this n src_nuextract) l) = 0%nat
  /\ countLevel nuextract_only
       (map (fun n => createSingleSourceEntity this n src_nuextract) l)
     = List.length l.
Proof.
  unfold countLevel. induction l as [|e r [IH1 IH2]]; [split; reflexivity|].
  cbn [map filter]. simpl. split; [exact IH1 | now rewrite IH2].
Qed.

Lemma merge_stats (this : EnsembleAggregator) (tr nu : list EntityWithProvenance) :
  snd (merge this tr nu)
  = mkStats (List.length tr) (List.length nu)
            (List.length (fst (merge this tr nu)))
            (countLevel both (fst (merge this tr nu)))
            (countLevel textrazor_only (fst (merge this tr nu)))
            (countLevel nuextract_only (fst (merge this tr nu))).
Proof.
  unfold merge. destruct (fold_left _ tr _) as [result matched]. reflexivity.
Qed.

End MergeStatsFacts.

(** X24.  The statistics of [merge] add up: every result has exactly one
    agreement level, so [mergedCount] is the sum of the three level counts;
    every first-list entity yields one 'both' or 'textrazor_only' result, in
    input order and under its own id; and only second-list entities can be
    'nuextract_only'. *)
Theorem merge_stats_add_up (this : Ensemble.EnsembleAggregator)
  (textRazorEntities nuExtractEntities : list Ensemble.EntityWithProvenance) :
  let result := fst (Ensemble.merge this textRazorEntities nuExtractEntities) in
  let stats := snd (Ensemble.merge this textRazorEntities nuExtractEntities) in
  Ensemble.textrazorCount stats = List.length textRazorEntities
  /\ Ensemble.nuextractCount stats = List.length nuExtractEntities
  /\ Ensemble.mergedCount stats = List.length result
  /\ (Ensemble.mergedCount stats
      = Ensemble.bothAgreed stats + Ensemble.textrazorOnly stats
        + Ensemble.nuextractOnly stats)%nat
  /\ (Ensemble.bothAgreed stats + Ensemble.textrazorOnly stats
      = Ensemble.textrazorCount stats)%nat
  /\ (Ensemble.nuextractOnly stats <= Ensemble.nuextractCount stats)%nat
  /\ map (fun r => Types.id (Ensemble.base (Ensemble.entity r)))
         (firstn (List.length textRazorEntities) result)
     = map (fun t => Types.id (Ensemble.base t)) textRazorEntities.
Proof.
  intros result stats. unfold stats. rewrite merge_stats.
  cbn [Ensemble.textrazorCount Ensemble.nuextractCount Ensemble.mergedCount
       Ensemble.bothAgreed Ensemble.textrazorOnly Ensemble.nuextractOnly].
  fold result.
  pose proof (merge_result this textRazorEntities nuExtractEntities) as Hr.
  fold result in Hr.
  pose proof (countLevel_total result) as Htotal.
  assert (Htr : (Ensemble.countLevel Ensemble.both result
                 + Ensemble.countLevel Ensemble.textrazor_only result
                 = List.length textRazorEntities)%nat).
  { pose proof (countLevel_total
                  (map (resultForTextRazor this nuExtractEntities) textRazorEntities))
      as Ht.
    rewrite countLevel_nuextract_forTextRazor, length_map in Ht.
    rewrite Hr, !countLevel_app, countLevel_both_single.
    rewrite (proj1 (countLevel_single_nuextract this _)). lia. }
  split; [reflexivity|]. split; [reflexivity|]. split; [reflexivity|].
  split; [lia|]. split; [exact Htr|]. split.
  - rewrite Hr, countLevel_app, countLevel_nuextract_forTextRazor.
    rewrite (proj2 (countLevel_single_nuextract this _)). simpl.
    apply filter_length_le.
  - rewrite Hr.
    rewrite <- (length_map (resultForTextRazor this nuExtractEntities)
                           textRazorEntities) at 1.
    rewrite firstn_app, Nat.sub_diag, firstn_all. simpl. rewrite app_nil_r.
    rewrite map_map. apply map_ext. intros t. unfold resultForTextRazor.
    destruct (Ensemble.findMatch this t nuExtractEntities); reflexivity.
Qed.

(** X25.  In every result of [merge] the entity's confidence, its
    provenance's confidence and [ensembleConfidence] are the same number.
    With penalties in [0, 1], a boost of at least 1 and input confidences in
    [0, 1], that number lies in [0, 1]; so the boosted confidence of an
    agreement is capped at 1. *)
Theorem merge_confidence_range (this : Ensemble.EnsembleAggregator)
  (textRazorEntities nuExtractEntities : list Ensemble.EntityWithProvenance) :
  0 <= Ensemble.textrazorPenalty this <= 1 ->
  0 <= Ensemble.nuextractPenalty this <= 1 ->
  1 <= Ensemble.agreementBoost this ->
  (forall e, In e (textRazorEntities ++ nuExtractEntities) ->
     0 <= Types.confidence (Ensemble.base e) <= 1) ->
  forall r, In r (fst (Ensemble.merge this textRazorEntities nuExtractEntities)) ->
    Types.confidence (Ensemble.base (Ensemble.entity r)) = Ensemble.ensembleConfidence r
    /\ Ensemble.provConfidence (Ensemble.provenance (Ensemble.entity r))
       = Ensemble.ensembleConfidence r
    /\ 0 <= Ensemble.ensembleConfidence r <= 1.
Proof.
  intros Htp Hnp Hboost Hin r Hr. rewrite merge_result in Hr.
  apply in_app_iff in Hr. destruct Hr as [Hr|Hr]; apply in_map_iff in Hr.
  - destruct Hr as (t & <- & Ht). unfold resultForTextRazor.
    assert (Hc : 0 <= Types.confidence (Ensemble.base t) <= 1)
      by (apply Hin, in_or_app; now left).
    destruct (Ensemble.findMatch this t nuExtractEntities) as [n|] eqn:E.
    + split; [reflexivity|]. split; [reflexivity|].
      apply findMatch_first in E. destruct E as (before & after & Hnu & _ & _).
      assert (Hn : 0 <= Types.confidence (Ensemble.base n) <= 1).
      { apply Hin, in_or_app. right. rewrite Hnu. apply in_or_app. right. now left. }
      cbn [Ensemble.createEnsembleEntity Ensemble.ensembleConfidence].
      pose proof (Math_max_ge_l (Types.confidence (Ensemble.base t))
                                (Types.confidence (Ensemble.base n))) as Hmax.
      split; [|apply Math_min_le_l].
      apply Math_min_nonneg; [lra|].
      revert Hmax. generalize (Math_max (Types.confidence (Ensemble.base t))
                                        (Types.confidence (Ensemble.base n))).
      intros m Hmax. nra.
    + split; [reflexivity|]. split; [reflexivity|].
      cbn [Ensemble.createSingleSourceEntity Ensemble.ensembleConfidence]. split; nra.
  - destruct Hr as (n & <- & Hn). apply filter_In in Hn. destruct Hn as [Hn _].
    assert (Hc : 0 <= Types.confidence (Ensemble.base n) <= 1)
      by (apply Hin, in_or_app; now right).
    split; [reflexivity|]. split; [reflexivity|].
    cbn [Ensemble.createSingleSourceEntity Ensemble.ensembleConfidence]. split; nra.
Qed.

Lemma merge_confidence_range_witness :
  0 <= Ensemble.ensembleConfidence
         (Ensemble.createEnsembleEntity defaultAggregator appleUpper appleNu) <= 1.
Proof.
  refine (proj2 (proj2 (merge_confidence_range defaultAggregator
                          [appleUpper; appleLower] [appleNu] _ _ _ _
                          (Ensemble.createEnsembleEntity defaultAggregator
                             appleUpper appleNu) _))).
  - simpl. split; lra.
  - simpl. split; lra.
  - simpl. lra.
  - intros e He. simpl in He.
    destruct He as [<-|[<-|[<-|[]]]]; simpl; split; lra.
  - left. reflexivity.
Defined.

(** ** extraction/ensemble.ts: type compatibility and name similarity *)

(** X26.  [typesCompatible] is an equivalence on entity types: reflexive,
    symmetric and transitive.  Technology, Concept and Unknown are mutually
    compatible, and every other type is compatible with itself only. *)
Theorem typesCompatible_equivalence :
  (forall t, Ensemble.typesCompatible t t = true)
  /\ (forall t u, Ensemble.typesCompatible t u = Ensemble.typesCompatible u t)
  /\ (forall t u v,
        Ensemble.typesCompatible t u = true -> Ensemble.typesCompatible u v = true ->
        Ensemble.typesCompatible t v = true)
  /\ (forall t u,
        Ensemble.typesCompatible t u = true <->
        t = u \/ (In t [Types.Technology; Types.Concept; Types.Unknown]
                  /\ In u [Types.Technology; Types.Concept; Types.Unknown])).
Proof.
  split; [intros []; reflexivity|].
  split; [intros [] []; reflexivity|].
  split; [intros [] [] []; vm_compute; intros H1 H2;
          first [reflexivity | discriminate]|].
  intros t u. split.
  - destruct t, u; simpl; intros E; try discriminate E; auto;
      right; simpl; intuition congruence.
  - intros [->|[Ht Hu]]; [destruct u; reflexivity|].
    simpl in Ht, Hu.
    destruct Ht as [<-|[<-|[<-|[]]]], Hu as [<-|[<-|[<-|[]]]]; reflexivity.
Qed.

Section SimilarityFacts.
Import Ensemble.

Lemma levenshteinRow_bound (c : ascii) (s2 : string) (diag : nat) (prev : list nat)
  (left i j : nat) :
  (diag <= Nat.max i j)%nat -> boundedFrom i (S j) prev ->
  boundedFrom (S i) (S j) (levenshteinRow c s2 diag prev left)
  /\ (List.length (levenshteinRow c s2 diag prev left) <= String.length s2)%nat.
Proof.
  revert diag prev left j.
  induction s2 as [|d r IH]; intros diag prev left j Hd Hp; simpl; [auto|].
  destruct prev as [|up prev']; simpl; [split; [exact I | lia]|].
  destruct Hp as [Hup Hp'].
  destruct (IH up prev'
              (if Ascii.eqb c d then diag else S (Nat.min (Nat.min up left) diag))
              (S j) Hup Hp') as [I1 I2].
  split; [|lia]. split; [|exact I1].
  destruct (Ascii.eqb c d); lia.
Qed.

Lemma boundedFrom_tl (i j : nat) (l : list nat) :
  boundedFrom i j l -> boundedFrom i (S j) (tl l).
Proof. destruct l; simpl; tauto. Qed.

Lemma levenshteinRows_bound (s1 s2 : string) (i : nat) (prev : list nat) :
  boundedFrom i 0 prev -> (List.length prev <= S (String.length s2))%nat ->
  boundedFrom (i + String.length s1) 0 (levenshteinRows s1 s2 i prev)
  /\ (List.length (levenshteinRows s1 s2 i prev) <= S (String.length s2))%nat.
Proof.
  revert i prev. induction s1 as [|c r IH]; intros i prev Hp Hlen; simpl.
  - rewrite Nat.add_0_r. auto.
  - destruct (levenshteinRow_bound c s2 i (tl prev) (S i) i 0) as [R1 R2].
    + lia.
    + now apply boundedFrom_tl.
    + rewrite Nat.add_succ_r, <- Nat.add_succ_l. apply IH.
      * simpl. split; [lia | exact R1].
      * simpl. lia.
Qed.

Lemma boundedFrom_seq (j n : nat) : boundedFrom 0 j (seq j n).
Proof.
  revert j. induction n as [|n IH]; intros j; simpl; [exact I|].
  split; [lia | apply IH].
Qed.

Lemma boundedFrom_last (i j n : nat) (l : list nat) :
  boundedFrom i j l -> (j + List.length l <= S n)%nat ->
  (last l 0 <= Nat.max i n)%nat.
Proof.
  revert j. induction l as [|d r IH]; intros j Hb Hlen; simpl in *; [lia|].
  destruct Hb as [Hd Hr]. destruct r as [|d' r'].
  - lia.
  - apply (IH (S j)); [exact Hr | simpl in *; lia].
Qed.

(** An edit distance is at most the length of the longer string. *)
Lemma levenshteinDistance_bound (s1 s2 : string) :
  (levenshteinDistance s1 s2 <= Nat.max (String.length s1) (String.length s2))%nat.
Proof.
  unfold levenshteinDistance.
  destruct (levenshteinRows_bound s1 s2 0 (seq 0 (S (String.length s2)))) as [B L].
  - apply boundedFrom_seq.
  - now rewrite length_seq.
  - apply (boundedFrom_last _ 0 _ _ B). simpl. exact L.
Qed.

End SimilarityFacts.

(** X27.  The name similarity of two strings always lies in [0, 1]: the edit
    distance never exceeds the length of the longer string. *)
Theorem stringSimilarity_range (s1 s2 : string) :
  0 <= Ensemble.stringSimilarity s1 s2 /\ Ensemble.stringSimilarity s1 s2 <= 1.
Proof.
  unfold Ensemble.stringSimilarity. cbv zeta.
  set (longer := if (String.length s2 <? String.length s1)%nat then s1 else s2).
  set (shorter := if (String.length s2 <? String.length s1)%nat then s2 else s1).
  destruct (String.length longer =? 0)%nat eqn:E; [split; lra|].
  apply Nat.eqb_neq in E.
  assert (Hlen : (String.length shorter <= String.length longer)%nat).
  { unfold longer, shorter.
    destruct (String.length s2 <? String.length s1)%nat eqn:El.
    - apply Nat.ltb_lt in El. lia.
    - apply Nat.ltb_ge in El. lia. }
  pose proof (levenshteinDistance_bound longer shorter) as Hd.
  rewrite Nat.max_l in Hd by exact Hlen.
  assert (Hpos : 0 < Communities.natQ (String.length longer)).
  { unfold Communities.natQ. change 0 with (inject_Z 0). rewrite <- Zlt_Qlt. lia. }
  pose proof (natQ_le _ _ Hd) as Hq.
  pose proof (natQ_nonneg (Ensemble.levenshteinDistance longer shorter)) as H0.
  split.
  - apply Qle_shift_div_l; [exact Hpos | lra].
  - apply Qle_shift_div_r; [exact Hpos | lra].
Qed.

(** ** extraction/ensemble.ts: [mergeRelations] *)

Section MergeRelationsFacts.
Import Relations.

Lemma relationsWithKey_app (k : string) (a b : list TripleWithEvidence) :
  relationsWithKey k (a ++ b) = relationsWithKey k a ++ relationsWithKey k b.
Proof. unfold relationsWithKey. apply filter_app. Qed.

(** The state of the loops of [mergeRelations] after the relations [seen]. *)
Lemma mergeRelation_run (rels seen : list TripleWithEvidence)
  (m : list (string * EnsembleRelation)) :
  NoDup (JsMap.keys m) ->
  (forall k r, JsMap.get m k = Some r -> mergedFrom seen k r) ->
  (forall rel, In rel seen -> JsMap.get m (relationKey rel) <> None) ->
  let m' := fold_left mergeRelation rels m in
  NoDup (JsMap.keys m')
  /\ (forall k r, JsMap.get m' k = Some r -> mergedFrom (seen ++ rels) k r)
  /\ (forall rel, In rel (seen ++ rels) -> JsMap.get m' (relationKey rel) <> None).
Proof.
  revert seen m. induction rels as [|rel rels IH]; intros seen m Hnd Hm Hseen; simpl.
  - rewrite app_nil_r. auto.
  - replace (seen ++ rel :: rels) with ((seen ++ [rel]) ++ rels)
      by (rewrite <- app_assoc; reflexivity).
    apply IH.
    + unfold mergeRelation. destruct (JsMap.get m (relationKey rel));
        now apply NoDup_keys_set.
    + intros k r Hget. unfold mergeRelation in Hget.
      destruct (String.eqb (relationKey rel) k) eqn:Ek.
      * apply String.eqb_eq in Ek. subst k.
        unfold mergedFrom. rewrite relationsWithKey_app.
        unfold relationsWithKey at 2 4 6. cbn [filter]. rewrite String.eqb_refl.
        fold (relationsWithKey (relationKey rel) seen).
        destruct (JsMap.get m (relationKey rel)) as [existing|] eqn:Eg.
        -- rewrite get_set_same in Hget. injection Hget as <-.
           destruct (Hm _ _ Eg) as (Hk & Hs & Hc & H1 & Hlen).
           split; [exact Hk|]. split; [simpl; now rewrite Hs, map_app|].
           split; [simpl; rewrite Hc, length_app; simpl; lia|].
           split; [simpl; lia|].
           intros rel' Hin. apply in_app_iff in Hin. simpl.
           destruct (String.length (evText (relEvidence (triple existing)))
                     <? String.length (evText (relEvidence rel)))%nat eqn:El.
           ++ apply Nat.ltb_lt in El.
              destruct Hin as [Hin|[<-|[]]]; [|lia].
              specialize (Hlen rel' Hin). lia.
           ++ apply Nat.ltb_ge in El.
              destruct Hin as [Hin|[<-|[]]]; [now apply Hlen | exact El].
        -- rewrite get_set_same in Hget. injection Hget as <-.
           assert (Hnone : relationsWithKey (relationKey rel) seen = []).
           { destruct (relationsWithKey (relationKey rel) seen) as [|x xs] eqn:Ex;
               [reflexivity|].
             assert (Hx : In x (relationsWithKey (relationKey rel) seen))
               by (rewrite Ex; now left).
             apply filter_In in Hx. destruct Hx as [Hx Hkx].
             apply String.eqb_eq in Hkx. specialize (Hseen x Hx).
             rewrite Hkx in Hseen. contradiction. }
           rewrite Hnone. simpl. repeat split; auto.
           intros rel' [<-|[]]. lia.
      * assert (Hne : relationKey rel <> k) by now apply String.eqb_neq.
        assert (Hget' : JsMap.get m k = Some r).
        { destruct (JsMap.get m (relationKey rel));
            rewrite get_set_other in Hget by exact Hne; exact Hget. }
        unfold mergedFrom. rewrite relationsWithKey_app.
        unfold relationsWithKey at 2 4 6. cbn [filter]. rewrite Ek.
        rewrite !app_nil_r. apply (Hm k r Hget').
    + intros rel' Hin. apply in_app_iff in Hin. unfold mergeRelation.
      destruct (String.eqb (relationKey rel) (relationKey rel')) eqn:Ek.
      * apply String.eqb_eq in Ek. rewrite <- Ek.
        destruct (JsMap.get m (relationKey rel)); rewrite get_set_same; discriminate.
      * apply String.eqb_neq in Ek.
        destruct Hin as [Hin|[<-|[]]]; [|congruence].
        destruct (JsMap.get m (relationKey rel));
          rewrite get_set_other by exact Ek; now apply Hseen.
Qed.

Lemma mergeRelations_run (sets : list (list TripleWithEvidence))
  (seen : list TripleWithEvidence) (m : list (string * EnsembleRelation)) :
  NoDup (JsMap.keys m) ->
  (forall k r, JsMap.get m k = Some r -> mergedFrom seen k r) ->
  (forall rel, In rel seen -> JsMap.get m (relationKey rel) <> None) ->
  let m' :=
    fold_left (fun relationMap relations => fold_left mergeRelation relations relationMap)
              sets m in
  NoDup (JsMap.keys m')
  /\ (forall k r, JsMap.get m' k = Some r -> mergedFrom (seen ++ List.concat sets) k r)
  /\ (forall rel, In rel (seen ++ List.concat sets) ->
        JsMap.get m' (relationKey rel) <> None).
Proof.
  revert seen m. induction sets as [|rels sets IH]; intros seen m Hnd Hm Hseen; simpl.
  - rewrite app_nil_r. auto.
  - destruct (mergeRelation_run rels seen m Hnd Hm Hseen) as (H1 & H2 & H3).
    rewrite app_assoc. now apply IH.
Qed.

End MergeRelationsFacts.

(** X28.  [mergeRelations] returns one relation per key
    (subject|predicate|object, subject and object in lower case), and every
    input relation's key is among them.  The result for a key lists, in
    [sources], the extractors of the input relations with that key in input
    order; its [agreementCount] is their number, and its evidence text is at
    least as long as that of each of them. *)
Theorem mergeRelations_agreement (relationSets : list (list Relations.TripleWithEvidence)) :
  let out := Relations.mergeRelations relationSets in
  let inputs := List.concat relationSets in
  NoDup (map (fun r => Relations.relationKey (Relations.triple r)) out)
  /\ (forall rel, In rel inputs ->
        exists r, In r out
                  /\ Relations.relationKey (Relations.triple r)
                     = Relations.relationKey rel)
  /\ (forall r, In r out ->
        let same := relationsWithKey (Relations.relationKey (Relations.triple r)) inputs in
        Relations.sources r = map Relations.relExtractor same
        /\ Relations.agreementCount r = List.length same
        /\ (1 <= Relations.agreementCount r)%nat
        /\ forall rel, In rel same ->
             (String.length (Relations.evText (Relations.relEvidence rel))
              <= String.length
                   (Relations.evText (Relations.relEvidence (Relations.triple r))))%nat).
Proof.
  intros out inputs. unfold out, Relations.mergeRelations.
  destruct (mergeRelations_run relationSets [] [] (NoDup_nil _)) as (Hnd & Hm & Hall).
  { intros k r Hget. discriminate Hget. }
  { intros rel []. }
  cbv zeta in Hnd, Hm, Hall. simpl app in Hm, Hall. fold inputs in Hm, Hall.
  set (m := fold_left _ relationSets []) in *.
  assert (Hentry : forall r, In r (JsMap.values m) ->
            exists k, JsMap.get m k = Some r).
  { intros r Hr. unfold JsMap.values in Hr. apply in_map_iff in Hr.
    destruct Hr as ([k r'] & <- & Hin). exists k. now apply In_get_NoDup. }
  assert (Hkeys : map (fun r => Relations.relationKey (Relations.triple r))
                      (JsMap.values m) = JsMap.keys m).
  { unfold JsMap.values, JsMap.keys. rewrite map_map. apply map_ext_in.
    intros [k r] Hin. simpl.
    apply (Hm k r). now apply In_get_NoDup. }
  split; [rewrite Hkeys; exact Hnd|]. split.
  - intros rel Hrel. specialize (Hall rel Hrel).
    destruct (JsMap.get m (Relations.relationKey rel)) as [r|] eqn:E; [|congruence].
    exists r. split.
    + unfold JsMap.values. change r with (snd (Relations.relationKey rel, r)).
      apply in_map. now apply get_Some_in.
    + apply (Hm _ _ E).
  - intros r Hr. cbv zeta. destruct (Hentry r Hr) as (k & Hget).
    destruct (Hm k r Hget) as (Hk & Hs & Hc & H1 & Hlen).
    rewrite Hk. auto.
Qed.

(** ** extraction/ensemble.ts: filtering helpers *)

Section ReviewFacts.
Import Ensemble Relations.

(** On numbers other than NaN, [<] is the negation of [>=]. *)
Lemma lt_not_ge (a b : JsNumber) :
  isNaN a = false -> isNaN b = false -> lt a b = negb (ge a b).
Proof.
  destruct a as [x| | |], b as [y| | |]; simpl; intros Ha Hb;
    try discriminate; reflexivity.
Qed.

(** With a NaN operand both comparisons fail. *)
Lemma lt_ge_NaN (a b : JsNumber) :
  isNaN a || isNaN b = true -> lt a b = false /\ ge a b = false.
Proof.
  destruct a as [x| | |], b as [y| | |]; simpl; intros H;
    try discriminate; split; reflexivity.
Qed.

(** Three tests of which every element passes exactly one. *)
Lemma filter_three_lengths {X : Type} (p q r : X -> bool) (l : list X) :
  (forall x, In x l ->
     (p x = true /\ q x = false /\ r x = false)
     \/ (p x = false /\ q x = true /\ r x = false)
     \/ (p x = false /\ q x = false /\ r x = true)) ->
  (List.length (filter p l) + List.length (filter q l) + List.length (filter r l)
   = List.length l)%nat.
Proof.
  induction l as [|x l IH]; intros Hone; simpl; [reflexivity|].
  assert (Hl : forall y, In y l ->
            (p y = true /\ q y = false /\ r y = false)
            \/ (p y = false /\ q y = true /\ r y = false)
            \/ (p y = false /\ q y = false /\ r y = true))
    by (intros y Hy; apply Hone; now right).
  specialize (IH Hl).
  destruct (Hone x (or_introl eq_refl))
    as [(-> & -> & ->)|[(-> & -> & ->)|(-> & -> & ->)]]; simpl; lia.
Qed.

Lemma filter_nil_forall {X : Type} (p : X -> bool) (l : list X) :
  (forall x, In x l -> p x = false) -> filter p l = [].
Proof.
  induction l as [|x l IH]; intros Hp; simpl; [reflexivity|].
  rewrite (Hp x (or_introl eq_refl)). apply IH. intros y Hy. apply Hp. now right.
Qed.

Lemma review_tests_exclusive {E : Type} (agreementLevelOf : E -> AgreementLevel)
  (ensembleConfidenceOf : E -> JsNumber) (threshold : JsNumber) (e : E) :
  let high := AgreementLevel_eqb (agreementLevelOf e) both
              || ge (ensembleConfidenceOf e) threshold in
  let review := negb (AgreementLevel_eqb (agreementLevelOf e) both)
                && lt (ensembleConfidenceOf e) threshold in
  let neither := negb (AgreementLevel_eqb (agreementLevelOf e) both)
                 && (isNaN (ensembleConfidenceOf e) || isNaN threshold) in
  (high = true /\ review = false /\ neither = false)
  \/ (high = false /\ review = true /\ neither = false)
  \/ (high = false /\ review = false /\ neither = true).
Proof.
  cbv zeta. destruct (AgreementLevel_eqb (agreementLevelOf e) both); simpl; [auto|].
  destruct (isNaN (ensembleConfidenceOf e) || isNaN threshold) eqn:En.
  - destruct (lt_ge_NaN _ _ En) as [-> ->]. auto.
  - apply orb_false_iff in En. destruct En as [E1 E2].
    rewrite (lt_not_ge _ _ E1 E2).
    destruct (ge (ensembleConfidenceOf e) threshold); auto.
Qed.

End ReviewFacts.

(** X29.  With the same threshold, no entity is kept by both
    [filterHighConfidence] and [getEntitiesNeedingReview], and an entity of
    the list is kept by neither exactly when it is not an agreement of both
    extractors and its confidence or the threshold is NaN: such an entity is
    neither accepted nor sent to review.  The two results and these entities
    add up to the list; when no confidence and not the threshold is NaN the
    two filters split the list.  An agreement of both extractors is always
    kept by [filterHighConfidence], whatever its confidence; an entity sent
    to review is not such an agreement and its confidence is below the
    threshold. *)
Theorem review_filters_split {E : Type}
  (agreementLevelOf : E -> Ensemble.AgreementLevel)
  (ensembleConfidenceOf : E -> Relations.JsNumber)
  (entities : list E) (threshold : Relations.JsNumber) :
  let high :=
    Relations.filterHighConfidence agreementLevelOf ensembleConfidenceOf
      entities threshold in
  let review :=
    Relations.getEntitiesNeedingReview agreementLevelOf ensembleConfidenceOf
      entities threshold in
  let dropped := notComparable agreementLevelOf ensembleConfidenceOf entities threshold in
  (forall e, In e high -> ~ In e review)
  /\ (forall e, In e entities ->
        (~ In e high /\ ~ In e review
         <-> agreementLevelOf e <> Ensemble.both
             /\ (ensembleConfidenceOf e = Relations.NaN \/ threshold = Relations.NaN)))
  /\ (List.length high + List.length review + List.length dropped
      = List.length entities)%nat
  /\ (threshold <> Relations.NaN ->
      (forall e, In e entities -> ensembleConfidenceOf e <> Relations.NaN) ->
      (List.length high + List.length review = List.length entities)%nat
      /\ forall e, In e entities -> (In e high <-> ~ In e review))
  /\ (forall e, In e entities -> agreementLevelOf e = Ensemble.both -> In e high)
  /\ (forall e, In e review ->
        agreementLevelOf e <> Ensemble.both
        /\ Relations.lt (ensembleConfidenceOf e) threshold = true).
Proof.
  intros high review dropped.
  pose proof (review_tests_exclusive agreementLevelOf ensembleConfidenceOf threshold)
    as Hone. cbv zeta in Hone.
  assert (HNaN : forall x, isNaN x = true <-> x = Relations.NaN).
  { intros [q| | |]; simpl; split; congruence. }
  assert (Hlevel : forall e,
            Ensemble.AgreementLevel_eqb (agreementLevelOf e) Ensemble.both = true
            <-> agreementLevelOf e = Ensemble.both).
  { intros e. destruct (agreementLevelOf e); simpl; split; congruence. }
  assert (Hneither : forall e, In e entities ->
            (~ In e high /\ ~ In e review
             <-> agreementLevelOf e <> Ensemble.both
                 /\ (ensembleConfidenceOf e = Relations.NaN
                     \/ threshold = Relations.NaN))).
  { intros e He. unfold high, review, Relations.filterHighConfidence,
      Relations.getEntitiesNeedingReview. rewrite !filter_In.
    rewrite <- !HNaN, <- Hlevel.
    destruct (Hone e) as [(H1 & H2 & H3)|[(H1 & H2 & H3)|(H1 & H2 & H3)]].
    - split.
      + intros [Hh _]. exfalso. apply Hh. auto.
      + intros [Hl Hn]. exfalso.
        destruct (Ensemble.AgreementLevel_eqb (agreementLevelOf e) Ensemble.both);
          [now apply Hl|].
        simpl in H3. apply orb_false_iff in H3. destruct H3 as [N1 N2].
        destruct Hn; congruence.
    - split.
      + intros [_ Hr]. exfalso. apply Hr. auto.
      + intros [Hl Hn]. exfalso.
        apply andb_true_iff in H2. destruct H2 as [_ H2].
        apply andb_false_iff in H3.
        destruct H3 as [H3|H3].
        * apply negb_false_iff in H3. now apply Hl.
        * apply orb_false_iff in H3. destruct H3 as [N1 N2]. destruct Hn; congruence.
    - split.
      + intros _. apply andb_true_iff in H3. destruct H3 as [H3 H4].
        apply negb_true_iff in H3. apply orb_true_iff in H4.
        split; [congruence | exact H4].
      + intros _. split; intros [_ Hp]; congruence. }
  assert (Hhigh : forall e, In e high -> ~ In e review).
  { intros e Hh Hr. unfold high, review, Relations.filterHighConfidence,
      Relations.getEntitiesNeedingReview in Hh, Hr.
    apply filter_In in Hh. apply filter_In in Hr.
    destruct Hh as [_ Hh], Hr as [_ Hr].
    destruct (Hone e) as [(H1 & H2 & H3)|[(H1 & H2 & H3)|(H1 & H2 & H3)]]; congruence. }
  assert (Hlen : (List.length high + List.length review + List.length dropped
                  = List.length entities)%nat).
  { unfold high, review, dropped, notComparable, Relations.filterHighConfidence,
      Relations.getEntitiesNeedingReview.
    apply filter_three_lengths. intros e _. apply Hone. }
  split; [exact Hhigh|].
  split; [exact Hneither|].
  split; [exact Hlen|].
  split.
  - intros Ht Hc.
    assert (Hnone : dropped = []).
    { unfold dropped, notComparable. apply filter_nil_forall. intros e He.
      apply andb_false_iff. right. apply orb_false_iff. split.
      - destruct (isNaN (ensembleConfidenceOf e)) eqn:En; [|reflexivity].
        apply HNaN in En. now apply Hc in En.
      - destruct (isNaN threshold) eqn:En; [|reflexivity].
        apply HNaN in En. contradiction. }
    rewrite Hnone in Hlen. simpl in Hlen. split; [lia|].
    intros e He. split; [apply Hhigh|].
    intros Hr.
    destruct (Ensemble.AgreementLevel_eqb (agreementLevelOf e) Ensemble.both
              || Relations.ge (ensembleConfidenceOf e) threshold) eqn:Et.
    + unfold high, Relations.filterHighConfidence. apply filter_In. now split.
    + exfalso.
      assert (Hh : ~ In e high).
      { unfold high, Relations.filterHighConfidence. rewrite filter_In.
        intros [_ Hp]. congruence. }
      destruct (proj1 (Hneither e He) (conj Hh Hr)) as [_ [Hn|Hn]].
      * now apply (Hc e He).
      * contradiction.
  - split.
    + intros e He Hboth. unfold high, Relations.filterHighConfidence.
      apply filter_In. split; [exact He|].
      apply Hlevel in Hboth. rewrite Hboth. reflexivity.
    + intros e Hr. unfold review, Relations.getEntitiesNeedingReview in Hr.
      apply filter_In in Hr. destruct Hr as [_ Hr].
      apply andb_true_iff in Hr. destruct Hr as [Hl Hc].
      split; [|exact Hc].
      intros Hboth. apply Hlevel in Hboth. rewrite Hboth in Hl. discriminate.
Qed.

(** On the sample, the entity with a NaN confidence is kept by neither
    filter. *)
Lemma review_filters_split_witness :
  Relations.filterHighConfidence fst snd sampleReviewEntities
    Relations.defaultConfidenceThreshold
  = [(Ensemble.both, Relations.Finite (2 # 10))]
  /\ Relations.getEntitiesNeedingReview fst snd sampleReviewEntities
       Relations.defaultConfidenceThreshold
     = [(Ensemble.textrazor_only, Relations.Finite (5 # 10))]
  /\ (1 + 1 + List.length (notComparable fst snd sampleReviewEntities
                            Relations.defaultConfidenceThreshold)
      = List.length sampleReviewEntities)%nat.
Proof.
  split; [reflexivity|]. split; [reflexivity|].
  exact (proj1 (proj2 (proj2
    (review_filters_split fst snd sampleReviewEntities
       Relations.defaultConfidenceThreshold)))).
Defined.

(** ** Structured proximity: the edges of [calculateProximityEdges] *)

Section ProximityFacts.
Import Proximity.

Lemma groupLocations_step_keys (m : list (string * list EntityLocation))
  (loc : EntityLocation) :
  NoDup (JsMap.keys m) ->
  NoDup (JsMap.keys
           (let m1 :=
              if JsMap.has m (entityId loc) then m
              else JsMap.set m (entityId loc) [] in
            match JsMap.get m1 (entityId loc) with
            | Some locs => JsMap.set m1 (entityId loc) (locs ++ [loc])
            | None => m1
            end)).
Proof.
  intros Hm. cbv zeta.
  assert (H1 : NoDup (JsMap.keys (if JsMap.has m (entityId loc) then m
                                  else JsMap.set m (entityId loc) []))).
  { destruct (JsMap.has m (entityId loc)); [exact Hm | now apply NoDup_keys_set]. }
  destruct (JsMap.get _ (entityId loc)); [now apply NoDup_keys_set | exact H1].
Qed.

Lemma groupLocations_step_get (m : list (string * list EntityLocation))
  (loc : EntityLocation) (e : string) :
  locationsOf
    (let m1 :=
       if JsMap.has m (entityId loc) then m
       else JsMap.set m (entityId loc) [] in
     match JsMap.get m1 (entityId loc) with
     | Some locs => JsMap.set m1 (entityId loc) (locs ++ [loc])
     | None => m1
     end) e
  = if String.eqb (entityId loc) e then locationsOf m e ++ [loc] else locationsOf m e.
Proof.
  cbv zeta. unfold locationsOf, JsMap.has.
  destruct (String.eqb (entityId loc) e) eqn:E.
  - apply String.eqb_eq in E. subst e.
    destruct (JsMap.get m (entityId loc)) eqn:G.
    + rewrite G. now rewrite get_set_same.
    + rewrite get_set_same. now rewrite get_set_same.
  - apply String.eqb_neq in E.
    destruct (JsMap.get m (entityId loc)) eqn:G.
    + rewrite G. rewrite get_set_other; auto.
    + rewrite get_set_same. rewrite !get_set_other; auto.
Qed.

Lemma groupLocations_step_in (m : list (string * list EntityLocation))
  (loc : EntityLocation) (e : string) :
  In e (JsMap.keys
          (let m1 :=
             if JsMap.has m (entityId loc) then m
             else JsMap.set m (entityId loc) [] in
           match JsMap.get m1 (entityId loc) with
           | Some locs => JsMap.set m1 (entityId loc) (locs ++ [loc])
           | None => m1
           end))
  <-> e = entityId loc \/ In e (JsMap.keys m).
Proof.
  cbv zeta. unfold JsMap.has.
  destruct (JsMap.get m (entityId loc)) eqn:G.
  - rewrite G. rewrite in_keys_set. reflexivity.
  - rewrite get_set_same. rewrite !in_keys_set. tauto.
Qed.

(** The groups after the loop: one key per entity that has a location, with
    the locations of that entity in order. *)
Lemma groupLocations_run (l : list EntityLocation)
  (acc : list (string * list EntityLocation)) :
  let m :=
    fold_left
      (fun entityLocations loc =>
         let m1 :=
           if JsMap.has entityLocations (entityId loc) then entityLocations
           else JsMap.set entityLocations (entityId loc) [] in
         match JsMap.get m1 (entityId loc) with
         | Some locs => JsMap.set m1 (entityId loc) (locs ++ [loc])
         | None => m1
         end)
      l acc in
  (NoDup (JsMap.keys acc) -> NoDup (JsMap.keys m))
  /\ (forall e, locationsOf m e = locationsOf acc e ++ locationsWith e l)
  /\ (forall e, In e (JsMap.keys m) <->
                In e (JsMap.keys acc) \/ exists loc, In loc l /\ entityId loc = e).
Proof.
  cbv zeta. revert acc. induction l as [|loc r IH]; intros acc; cbn [fold_left].
  - split; [auto|]. split.
    + intros e. simpl. now rewrite app_nil_r.
    + intros e. split; [auto | intros [H|(loc & [] & _)]; exact H].
  - destruct (IH (let m1 :=
                    if JsMap.has acc (entityId loc) then acc
                    else JsMap.set acc (entityId loc) [] in
                  match JsMap.get m1 (entityId loc) with
                  | Some locs => JsMap.set m1 (entityId loc) (locs ++ [loc])
                  | None => m1
                  end)) as (I1 & I2 & I3).
    split; [|split].
    + intros Hacc. apply I1. now apply groupLocations_step_keys.
    + intros e. rewrite I2, groupLocations_step_get.
      unfold locationsWith. cbn [filter].
      destruct (String.eqb (entityId loc) e); [now rewrite <- app_assoc | reflexivity].
    + intros e. rewrite I3, groupLocations_step_in. split.
      * intros [[->|H]|(loc' & Hin & He)].
        -- right. exists loc. split; [now left | reflexivity].
        -- now left.
        -- right. exists loc'. split; [now right | exact He].
      * intros [H|(loc' & [<-|Hin] & He)].
        -- left. now right.
        -- left. left. now symmetry.
        -- right. exists loc'. auto.
Qed.

Lemma compareLocations_after (includePageLevel : bool) (sourceUrl : option string)
  (loc1 loc2 : EntityLocation) (st : ProximityTiers * list EdgeEvidence) (n : nat) :
  tiersAfter includePageLevel n st ->
  tiersAfter includePageLevel (S n)
             (compareLocations includePageLevel sourceUrl loc1 st loc2).
Proof.
  destruct st as [[s p c g] ev]. unfold tiersAfter, tierTotal, compareLocations.
  simpl. intros (H1 & H2 & H3 & H4 & H5 & H6).
  destruct (String.eqb (blockId loc1) (blockId loc2)) eqn:Eb; simpl;
    [destruct (sentenceIndex loc1 =? sentenceIndex loc2)%nat; simpl;
       [|destruct (List.length ev <? 5)%nat eqn:E5; simpl;
           [apply Nat.ltb_lt in E5|]]
    |destruct (sameSection (headingPath loc1) (headingPath loc2)); simpl;
       [|destruct includePageLevel; simpl]];
    rewrite ?length_app; simpl;
    repeat split; try lia; intros Hi;
    try (specialize (H2 Hi)); try (specialize (H3 Hi)); try lia; try discriminate.
Qed.

Lemma compareWith_after (includePageLevel : bool) (sourceUrl : option string)
  (loc1 : EntityLocation) (locs2 : list EntityLocation)
  (st : ProximityTiers * list EdgeEvidence) (n : nat) :
  tiersAfter includePageLevel n st ->
  tiersAfter includePageLevel (n + List.length locs2)
             (fold_left (compareLocations includePageLevel sourceUrl loc1) locs2 st).
Proof.
  revert st n. induction locs2 as [|loc2 r IH]; intros st n Hst; simpl.
  - now rewrite Nat.add_0_r.
  - rewrite Nat.add_succ_r, <- Nat.add_succ_l. apply IH.
    now apply compareLocations_after.
Qed.

Lemma comparePair_after (includePageLevel : bool) (sourceUrl : option string)
  (locs1 locs2 : list EntityLocation) :
  tiersAfter includePageLevel (List.length locs1 * List.length locs2)
             (comparePair includePageLevel sourceUrl locs1 locs2).
Proof.
  unfold comparePair.
  assert (Hgen : forall st n, tiersAfter includePageLevel n st ->
            tiersAfter includePageLevel (n + List.length locs1 * List.length locs2)
              (fold_left
                 (fun st loc1 =>
                    fold_left (compareLocations includePageLevel sourceUrl loc1) locs2 st)
                 locs1 st)).
  { induction locs1 as [|loc1 r IH]; intros st n Hst; simpl.
    - now rewrite Nat.add_0_r.
    - rewrite Nat.add_assoc. apply IH. now apply compareWith_after. }
  apply (Hgen _ 0%nat). unfold tiersAfter, tierTotal. simpl.
  repeat split; auto; lia.
Qed.

Lemma Forall_values_set {V : Type} (P : V -> Prop) (m : list (string * V))
  (k : string) (v : V) :
  Forall P (JsMap.values m) -> P v -> Forall P (JsMap.values (JsMap.set m k v)).
Proof.
  intros Hm Hv. induction m as [|[k' v'] r IH]; simpl.
  - repeat constructor. exact Hv.
  - simpl in Hm. inversion Hm; subst. destruct (k =? k')%string; simpl.
    + constructor; auto.
    + constructor; auto.
Qed.

Lemma edgesWith_built (this : StructuredProximityBuilder)
  (m : list (string * list EntityLocation)) (incl : bool) (url : option string)
  (entity1 : string) (later : list string) (edgeMap : list (string * ProximityEdge)) :
  ~ In entity1 later -> In entity1 (JsMap.keys m) ->
  (forall e, In e later -> In e (JsMap.keys m)) ->
  Forall (edgeBuiltFrom this m incl url) (JsMap.values edgeMap) ->
  Forall (edgeBuiltFrom this m incl url)
         (JsMap.values (edgesWith this m incl url entity1 later edgeMap)).
Proof.
  unfold edgesWith. revert edgeMap.
  induction later as [|entity2 r IH]; intros edgeMap Hnot H1 Hl Hm; simpl; [exact Hm|].
  apply IH; [intros Hin; apply Hnot; now right | exact H1
           | intros; apply Hl; now right |].
  destruct (Qltb 0 (weight (pairEdge this m incl url entity1 entity2))) eqn:E;
    [|exact Hm].
  apply Forall_values_set; [exact Hm|].
  assert (Hs : source (pairEdge this m incl url entity1 entity2) = entity1
               /\ target (pairEdge this m incl url entity1 entity2) = entity2).
  { unfold pairEdge. destruct (comparePair _ _ _ _). simpl. auto. }
  destruct Hs as [Hs Ht]. unfold edgeBuiltFrom. rewrite Hs, Ht.
  split; [intros ->; apply Hnot; now left|].
  split; [exact H1|]. split; [apply Hl; now left|]. split; [reflexivity|].
  now apply Qltb_lt.
Qed.

Lemma allEdges_built (this : StructuredProximityBuilder)
  (m : list (string * list EntityLocation)) (incl : bool) (url : option string)
  (entityIds : list string) (edgeMap : list (string * ProximityEdge)) :
  NoDup entityIds -> (forall e, In e entityIds -> In e (JsMap.keys m)) ->
  Forall (edgeBuiltFrom this m incl url) (JsMap.values edgeMap) ->
  Forall (edgeBuiltFrom this m incl url)
         (JsMap.values (allEdges this m incl url entityIds edgeMap)).
Proof.
  revert edgeMap. induction entityIds as [|entity1 later IH];
    intros edgeMap Hnd Hin Hm; simpl; [exact Hm|].
  inversion Hnd; subst.
  apply IH; [assumption | intros; apply Hin; now right |].
  apply edgesWith_built; auto.
  - apply Hin. now left.
  - intros. apply Hin. now right.
Qed.

End ProximityFacts.

(** X30.  Every edge of [calculateProximityEdges] joins two different
    entities that both have a location.  Its weight is the weighted sum of
    its tier counts and is positive.  The tier counts classify the pairs of
    locations of the two entities: their sum is at most the number of pairs,
    equal to it when the page level is included, and the page count is 0 when
    it is not.  The evidence holds one entry per same-sentence pair and at
    most five more. *)
Theorem calculateProximityEdges_edges (this : Proximity.StructuredProximityBuilder)
  (locations : list Proximity.EntityLocation) (includePageLevel : bool)
  (sourceUrl : option string) (e : Proximity.ProximityEdge) :
  In e (Proximity.calculateProximityEdges this locations includePageLevel sourceUrl) ->
  let pairs :=
    (List.length (locationsWith (Proximity.source e) locations)
     * List.length (locationsWith (Proximity.target e) locations))%nat in
  Proximity.source e <> Proximity.target e
  /\ (1 <= pairs)%nat
  /\ Proximity.weight e = Proximity.tierWeight this (Proximity.tiers e)
  /\ 0 < Proximity.weight e
  /\ (tierTotal (Proximity.tiers e) <= pairs)%nat
  /\ (includePageLevel = true -> tierTotal (Proximity.tiers e) = pairs)
  /\ (includePageLevel = false -> Proximity.page (Proximity.tiers e) = 0%nat)
  /\ (Proximity.sentence (Proximity.tiers e) <= List.length (Proximity.evidence e)
      <= Proximity.sentence (Proximity.tiers e) + 5)%nat.
Proof.
  intros He pairs. unfold Proximity.calculateProximityEdges in He. cbv zeta in He.
  destruct (groupLocations_run locations []) as (Hnd & Hlocs & Hkeys).
  cbv zeta in Hnd, Hlocs, Hkeys. fold (Proximity.groupLocations locations) in *.
  specialize (Hnd (NoDup_nil _)).
  pose proof (allEdges_built this (Proximity.groupLocations locations) includePageLevel
                sourceUrl (JsMap.keys (Proximity.groupLocations locations)) []
                Hnd (fun e H => H) (Forall_nil _)) as Hall.
  rewrite Forall_forall in Hall.
  destruct (Hall e He) as (Hne & Hs & Ht & Hedge & Hpos).
  assert (Hl1 : Proximity.locationsOf (Proximity.groupLocations locations)
                  (Proximity.source e) = locationsWith (Proximity.source e) locations)
    by apply Hlocs.
  assert (Hl2 : Proximity.locationsOf (Proximity.groupLocations locations)
                  (Proximity.target e) = locationsWith (Proximity.target e) locations)
    by apply Hlocs.
  assert (Hone : forall x, In x (JsMap.keys (Proximity.groupLocations locations)) ->
            (1 <= List.length (locationsWith x locations))%nat).
  { intros x Hx. apply Hkeys in Hx. destruct Hx as [[]|(loc & Hin & Hid)].
    assert (Hw : In loc (locationsWith x locations)).
    { apply filter_In. split; [exact Hin|]. now apply String.eqb_eq. }
    destruct (locationsWith x locations); [destruct Hw | simpl; lia]. }
  pose proof (comparePair_after includePageLevel sourceUrl
                (locationsWith (Proximity.source e) locations)
                (locationsWith (Proximity.target e) locations)) as Hafter.
  fold pairs in Hafter.
  unfold Proximity.pairEdge in Hedge. rewrite Hl1, Hl2 in Hedge.
  destruct (Proximity.comparePair includePageLevel sourceUrl _ _) as [t ev].
  destruct Hafter as (A1 & A2 & A3 & A4 & A5 & A6). simpl in A1, A2, A3, A4, A5, A6.
  assert (Htiers : Proximity.tiers e = t) by (rewrite Hedge; reflexivity).
  assert (Hev : Proximity.evidence e = ev) by (rewrite Hedge; reflexivity).
  assert (Hw : Proximity.weight e = Proximity.tierWeight this t)
    by (rewrite Hedge; reflexivity).
  rewrite Htiers, Hev.
  split; [exact Hne|]. split.
  { pose proof (Hone _ Hs). pose proof (Hone _ Ht). unfold pairs. nia. }
  split; [exact Hw|]. split; [exact Hpos|].
  split; [exact A1|]. split; [exact A2|]. split; [exact A3|]. lia.
Qed.

Lemma calculateProximityEdges_edges_witness :
  In sampleProximityEdge sampleProximityEdges
  /\ Proximity.source sampleProximityEdge <> Proximity.target sampleProximityEdge
  /\ 0 < Proximity.weight sampleProximityEdge
  /\ (tierTotal (Proximity.tiers sampleProximityEdge)
      <= List.length (locationsWith (Proximity.source sampleProximityEdge) sampleLocations)
         * List.length (locationsWith (Proximity.target sampleProximityEdge)
                                      sampleLocations))%nat.
Proof.
  assert (Hin : In sampleProximityEdge sampleProximityEdges)
    by (vm_compute; left; reflexivity).
  split; [exact Hin|].
  destruct (calculateProximityEdges_edges
              (Proximity.mkBuilder Proximity.DEFAULT_WEIGHTS) sampleLocations false None
              sampleProximityEdge Hin)
    as (H1 & _ & _ & H4 & H5 & _).
  split; [exact H1|]. split; [exact H4 | exact H5].
Defined.

(** ** graph/cooccurrence.ts: the relevance-weighted graph *)

Section WeightedFacts.
Import Graph Types Cooccurrence WeightedCooccurrence.

Lemma buildCooccurrenceGraph_invariant (entities : list Entity) (sourceText : string)
  (options : CooccurrenceOptions) :
  Forall (fun e => noBar (id e) = true) entities ->
  symmetricLoopFree (buildCooccurrenceGraph entities sourceText options).
Proof.
  intros He. unfold buildCooccurrenceGraph.
  set (co := calculateCooccurrences _ _ _ _).
  assert (Hco : Forall pairCount co).
  { apply calculateCooccurrences_ok.
    eapply Permutation_Forall; [symmetry; apply stableSort_perm|].
    now apply flattenMentions_ok. }
  pose proof (addEdges_ok (nullish (minWeight options) 2) co _ Hco
                symmetricLoopFree_createGraph) as Hg.
  destruct (nullish (normalize options) false);
    [now apply normalizeWeights_ok | exact Hg].
Qed.

Lemma get_map_entries {V W : Type} (f : string -> V -> W) (m : list (string * V))
  (k : string) :
  JsMap.get (map (fun '(key, v) => (key, f key v)) m) k
  = option_map (f k) (JsMap.get m k).
Proof.
  induction m as [|[k' v'] r IH]; simpl; [reflexivity|].
  destruct (k =? k')%string eqn:E; [|exact IH].
  apply String.eqb_eq in E. now subst k'.
Qed.

Lemma adjacency_weighByRelevance (rm : list (string * Q)) (g : SimpleGraph)
  (x y : string) :
  JsMap.get (adjacency (weighByRelevance rm g) x) y
  = option_map (fun w => w * relevanceMultiplier rm x y)
               (JsMap.get (adjacency g x) y).
Proof.
  unfold adjacency, weighByRelevance; cbn [edges].
  rewrite (get_map_entries
             (fun source neighbors =>
                map (fun '(target, weight) =>
                       (target, weight * relevanceMultiplier rm source target))
                    neighbors)).
  destruct (JsMap.get (edges g) x) as [m|]; simpl; [|reflexivity].
  apply (get_map_entries (fun target weight => weight * relevanceMultiplier rm x target)).
Qed.

Lemma Qplus_comm_eq (x y : Q) : (x + y)%Q = (y + x)%Q.
Proof.
  unfold Qplus. f_equal; [apply Z.add_comm | apply Pos.mul_comm].
Qed.

Lemma relevanceMultiplier_comm (rm : list (string * Q)) (x y : string) :
  relevanceMultiplier rm x y = relevanceMultiplier rm y x.
Proof. unfold relevanceMultiplier. cbv zeta. now rewrite Qplus_comm_eq. Qed.

Lemma relevanceMapOf_nonneg (entities : list Entity) (acc : list (string * Q)) :
  Forall (fun e => 0 <= relevance e) entities ->
  (forall k r, JsMap.get acc k = Some r -> 0 <= r) ->
  forall k r,
    JsMap.get (fold_left (fun m e => JsMap.set m (id e) (relevance e)) entities acc) k
    = Some r -> 0 <= r.
Proof.
  intros He. revert acc. induction He as [|e l Hr Hl IH]; intros acc Hacc; simpl.
  - exact Hacc.
  - apply IH. intros k r. rewrite get_set_cases.
    destruct (k =? id e)%string; [intros [= <-]; exact Hr | apply Hacc].
Qed.

Lemma relevanceMultiplier_nonneg (entities : list Entity) (x y : string) :
  Forall (fun e => 0 <= relevance e) entities ->
  0 <= relevanceMultiplier (relevanceMapOf entities) x y.
Proof.
  intros He. unfold relevanceMultiplier. cbv zeta.
  assert (Hor : forall k, 0 <= orElse (JsMap.get (relevanceMapOf entities) k) (1 # 2)).
  { intros k. unfold orElse.
    destruct (JsMap.get (relevanceMapOf entities) k) as [r|] eqn:E; [|lra].
    destruct (Qeq_bool r 0); [lra|].
    apply (relevanceMapOf_nonneg entities [] He (fun k r H => ltac:(discriminate H)) k r E). }
  pose proof (Hor x). pose proof (Hor y).
  apply Qle_shift_div_l; [lra | lra].
Qed.

End WeightedFacts.

(** X9.  When no entity id contains the character [|] and no relevance is
    negative, the graph of [buildWeightedCooccurrenceGraph] has the nodes and
    the edges of the graph of [buildCooccurrenceGraph], each stored weight
    multiplied by the mean of the relevances of its end points (0.5 for an
    end point without relevance, or with relevance 0); its weights are
    symmetric and not negative, and it has no self-loop. *)
Theorem buildWeightedCooccurrenceGraph_invariant (entities : list Types.Entity)
  (sourceText : string) (options : Cooccurrence.CooccurrenceOptions) :
  Forall (fun e => noBar (Types.id e) = true) entities ->
  Forall (fun e => 0 <= Types.relevance e) entities ->
  let base := Cooccurrence.buildCooccurrenceGraph entities sourceText options in
  let g := WeightedCooccurrence.buildWeightedCooccurrenceGraph entities sourceText
             options in
  Graph.nodes g = Graph.nodes base
  /\ (forall a b, Graph.hasEdge g a b = Graph.hasEdge base a b)
  /\ (forall a b,
        JsMap.get (Graph.adjacency g a) b
        = option_map
            (fun w => w * WeightedCooccurrence.relevanceMultiplier
                            (WeightedCooccurrence.relevanceMapOf entities) a b)
            (JsMap.get (Graph.adjacency base a) b))
  /\ symmetricLoopFree g
  /\ (forall a b, Graph.getEdgeWeight g a b = Graph.getEdgeWeight g b a)
  /\ (forall a b, 0 <= Graph.getEdgeWeight g a b).
Proof.
  intros Hid Hrel base g.
  pose proof (buildCooccurrenceGraph_invariant entities sourceText options Hid)
    as (Hsym & Hloop & Hpos).
  fold base in Hsym, Hloop, Hpos.
  assert (Hadj : forall a b,
            JsMap.get (Graph.adjacency g a) b
            = option_map
                (fun w => w * WeightedCooccurrence.relevanceMultiplier
                                (WeightedCooccurrence.relevanceMapOf entities) a b)
                (JsMap.get (Graph.adjacency base a) b)).
  { intros a b. apply adjacency_weighByRelevance. }
  assert (Hg : symmetricLoopFree g).
  { repeat split.
    - intros a b. rewrite !Hadj, (Hsym a b), (relevanceMultiplier_comm _ a b).
      reflexivity.
    - intros a. now rewrite Hadj, Hloop.
    - intros a b w. rewrite Hadj.
      destruct (JsMap.get (Graph.adjacency base a) b) as [w0|] eqn:E; [|discriminate].
      intros [= <-]. specialize (Hpos a b w0 E).
      pose proof (relevanceMultiplier_nonneg entities a b Hrel). nra. }
  split; [reflexivity|]. split.
  { intros a b. rewrite !hasEdge_adjacency. unfold JsMap.has. rewrite Hadj.
    destruct (JsMap.get (Graph.adjacency base a) b); reflexivity. }
  split; [exact Hadj|]. split; [exact Hg|].
  destruct (symmetricLoopFree_api g Hg) as (A1 & _ & A3). split; assumption.
Qed.

Lemma buildWeightedCooccurrenceGraph_invariant_witness :
  Forall (fun e => noBar (Types.id e) = true) plainEntities
  /\ Forall (fun e => 0 <= Types.relevance e) plainEntities
  /\ symmetricLoopFree
       (WeightedCooccurrence.buildWeightedCooccurrenceGraph plainEntities selfLoopText
          Cooccurrence.noOptions).
Proof.
  assert (H1 : Forall (fun e => noBar (Types.id e) = true) plainEntities)
    by (repeat constructor).
  assert (H2 : Forall (fun e => 0 <= Types.relevance e) plainEntities)
    by (repeat constructor; discriminate).
  split; [exact H1|]. split; [exact H2|].
  exact (proj1 (proj2 (proj2 (proj2
           (buildWeightedCooccurrenceGraph_invariant plainEntities selfLoopText
              Cooccurrence.noOptions H1 H2))))).
Defined.

(** ** graph/types.js: totals under [addEdge] *)

Section TotalsFacts.
Import Graph GraphMeasures.

Lemma totalWeight_inner (s : string) (m : list (string * Q)) (total : Q) :
  fold_left (fun total '(target, weight) =>
               if String.ltb s target then (total + weight)%Q else total)
            m total
  == total + adjacencyWeight s m.
Proof.
  revert total. induction m as [|[t w] r IH]; intros total; simpl; [ring|].
  rewrite IH. destruct (String.ltb s t); ring.
Qed.

Lemma totalWeight_outer (es : list (string * list (string * Q))) (total : Q) :
  fold_left
    (fun total '(source, neighbors) =>
       fold_left (fun total '(target, weight) =>
                    if String.ltb source target then (total + weight)%Q else total)
                 neighbors total)
    es total
  == total + storedWeight es.
Proof.
  revert total. induction es as [|[s m] r IH]; intros total; simpl; [ring|].
  assert (Hgen : forall t1 t2, t1 == t2 ->
            fold_left
              (fun total '(source, neighbors) =>
                 fold_left (fun total '(target, weight) =>
                              if String.ltb source target then (total + weight)%Q
                              else total)
                           neighbors total)
              r t1
            == fold_left
                 (fun total '(source, neighbors) =>
                    fold_left (fun total '(target, weight) =>
                                 if String.ltb source target then (total + weight)%Q
                                 else total)
                              neighbors total)
                 r t2).
  { intros t1 t2 Ht. rewrite !IH. now rewrite Ht. }
  rewrite (Hgen _ _ (totalWeight_inner s m total)), IH. ring.
Qed.

Lemma getTotalWeight_stored (g : SimpleGraph) :
  getTotalWeight g == storedWeight (edges g).
Proof. unfold getTotalWeight. rewrite totalWeight_outer. ring. Qed.

Lemma adjacencyEntries_from (es : list (string * list (string * Q))) (acc : nat) :
  fold_left (fun count '(_, neighbors) => (count + JsMap.size neighbors)%nat) es acc
  = (acc + storedEntries es)%nat.
Proof.
  revert acc. induction es as [|[s m] r IH]; intros acc; simpl; [lia|].
  rewrite IH. lia.
Qed.

Lemma adjacencyEntries_stored (g : SimpleGraph) :
  adjacencyEntries g = storedEntries (edges g).
Proof. unfold adjacencyEntries. now rewrite adjacencyEntries_from. Qed.

Lemma adjacencyWeight_set (s t : string) (v : Q) (m : list (string * Q)) :
  adjacencyWeight s (JsMap.set m t v) + (if String.ltb s t then nullish (JsMap.get m t) 0 else 0)
  == adjacencyWeight s m + (if String.ltb s t then v else 0).
Proof.
  induction m as [|[t' w'] r IH]; simpl.
  - destruct (String.ltb s t); ring.
  - destruct (t =? t')%string eqn:E; simpl.
    + apply String.eqb_eq in E. subst t'. destruct (String.ltb s t); ring.
    + destruct (String.ltb s t'), (String.ltb s t); simpl in *; lra.
Qed.

Lemma size_set {V : Type} (m : list (string * V)) (k : string) (v : V) :
  JsMap.size (JsMap.set m k v)
  = (JsMap.size m + if JsMap.has m k then 0 else 1)%nat.
Proof.
  unfold JsMap.size, JsMap.has. induction m as [|[k' v'] r IH]; simpl; [reflexivity|].
  destruct (k =? k')%string; simpl; [lia|]. rewrite IH. lia.
Qed.

Lemma storedWeight_set (es : list (string * list (string * Q))) (k : string)
  (m' : list (string * Q)) :
  storedWeight (JsMap.set es k m') + adjacencyWeight k (nullish (JsMap.get es k) [])
  == storedWeight es + adjacencyWeight k m'.
Proof.
  induction es as [|[k' m0] r IH]; simpl.
  - ring.
  - destruct (k =? k')%string eqn:E; simpl.
    + apply String.eqb_eq in E. subst k'. ring.
    + lra.
Qed.

Lemma storedEntries_set (es : list (string * list (string * Q))) (k : string)
  (m' : list (string * Q)) :
  (storedEntries (JsMap.set es k m') + JsMap.size (nullish (JsMap.get es k) [])
   = storedEntries es + JsMap.size m')%nat.
Proof.
  induction es as [|[k' m0] r IH]; simpl.
  - lia.
  - destruct (k =? k')%string eqn:E; simpl; lia.
Qed.

Lemma stored_addNode (g : SimpleGraph) (n : string) :
  storedWeight (edges (addNode g n)) == storedWeight (edges g)
  /\ storedEntries (edges (addNode g n)) = storedEntries (edges g).
Proof.
  unfold addNode; simpl. unfold JsMap.has.
  destruct (JsMap.get (edges g) n) eqn:E; [split; reflexivity|].
  pose proof (storedWeight_set (edges g) n []) as Hw.
  pose proof (storedEntries_set (edges g) n []) as He.
  rewrite E in Hw, He. simpl in Hw, He. split; [lra | lia].
Qed.

Lemma nullish_orElse (o : option Q) : orElse o 0 == nullish o 0.
Proof.
  destruct o as [x|]; simpl; [|reflexivity].
  destruct (Qeq_bool x 0) eqn:E; [|reflexivity].
  apply Qeq_bool_iff in E. now rewrite E.
Qed.

(** The stored weight and the number of stored entries after [addEdge]. *)
Lemma stored_addEdge (g : SimpleGraph) (a b : string) (w : Q) :
  storedWeight (edges (addEdge g a b w))
  == storedWeight (edges g) + (if (a =? b)%string then 0 else w)
  /\ (a <> b ->
      storedEntries (edges (addEdge g a b w))
      = (storedEntries (edges g)
         + (if hasEdge g a b then 0 else 1) + (if hasEdge g b a then 0 else 1))%nat).
Proof.
  unfold addEdge. cbv zeta.
  set (g0 := addNode (addNode g a) b).
  assert (H0 : storedWeight (edges g0) == storedWeight (edges g)
               /\ storedEntries (edges g0) = storedEntries (edges g)).
  { unfold g0. destruct (stored_addNode (addNode g a) b) as [W1 E1].
    destruct (stored_addNode g a) as [W2 E2]. split; [lra | lia]. }
  destruct H0 as [W0 E0].
  set (sa := adjacency g0 a).
  set (va := orElse (JsMap.get sa b) 0 + w).
  set (e1 := JsMap.set (edges g0) a (JsMap.set sa b va)).
  set (tb := adjacency (mkGraph (nodes g0) e1) b).
  set (vb := orElse (JsMap.get tb a) 0 + w).
  cbn [edges].
  pose proof (storedWeight_set (edges g0) a (JsMap.set sa b va)) as S1.
  pose proof (storedWeight_set e1 b (JsMap.set tb a vb)) as S2.
  pose proof (adjacencyWeight_set a b va sa) as A1.
  pose proof (adjacencyWeight_set b a vb tb) as A2.
  pose proof (nullish_orElse (JsMap.get sa b)) as N1.
  pose proof (nullish_orElse (JsMap.get tb a)) as N2.
  fold e1 in S1. change (nullish (JsMap.get (edges g0) a) []) with sa in S1.
  change (nullish (JsMap.get e1 b) []) with tb in S2.
  split.
  - destruct (a =? b)%string eqn:Eab.
    + apply String.eqb_eq in Eab. subst b. rewrite ltb_irrefl in A1, A2.
      lra.
    + apply String.eqb_neq in Eab. destruct (ltb_total a b Eab) as [L|L].
      * rewrite L in A1. rewrite (ltb_asym a b L) in A2.
        assert (Hva : va == nullish (JsMap.get sa b) 0 + w)
          by (unfold va; now rewrite N1).
        lra.
      * rewrite L in A2. rewrite (ltb_asym b a L) in A1.
        assert (Hvb : vb == nullish (JsMap.get tb a) 0 + w)
          by (unfold vb; now rewrite N2).
        lra.
  - intros Hab.
    pose proof (storedEntries_set (edges g0) a (JsMap.set sa b va)) as T1.
    pose proof (storedEntries_set e1 b (JsMap.set tb a vb)) as T2.
    fold e1 in T1. change (nullish (JsMap.get (edges g0) a) []) with sa in T1.
    change (nullish (JsMap.get e1 b) []) with tb in T2.
    rewrite size_set in T1, T2.
    assert (Hsa : JsMap.has sa b = hasEdge g a b).
    { unfold sa, g0. rewrite !adjacency_addNode_any. symmetry. apply hasEdge_adjacency. }
    assert (Htb : JsMap.has tb a = hasEdge g b a).
    { unfold tb, e1. rewrite adjacency_set_other by exact Hab.
      change (adjacency (mkGraph (nodes g0) (edges g0)) b) with (adjacency g0 b).
      unfold g0. rewrite !adjacency_addNode_any. symmetry. apply hasEdge_adjacency. }
    rewrite Hsa in T1. rewrite Htb in T2. lia.
Qed.

End TotalsFacts.

(** X14.  [addEdge] between two different nodes adds the given weight to
    [getTotalWeight], whatever the graph holds ([addEdge] of a node with
    itself leaves the total unchanged: a self-loop is not counted); it adds
    one stored entry for each direction that was absent, so one edge to
    [getEdgeCount] when the edge was absent in both directions and none when
    it was present in both. *)
Theorem addEdge_totals (g : Graph.SimpleGraph) (a b : string) (w : Q) :
  GraphMeasures.getTotalWeight (Graph.addEdge g a b w)
  == GraphMeasures.getTotalWeight g + (if (a =? b)%string then 0 else w)
  /\ (a <> b ->
      GraphMeasures.adjacencyEntries (Graph.addEdge g a b w)
      = (GraphMeasures.adjacencyEntries g
         + (if Graph.hasEdge g a b then 0 else 1)
         + (if Graph.hasEdge g b a then 0 else 1))%nat)
  /\ (a <> b -> Graph.hasEdge g a b = Graph.hasEdge g b a ->
      GraphMeasures.getEdgeCount (Graph.addEdge g a b w)
      == GraphMeasures.getEdgeCount g + (if Graph.hasEdge g a b then 0 else 1)).
Proof.
  destruct (stored_addEdge g a b w) as [Hw He].
  split; [now rewrite !getTotalWeight_stored|].
  assert (Hentries : a <> b ->
            GraphMeasures.adjacencyEntries (Graph.addEdge g a b w)
            = (GraphMeasures.adjacencyEntries g
               + (if Graph.hasEdge g a b then 0 else 1)
               + (if Graph.hasEdge g b a then 0 else 1))%nat).
  { intros Hab. rewrite !adjacencyEntries_stored. now apply He. }
  split; [exact Hentries|].
  intros Hab Hsym. unfold GraphMeasures.getEdgeCount.
  rewrite (Hentries Hab), <- Hsym.
  destruct (Graph.hasEdge g a b).
  - rewrite !Nat.add_0_r. lra.
  - replace (GraphMeasures.adjacencyEntries g + 1 + 1)%nat
      with (S (S (GraphMeasures.adjacencyEntries g))) by lia.
    rewrite !natQ_succ. field.
Qed.

(** ** graph/types.js and graph/cooccurrence.ts: where self-loops come from *)

Section SelfLoopFacts.
Import Graph Types Cooccurrence.



End SelfLoopFacts.


